(** * FootballProject: match events, match status, player updates and standings

    A shallow embedding of the server's SQLite store (db/schema.sql,
    db/seed.sql) and of the route handlers that mutate scores and player
    statistics or derive the standings table:

      - POST /api/matches            (createMatch)
      - POST /api/matches/:id/status (setMatchStatus)
      - POST /api/matches/:id/event  (applyEvent)
      - PUT  /api/players/:id        (updatePlayer)
      - GET  /api/standings/:competitionId (computeStandings), with the
        engine option that decides whether its matches query is prepared
      - DELETE /api/teams/:id, DELETE /api/players/:id (deleteTeam,
        deletePlayer), with the foreign-key actions of the schema
      - POST /api/competitions/:id/register (registerTeam)
      - GET  /api/matches/:id/events (listEvents)
      - the requireRole middleware in front of the mutating routes (serve)

    SQL INTEGER columns and the JavaScript numbers read from them are modelled
    as [Z]: scores and counters only grow by one per event, far below the range
    where 64-bit integers or doubles would round.  TEXT columns are [string].
    A nullable column or an optional request field is an [option]. *)

From Stdlib Require Import ZArith List String Ascii Bool Lia.
From Stdlib Require Import Permutation Sorted OrdersEx.
Import ListNotations.
Local Open Scope string_scope.
Local Open Scope Z_scope.

(** ** The store (db/schema.sql)

    Columns that none of the modelled statements reads or writes (a team's
    coach, a competition's squad bounds, registered_at, the users table) are
    left out. *)

Record team := mkTeam {
  t_id : Z;
  t_name : string
}.

Record player := mkPlayer {
  p_id : Z;
  p_team_id : Z;
  p_full_name : string;
  p_position : string;
  p_age : Z;
  p_nationality : option string;
  p_appearances : Z;
  p_goals : Z;
  p_assists : Z;
  p_yellow_cards : Z;
  p_red_cards : Z
}.

Record competition := mkCompetition {
  c_id : Z;
  c_name : string
}.

Record registration := mkRegistration {
  r_team_id : Z;
  r_competition_id : Z
}.

Record match_row := mkMatch {
  m_id : Z;
  m_competition_id : option Z;
  m_home_team_id : Z;
  m_away_team_id : Z;
  m_date_time : string;
  m_venue : option string;
  m_referee : option string;
  m_status : string;
  m_home_score : Z;
  m_away_score : Z
}.

Record match_event := mkEvent {
  e_id : Z;
  e_match_id : Z;
  e_minute : Z;
  e_type : string;
  e_player_id : option Z;
  e_team_id : option Z;
  e_notes : option string
}.

(** Tables are lists of rows in rowid order.  [seq_matches] and
    [seq_match_events] are the AUTOINCREMENT counters of sqlite_sequence: the
    largest rowid ever handed out. *)
Record db := mkDb {
  teams : list team;
  players : list player;
  competitions : list competition;
  registrations : list registration;
  matches : list match_row;
  match_events : list match_event;
  seq_matches : Z;
  seq_match_events : Z
}.

(** What a handler's caller observes: a JSON answer with a 2xx status, a 400
    answer carrying an error message, or an exception that the handler does not
    catch (express answers 500).  [SQLITE_ERROR] is the code of a statement
    that [db.prepare] refuses to compile. *)
Inductive exn :=
  | SQLITE_CONSTRAINT_CHECK
  | SQLITE_CONSTRAINT_NOTNULL
  | SQLITE_CONSTRAINT_UNIQUE
  | SQLITE_CONSTRAINT_FOREIGNKEY
  | SQLITE_ERROR
  | TypeError.

Inductive response (A : Type) :=
  | Ok (a : A)
  | BadRequest (error : string)
  | Thrown (e : exn).
Arguments Ok {A} a.
Arguments BadRequest {A} error.
Arguments Thrown {A} e.

(** ** Small JavaScript and SQL helpers *)

(** [Array.prototype.includes] on an array of string literals. *)
Definition includes (l : list string) (s : string) : bool :=
  existsb (String.eqb s) l.

(** [x === n] where [x] is a request field (null or a number) and [n] a
    number read from the store. *)
Definition strict_eq (x : option Z) (n : Z) : bool :=
  match x with
  | Some v => v =? n
  | None => false
  end.

(** Truthiness of a request field that is null or a number. *)
Definition truthy (x : option Z) : bool :=
  match x with
  | Some v => negb (v =? 0)
  | None => false
  end.

(** [SELECT * FROM t WHERE id = ?] followed by [.get]: the first row. *)
Definition get_team (d : db) (id : Z) : option team :=
  find (fun t => t_id t =? id) (teams d).
Definition get_player (d : db) (id : Z) : option player :=
  find (fun p => p_id p =? id) (players d).
Definition get_competition (d : db) (id : Z) : option competition :=
  find (fun c => c_id c =? id) (competitions d).
Definition get_match (d : db) (id : Z) : option match_row :=
  find (fun m => m_id m =? id) (matches d).

Definition is_some {A} (o : option A) : bool :=
  match o with Some _ => true | None => false end.

(** A nullable foreign key is satisfied by NULL or by an existing parent. *)
Definition fk_ok {A} (lookup : Z -> option A) (ref : option Z) : bool :=
  match ref with
  | Some v => is_some (lookup v)
  | None => true
  end.

Definition set_matches (d : db) (ms : list match_row) : db :=
  mkDb (teams d) (players d) (competitions d) (registrations d) ms
       (match_events d) (seq_matches d) (seq_match_events d).

Definition set_players (d : db) (ps : list player) : db :=
  mkDb (teams d) ps (competitions d) (registrations d) (matches d)
       (match_events d) (seq_matches d) (seq_match_events d).

(** ** POST /api/matches/:id/event *)

Record event_req := mkEventReq {
  minute : Z;
  type : string;
  player_id : option Z;
  team_id : option Z;
  notes : option string
}.

Definition event_types : list string :=
  ["GOAL"; "ASSIST"; "YELLOW"; "RED"; "SUB"; "OWN_GOAL"].

(** The row that the INSERT of the handler writes: its id is the next
    AUTOINCREMENT value. *)
Definition event_row (d : db) (id : Z) (req : event_req) : match_event :=
  mkEvent (seq_match_events d + 1) id (minute req) (type req)
          (player_id req) (team_id req) (notes req).

(** [INSERT INTO match_events (...) VALUES (?,?,?,?,?,?)] with foreign keys on.
    SQLite evaluates the row's CHECK constraints before the row is written and
    the foreign keys at the end of the statement; a failure leaves the store
    as it was and makes [.run] throw. *)
Definition insert_match_event (d : db) (id : Z) (req : event_req)
  : exn + (db * Z) :=
  if negb ((0 <=? minute req) && (minute req <=? 130)) then
    inl SQLITE_CONSTRAINT_CHECK
  else if negb (includes event_types (type req)) then
    inl SQLITE_CONSTRAINT_CHECK
  else if negb (is_some (get_match d id)
                && fk_ok (get_player d) (player_id req)
                && fk_ok (get_team d) (team_id req)) then
    inl SQLITE_CONSTRAINT_FOREIGNKEY
  else
    let rowid := seq_match_events d + 1 in
    inr (mkDb (teams d) (players d) (competitions d) (registrations d)
              (matches d) (match_events d ++ [event_row d id req])
              (seq_matches d) rowid,
         rowid).

(** [(team_id === side) ^ isOwn ? 1 : 0]: the two booleans are coerced to
    32-bit integers by [^], and the conditional tests the result. *)
Definition scoreInc (team_id : option Z) (side_team_id : Z) (isOwn : bool)
  : Z :=
  if Z.lxor (Z.b2z (strict_eq team_id side_team_id)) (Z.b2z isOwn) =? 0
  then 0 else 1.

(** [UPDATE matches SET home_score = home_score + ?, away_score = away_score + ?
    WHERE id = ?] *)
Definition add_scores (homeInc awayInc id : Z) (m : match_row) : match_row :=
  if m_id m =? id then
    mkMatch (m_id m) (m_competition_id m) (m_home_team_id m) (m_away_team_id m)
            (m_date_time m) (m_venue m) (m_referee m) (m_status m)
            (m_home_score m + homeInc) (m_away_score m + awayInc)
  else m.

(** [UPDATE players SET goals = goals + 1 WHERE id = ?] and its two siblings. *)
Definition inc_goals (id : Z) (p : player) : player :=
  if p_id p =? id then
    mkPlayer (p_id p) (p_team_id p) (p_full_name p) (p_position p) (p_age p)
             (p_nationality p) (p_appearances p) (p_goals p + 1) (p_assists p)
             (p_yellow_cards p) (p_red_cards p)
  else p.

Definition inc_yellow_cards (id : Z) (p : player) : player :=
  if p_id p =? id then
    mkPlayer (p_id p) (p_team_id p) (p_full_name p) (p_position p) (p_age p)
             (p_nationality p) (p_appearances p) (p_goals p) (p_assists p)
             (p_yellow_cards p + 1) (p_red_cards p)
  else p.

Definition inc_red_cards (id : Z) (p : player) : player :=
  if p_id p =? id then
    mkPlayer (p_id p) (p_team_id p) (p_full_name p) (p_position p) (p_age p)
             (p_nationality p) (p_appearances p) (p_goals p) (p_assists p)
             (p_yellow_cards p) (p_red_cards p + 1)
  else p.

(** The statement run when [cond] holds for a present player id. *)
Definition update_player_if (cond : bool) (player_id : option Z)
    (f : Z -> player -> player) (d : db) : db :=
  match player_id with
  | Some pid =>
      if cond && truthy player_id then set_players d (map (f pid) (players d))
      else d
  | None => d
  end.

(** The goal branch of the handler.  [match] is the row read back after the
    insert; reading [match.home_team_id] of an absent row throws. *)
Definition score_goal (d : db) (id : Z) (req : event_req)
    (match_ : option match_row) : exn + db :=
  match match_ with
  | None => inl TypeError
  | Some m =>
      let isOwn := String.eqb (type req) "OWN_GOAL" in
      let homeInc := scoreInc (team_id req) (m_home_team_id m) isOwn in
      let awayInc := scoreInc (team_id req) (m_away_team_id m) isOwn in
      let d1 :=
        set_matches d (map (add_scores homeInc awayInc id) (matches d)) in
      inr (update_player_if (String.eqb (type req) "GOAL") (player_id req)
                            inc_goals d1)
  end.

Definition card_updates (d : db) (req : event_req) : db :=
  let d1 := update_player_if (String.eqb (type req) "YELLOW") (player_id req)
                             inc_yellow_cards d in
  update_player_if (String.eqb (type req) "RED") (player_id req)
                   inc_red_cards d1.

(** The handler: the store after the request and the answer. *)
Definition applyEvent (d : db) (id : Z) (req : event_req) : db * response Z :=
  if negb (includes event_types (type req)) then
    (d, BadRequest "Bad event type")
  else
    match insert_match_event d id req with
    | inl e => (d, Thrown e)
    | inr (d1, lastInsertRowid) =>
        let match_ := get_match d1 id in
        if String.eqb (type req) "GOAL" || String.eqb (type req) "OWN_GOAL"
        then
          match score_goal d1 id req match_ with
          | inl e => (d1, Thrown e)
          | inr d2 => (card_updates d2 req, Ok lastInsertRowid)
          end
        else (card_updates d1 req, Ok lastInsertRowid)
    end.

(** ** POST /api/matches/:id/status *)

Definition match_statuses : list string := ["SCHEDULED"; "IN_PLAY"; "FINISHED"].

(** [UPDATE matches SET status = ? WHERE id = ?] *)
Definition set_status (status : string) (id : Z) (m : match_row) : match_row :=
  if m_id m =? id then
    mkMatch (m_id m) (m_competition_id m) (m_home_team_id m) (m_away_team_id m)
            (m_date_time m) (m_venue m) (m_referee m) status
            (m_home_score m) (m_away_score m)
  else m.

(** [info.changes]: the number of rows the statement touched. *)
Definition changes {A} (hit : A -> bool) (rows : list A) : Z :=
  Z.of_nat (List.length (filter hit rows)).

Definition setMatchStatus (d : db) (id : Z) (status : string)
  : db * response Z :=
  if negb (includes match_statuses status) then (d, BadRequest "Bad status")
  else (set_matches d (map (set_status status id) (matches d)),
        Ok (changes (fun m => m_id m =? id) (matches d))).

(** ** POST /api/matches *)

Record match_req := mkMatchReq {
  q_competition_id : option Z;
  q_home_team_id : Z;
  q_away_team_id : Z;
  q_date_time : string;
  q_venue : option string;
  q_referee : option string
}.

(** [MatchSchema.safeParse]: positive ids, and the [superRefine] issue
    'Home and away teams must differ'. *)
Definition MatchSchema (q : match_req) : bool :=
  match q_competition_id q with Some c => 0 <? c | None => true end
  && (0 <? q_home_team_id q) && (0 <? q_away_team_id q)
  && negb (q_home_team_id q =? q_away_team_id q).

Definition same_fixture (q : match_req) (m : match_row) : bool :=
  (m_home_team_id m =? q_home_team_id q)
  && (m_away_team_id m =? q_away_team_id q)
  && String.eqb (m_date_time m) (q_date_time q).

Definition createMatch (d : db) (q : match_req) : db * response Z :=
  if negb (MatchSchema q) then (d, BadRequest "ZodError")
  else if existsb (same_fixture q) (matches d) then
    (d, BadRequest "UNIQUE constraint failed")
  else if negb (fk_ok (get_competition d) (q_competition_id q)
                && is_some (get_team d (q_home_team_id q))
                && is_some (get_team d (q_away_team_id q))) then
    (d, BadRequest "FOREIGN KEY constraint failed")
  else
    let rowid := seq_matches d + 1 in
    let row := mkMatch rowid (q_competition_id q) (q_home_team_id q)
                       (q_away_team_id q) (q_date_time q) (q_venue q)
                       (q_referee q) "SCHEDULED" 0 0 in
    (mkDb (teams d) (players d) (competitions d) (registrations d)
          (matches d ++ [row]) (match_events d) rowid (seq_match_events d),
     Ok rowid).

(** ** PUT /api/players/:id *)

(** The keys of the request body that pass the [allowed] filter, each with the
    value to store.  Values are taken at the column's type; [u_nationality]
    may carry an explicit null. *)
Record player_patch := mkPatch {
  u_team_id : option Z;
  u_full_name : option string;
  u_position : option string;
  u_age : option Z;
  u_nationality : option (option string);
  u_appearances : option Z;
  u_goals : option Z;
  u_assists : option Z;
  u_yellow_cards : option Z;
  u_red_cards : option Z
}.

Definition present {A} (field : option A) : nat :=
  match field with Some _ => 1 | None => 0 end.

(** [fields.length] *)
Definition fields_length (u : player_patch) : nat :=
  (present (u_team_id u) + present (u_full_name u) + present (u_position u)
   + present (u_age u) + present (u_nationality u) + present (u_appearances u)
   + present (u_goals u) + present (u_assists u) + present (u_yellow_cards u)
   + present (u_red_cards u))%nat.

Definition or_keep {A} (new : option A) (old : A) : A :=
  match new with Some v => v | None => old end.

(** [SET f1 = ?, f2 = ?, ...] on one row. *)
Definition apply_patch (u : player_patch) (p : player) : player :=
  mkPlayer (p_id p)
           (or_keep (u_team_id u) (p_team_id p))
           (or_keep (u_full_name u) (p_full_name p))
           (or_keep (u_position u) (p_position p))
           (or_keep (u_age u) (p_age p))
           (or_keep (u_nationality u) (p_nationality p))
           (or_keep (u_appearances u) (p_appearances p))
           (or_keep (u_goals u) (p_goals p))
           (or_keep (u_assists u) (p_assists p))
           (or_keep (u_yellow_cards u) (p_yellow_cards p))
           (or_keep (u_red_cards u) (p_red_cards p)).

Definition positions : list string := ["GK"; "DF"; "MF"; "FW"].

(** The CHECK constraints of the players table. *)
Definition player_checks (p : player) : bool :=
  includes positions (p_position p) && (10 <=? p_age p) && (p_age p <=? 55).

Definition updatePlayer (d : db) (id : Z) (body : player_patch)
  : db * response Z :=
  if Nat.eqb (fields_length body) 0 then (d, Ok 0)
  else
    let hit := filter (fun p => p_id p =? id) (players d) in
    if existsb (fun p => negb (player_checks (apply_patch body p))) hit then
      (d, Thrown SQLITE_CONSTRAINT_CHECK)
    else if negb (Nat.eqb (List.length hit) 0)
            && negb (fk_ok (get_team d) (u_team_id body)) then
      (d, Thrown SQLITE_CONSTRAINT_FOREIGNKEY)
    else
      (set_players d
         (map (fun p => if p_id p =? id then apply_patch body p else p)
              (players d)),
       Ok (changes (fun p => p_id p =? id) (players d))).

(** ** db/seed.sql

    The store after the schema and the seed have run once on an empty file.
    The seeded fixture is dated one day after the seeding; a fixed date stands
    for it. *)
Definition seed_player (id team_id : Z) (full_name position : string) (age : Z)
    (nationality : string) : player :=
  mkPlayer id team_id full_name position age (Some nationality) 0 0 0 0 0.

Definition seed_db : db :=
  mkDb
    [mkTeam 1 "Falcon FC"; mkTeam 2 "River United"]
    [seed_player 1 1 "Janos Toth" "GK" 28 "HU";
     seed_player 2 1 "Bence Nagy" "DF" 24 "HU";
     seed_player 3 1 "Milan Popov" "FW" 26 "RS";
     seed_player 4 2 "Adam Szabo" "GK" 29 "HU";
     seed_player 5 2 "David Kiss" "MF" 22 "HU";
     seed_player 6 2 "Luka Petrovic" "FW" 25 "RS"]
    [mkCompetition 1 "National League"; mkCompetition 2 "U23 Cup"]
    [mkRegistration 1 1; mkRegistration 2 1]
    [mkMatch 1 (Some 1) 1 2 "2025-01-02 12:00:00" (Some "Falcon Arena")
             (Some "Ref A") "SCHEDULED" 0 0]
    [] 1 0.

(** ** Schema invariants used by the claims

    AUTOINCREMENT hands out rowids from 1 upwards, and a match is only created
    through [MatchSchema], which refuses equal home and away teams. *)
Definition player_ids_positive (d : db) : Prop :=
  Forall (fun p => 0 < p_id p) (players d).

Definition sides_differ (d : db) : Prop :=
  Forall (fun m => m_home_team_id m <> m_away_team_id m) (matches d).

(** ** GET /api/standings/:competitionId *)

(** A row object of the standings table. *)
Record standing := mkStanding {
  s_team_id : Z;
  s_team : string;
  P : Z;
  W : Z;
  D : Z;
  L : Z;
  GF : Z;
  GA : Z;
  GD : Z;
  PTS : Z
}.

(** A JavaScript [Map] from team id to row object: its entries in insertion
    order, one per key. *)
Definition Map := list (Z * standing).

(** [Map.prototype.set]: a present key keeps its place and takes the new
    value, a new key goes last. *)
Fixpoint Map_set (k : Z) (v : standing) (t : Map) : Map :=
  match t with
  | [] => [(k, v)]
  | (k', v') :: t' =>
      if k' =? k then (k', v) :: t' else (k', v') :: Map_set k v t'
  end.

(** [new Map(entries)] *)
Definition new_Map (entries : list (Z * standing)) : Map :=
  fold_left (fun t e => Map_set (fst e) (snd e) t) entries [].

(** [Map.prototype.get]; [None] is [undefined]. *)
Definition Map_get (k : Z) (t : Map) : option standing :=
  option_map snd (find (fun e => fst e =? k) t).

(** [Map.prototype.values] *)
Definition Map_values (t : Map) : list standing := map snd t.

(** A field assignment through the reference that [get] returned for key [k]:
    the object stored under [k] changes in place.  When the home and the away
    key are equal both references are the same object. *)
Definition entry_modify (k : Z) (f : standing -> standing) (e : Z * standing)
  : Z * standing :=
  if fst e =? k then (fst e, f (snd e)) else e.

Definition Map_modify (k : Z) (f : standing -> standing) (t : Map) : Map :=
  map (entry_modify k f) t.

Definition inc_P (r : standing) : standing :=
  mkStanding (s_team_id r) (s_team r) (P r + 1) (W r) (D r) (L r)
             (GF r) (GA r) (GD r) (PTS r).
Definition inc_W (r : standing) : standing :=
  mkStanding (s_team_id r) (s_team r) (P r) (W r + 1) (D r) (L r)
             (GF r) (GA r) (GD r) (PTS r).
Definition inc_D (r : standing) : standing :=
  mkStanding (s_team_id r) (s_team r) (P r) (W r) (D r + 1) (L r)
             (GF r) (GA r) (GD r) (PTS r).
Definition inc_L (r : standing) : standing :=
  mkStanding (s_team_id r) (s_team r) (P r) (W r) (D r) (L r + 1)
             (GF r) (GA r) (GD r) (PTS r).
Definition add_GF (n : Z) (r : standing) : standing :=
  mkStanding (s_team_id r) (s_team r) (P r) (W r) (D r) (L r)
             (GF r + n) (GA r) (GD r) (PTS r).
Definition add_GA (n : Z) (r : standing) : standing :=
  mkStanding (s_team_id r) (s_team r) (P r) (W r) (D r) (L r)
             (GF r) (GA r + n) (GD r) (PTS r).
Definition set_GD (r : standing) : standing :=
  mkStanding (s_team_id r) (s_team r) (P r) (W r) (D r) (L r)
             (GF r) (GA r) (GF r - GA r) (PTS r).
Definition add_PTS (n : Z) (r : standing) : standing :=
  mkStanding (s_team_id r) (s_team r) (P r) (W r) (D r) (L r)
             (GF r) (GA r) (GD r) (PTS r + n).

(** The statements of the loop body that follow the [continue] guard, in
    source order. *)
Definition tally_both (table : Map) (m : match_row) : Map :=
  let home := m_home_team_id m in
  let away := m_away_team_id m in
  let t := Map_modify away inc_P (Map_modify home inc_P table) in
  let t := Map_modify home (add_GF (m_home_score m)) t in
  let t := Map_modify home (add_GA (m_away_score m)) t in
  let t := Map_modify home set_GD t in
  let t := Map_modify away (add_GF (m_away_score m)) t in
  let t := Map_modify away (add_GA (m_home_score m)) t in
  let t := Map_modify away set_GD t in
  if m_away_score m <? m_home_score m then
    Map_modify home (add_PTS 3)
      (Map_modify away inc_L (Map_modify home inc_W t))
  else if m_home_score m <? m_away_score m then
    Map_modify away (add_PTS 3)
      (Map_modify home inc_L (Map_modify away inc_W t))
  else
    Map_modify away (add_PTS 1)
      (Map_modify home (add_PTS 1)
         (Map_modify away inc_D (Map_modify home inc_D t))).

(** One iteration of [for (const m of matches)]. *)
Definition tally (table : Map) (m : match_row) : Map :=
  match Map_get (m_home_team_id m) table, Map_get (m_away_team_id m) table with
  | Some _, Some _ => tally_both table m
  | _, _ => table
  end.

(** [SELECT t.id, t.name FROM teams t JOIN registrations r ON r.team_id = t.id
    WHERE r.competition_id = ?]: a nested loop over the two tables. *)
Definition registered_teams (d : db) (cid : Z) : list team :=
  flat_map
    (fun t =>
       map (fun _ => t)
           (filter (fun r => (r_team_id r =? t_id t)
                             && (r_competition_id r =? cid))
                   (registrations d)))
    (teams d).

(** [SELECT * FROM matches WHERE competition_id = ? AND status = "FINISHED"]

    The statement writes FINISHED between double quotes, where the query of
    /api/live writes 'IN_PLAY' between single ones.  SQL reads a double-quoted
    token as an identifier, and [matches] has no column of that name.  What
    [db.prepare] does then is fixed when SQLite is compiled, by its option
    SQLITE_DQS: a build that allows double-quoted string literals falls back
    to the string 'FINISHED'; a build that does not throws "no such column".
    The option belongs to the engine, not to this repository, so it is the
    parameter [dqs] here: [true] where the fall-back is allowed. *)
Definition prepare_finished (dqs : bool) : response string :=
  if dqs then Ok "FINISHED" else Thrown SQLITE_ERROR.

(** The SQLite that better-sqlite3 bundles, the engine the server imports, is
    compiled with SQLITE_DQS=0. *)
Definition better_sqlite3_dqs : bool := false.

(** [.all(cid)] of the statement once it is prepared:
    [competition_id = ? AND status = <the literal>]. *)
Definition select_matches (status : string) (d : db) (cid : Z)
  : list match_row :=
  filter (fun m => match m_competition_id m with
                   | Some c => c =? cid
                   | None => false
                   end && String.eqb (m_status m) status)
         (matches d).

(** [const matches = db.prepare(...).all(cid)]: the exception of [prepare] is
    not caught by the handler. *)
Definition finished_matches (dqs : bool) (d : db) (cid : Z)
  : response (list match_row) :=
  match prepare_finished dqs with
  | Ok status => Ok (select_matches status d cid)
  | BadRequest error => BadRequest error
  | Thrown e => Thrown e
  end.

Definition zero_row (t : team) : Z * standing :=
  (t_id t, mkStanding (t_id t) (t_name t) 0 0 0 0 0 0 0 0).

(** [new Map(teams.map(...))] followed by [for (const m of matches)]: the
    table when the loop over the rows [matches] has ended. *)
Definition standings_table (teams : list team) (matches : list match_row)
  : Map :=
  fold_left tally matches (new_Map (map zero_row teams)).

(** [x || y] on numbers: the first operand unless it is zero. *)
Definition js_or (x y : Z) : Z := if x =? 0 then y else x.

(** [Array.prototype.sort] is stable, and for a consistent comparator its
    result is the stable sorted arrangement whatever algorithm the engine runs;
    insertion from the right computes that arrangement. *)
Section Sort.
Context {A : Type} (cmp : A -> A -> Z).

Fixpoint insert_sorted (x : A) (l : list A) : list A :=
  match l with
  | [] => [x]
  | y :: l' => if cmp x y <=? 0 then x :: l else y :: insert_sorted x l'
  end.

Definition sort (l : list A) : list A := fold_right insert_sorted [] l.
End Sort.

Section Standings.
(** [String.prototype.localeCompare] belongs to the JavaScript engine: a
    negative, zero or positive number by the host's collation. *)
Variable localeCompare : string -> string -> Z.

(** The comparator handed to [sort]. *)
Definition compareRows (a b : standing) : Z :=
  js_or (PTS b - PTS a)
    (js_or (GD b - GD a)
       (js_or (GF b - GF a) (localeCompare (s_team a) (s_team b)))).

(** The handler.  The registration query and the table come first; the
    matches query comes next, and when its [prepare] throws neither the loop
    nor the sort runs and nothing is answered. *)
Definition computeStandings (dqs : bool) (d : db) (cid : Z)
  : response (list standing) :=
  let teams := registered_teams d cid in
  match finished_matches dqs d cid with
  | Ok matches =>
      Ok (sort compareRows (Map_values (standings_table teams matches)))
  | BadRequest error => BadRequest error
  | Thrown e => Thrown e
  end.

(** The ordering as the specification words it: the key tuple
    (points, GD, GF, -name) of [a] is lexicographically at least that of [b];
    names are ranked by the collation. *)
Definition key_ge (a b : standing) : Prop :=
  PTS b < PTS a \/
  (PTS a = PTS b /\
   (GD b < GD a \/
    (GD a = GD b /\
     (GF b < GF a \/
      (GF a = GF b /\ localeCompare (s_team a) (s_team b) <= 0))))).

Definition key_gt (a b : standing) : Prop := key_ge a b /\ ~ key_ge b a.

End Standings.

(** What ECMA-262 asks of [localeCompare]: a consistent comparator, that is a
    total preorder on strings. *)
Definition consistent_comparator (cmp : string -> string -> Z) : Prop :=
  (forall a b, cmp a b <= 0 \/ cmp b a <= 0) /\
  (forall a b c, cmp a b <= 0 -> cmp b c <= 0 -> cmp a c <= 0).

(** The arithmetic invariants of a row. *)
Definition row_consistent (r : standing) : Prop :=
  P r = W r + D r + L r /\ PTS r = 3 * W r + D r /\ GD r = GF r - GA r.

(** ** A collation to run the standings with

    [codeUnitCompare] ranks strings by their code units, as [localeCompare]
    does on the ASCII names of the seeded teams. *)
Definition sign_of (c : comparison) : Z :=
  match c with Lt => -1 | Eq => 0 | Gt => 1 end.

Definition codeUnitCompare (a b : string) : Z :=
  sign_of (String_as_OT.compare a b).

(** ** The claims on status and counters, as stated *)

(** SCHEDULED, then IN_PLAY, then FINISHED. *)
Definition status_rank (s : string) : Z :=
  if String.eqb s "SCHEDULED" then 0
  else if String.eqb s "IN_PLAY" then 1
  else 2.

(** The states the modelled operations reach from the seeded store. *)
Inductive reachable : db -> Prop :=
  | reach_seed : reachable seed_db
  | reach_createMatch d q :
      reachable d -> reachable (fst (createMatch d q))
  | reach_setMatchStatus d id status :
      reachable d -> reachable (fst (setMatchStatus d id status))
  | reach_applyEvent d id req :
      reachable d -> reachable (fst (applyEvent d id req))
  | reach_updatePlayer d id body :
      reachable d -> reachable (fst (updatePlayer d id body)).

Definition status_forward_only : Prop :=
  forall d id status m m',
    reachable d ->
    get_match d id = Some m ->
    get_match (fst (setMatchStatus d id status)) id = Some m' ->
    status_rank (m_status m) <= status_rank (m_status m').

Definition counters_le (p p' : player) : Prop :=
  p_appearances p <= p_appearances p' /\
  p_goals p <= p_goals p' /\
  p_assists p <= p_assists p' /\
  p_yellow_cards p <= p_yellow_cards p' /\
  p_red_cards p <= p_red_cards p'.

Definition counters_never_decrease : Prop :=
  forall d id body pid p p',
    reachable d ->
    get_player d pid = Some p ->
    get_player (fst (updatePlayer d id body)) pid = Some p' ->
    counters_le p p'.

(** Requests used to run the handlers on the seeded store. *)
Definition goal_by (player team : Z) : event_req :=
  mkEventReq 10 "GOAL" (Some player) (Some team) None.

Definition own_goal_without_team : event_req :=
  mkEventReq 10 "OWN_GOAL" None None None.

Definition reset_goals : player_patch :=
  mkPatch None None None None None None (Some 0) None None None.

(** ** The scenarios of the specification, played on the seeded store *)

(** Match 1 of the seeded store played to Falcon FC 3 - 1 River United. *)
Definition falcon_3_river_1 : db :=
  fst (setMatchStatus
         (fold_left (fun d req => fst (applyEvent d 1 req))
                    [goal_by 3 1; goal_by 3 1; goal_by 6 2; goal_by 3 1]
                    seed_db)
         1 "FINISHED").

(** The same match played to 2 - 2, the second goal of each side an own goal
    of the other. *)
Definition falcon_2_river_2 : db :=
  fst (setMatchStatus
         (fold_left (fun d req => fst (applyEvent d 1 req))
                    [goal_by 3 1; goal_by 6 2;
                     mkEventReq 50 "OWN_GOAL" (Some 2) (Some 1) None;
                     mkEventReq 60 "OWN_GOAL" (Some 4) (Some 2) None]
                    seed_db)
         1 "FINISHED").

(** ** How a handler may change the tables *)

(** One player row before and after: same id, no counter lower, appearances
    and assists untouched. *)
Definition player_step (p p' : player) : Prop :=
  p_id p' = p_id p /\ counters_le p p' /\
  p_appearances p' = p_appearances p /\ p_assists p' = p_assists p.

Definition match_step (m m' : match_row) : Prop :=
  m_id m' = m_id m /\ m_home_team_id m' = m_home_team_id m /\
  m_away_team_id m' = m_away_team_id m /\ m_status m' = m_status m.

(** The tables of [d'] are those of [d] updated row by row. *)
Definition evolves (d d' : db) : Prop :=
  (exists fm,
     matches d' = map fm (matches d) /\ forall m, match_step m (fm m)) /\
  (exists fp,
     players d' = map fp (players d) /\ forall p, player_step p (fp p)).

(** ** The role middleware and the guarded routes *)

(** [(req.headers['x-role'] || 'spectator').toString()]: an absent or empty
    header counts as 'spectator'. *)
Definition header_role (x_role : option string) : string :=
  match x_role with
  | Some s => if String.eqb s "" then "spectator" else s
  | None => "spectator"
  end.

(** [requireRole(...roles)]: [true] when the middleware calls [next()],
    [false] when it answers 403. *)
Definition requireRole (roles : list string) (x_role : option string) : bool :=
  includes roles (header_role x_role).

Inductive http (A : Type) :=
  | Forbidden
  | Answered (a : A).
Arguments Forbidden {A}.
Arguments Answered {A} a.

(** A route declared as [app.METHOD(path, requireRole(...), handler)]. *)
Definition guard {A} (roles : list string) (x_role : option string)
    (handler : db -> db * A) (d : db) : db * http A :=
  if requireRole roles x_role
  then (fst (handler d), Answered (snd (handler d)))
  else (d, Forbidden).

(** ** DELETE /api/teams/:id and DELETE /api/players/:id

    The DELETE statement removes the parent rows; the foreign keys of the
    schema then act on the children: players, registrations and matches of a
    team go with it (ON DELETE CASCADE), the events of a deleted match go with
    the match, and an event that names a deleted player or team keeps its row
    with the reference set to NULL (ON DELETE SET NULL).  [info.changes]
    counts the parent rows only. *)
Definition null_if (gone : Z -> bool) (ref : option Z) : option Z :=
  match ref with
  | Some v => if gone v then None else Some v
  | None => None
  end.

Definition set_event_refs (player_id team_id : option Z) (e : match_event)
  : match_event :=
  mkEvent (e_id e) (e_match_id e) (e_minute e) (e_type e) player_id team_id
          (e_notes e).

Definition team_plays (id : Z) (m : match_row) : bool :=
  (m_home_team_id m =? id) || (m_away_team_id m =? id).

Definition deleteTeam (d : db) (id : Z) : db * response Z :=
  if negb (existsb (fun t => t_id t =? id) (teams d)) then (d, Ok 0)
  else
    let lost_player_id v :=
      existsb (fun p => (p_id p =? v) && (p_team_id p =? id)) (players d) in
    let lost_match_id v :=
      existsb (fun m => (m_id m =? v) && team_plays id m) (matches d) in
    (mkDb (filter (fun t => negb (t_id t =? id)) (teams d))
          (filter (fun p => negb (p_team_id p =? id)) (players d))
          (competitions d)
          (filter (fun r => negb (r_team_id r =? id)) (registrations d))
          (filter (fun m => negb (team_plays id m)) (matches d))
          (map (fun e => set_event_refs
                           (null_if lost_player_id (e_player_id e))
                           (null_if (Z.eqb id) (e_team_id e)) e)
               (filter (fun e => negb (lost_match_id (e_match_id e)))
                       (match_events d)))
          (seq_matches d) (seq_match_events d),
     Ok (changes (fun t => t_id t =? id) (teams d))).

Definition deletePlayer (d : db) (id : Z) : db * response Z :=
  if negb (existsb (fun p => p_id p =? id) (players d)) then (d, Ok 0)
  else
    (mkDb (teams d)
          (filter (fun p => negb (p_id p =? id)) (players d))
          (competitions d) (registrations d) (matches d)
          (map (fun e => set_event_refs (null_if (Z.eqb id) (e_player_id e))
                                        (e_team_id e) e)
               (match_events d))
          (seq_matches d) (seq_match_events d),
     Ok (changes (fun p => p_id p =? id) (players d))).

(** ** The mutating routes that carry a role guard *)

Inductive request :=
  | DELETE_team (id : Z)
  | PUT_player (id : Z) (body : player_patch)
  | DELETE_player (id : Z)
  | POST_match (q : match_req)
  | POST_match_status (id : Z) (status : string)
  | POST_match_event (id : Z) (req : event_req).

(** The roles each route hands to [requireRole]. *)
Definition allowed_roles (r : request) : list string :=
  match r with
  | DELETE_team _ => ["admin"]
  | PUT_player _ _ => ["admin"; "coach"]
  | DELETE_player _ => ["admin"; "coach"]
  | POST_match _ => ["admin"]
  | POST_match_status _ _ => ["referee"; "admin"]
  | POST_match_event _ _ => ["referee"; "admin"]
  end.

Definition handler (r : request) (d : db) : db * response Z :=
  match r with
  | DELETE_team id => deleteTeam d id
  | PUT_player id body => updatePlayer d id body
  | DELETE_player id => deletePlayer d id
  | POST_match q => createMatch d q
  | POST_match_status id status => setMatchStatus d id status
  | POST_match_event id req => applyEvent d id req
  end.

Definition serve (x_role : option string) (r : request) (d : db)
  : db * http (response Z) :=
  guard (allowed_roles r) x_role (handler r) d.

(** ** POST /api/competitions/:id/register *)

(** A row of the competitions table with the columns the registration reads;
    [competitions] of the store keeps the id and the name of the same rows. *)
Record competition_row := mkCompetitionRow {
  cr_id : Z;
  cr_name : string;
  cr_type : string;
  cr_min_squad : Z;
  cr_max_squad : Z;
  cr_age_limit : option Z
}.

(** The answers of the handler: 201 {ok: true}; 404 'Competition not found';
    400 'Minimum squad size N not met'; 400 'Maximum squad size N exceeded';
    400 'Age limit N exceeded by some players'; 400 with the message of the
    constraint that the INSERT failed. *)
Inductive register_answer :=
  | Registered
  | CompetitionNotFound
  | MinimumSquadNotMet (min_squad : Z)
  | MaximumSquadExceeded (max_squad : Z)
  | AgeLimitExceeded (age_limit : Z)
  | InsertFailed (e : exn).

(** [SELECT COUNT( * ) as c, MAX(age) as max_age FROM players
    WHERE team_id = ?]: the maximum of no row is NULL. *)
Definition squad (d : db) (team_id : Z) : list player :=
  filter (fun p => p_team_id p =? team_id) (players d).

Definition squad_count (d : db) (team_id : Z) : Z :=
  Z.of_nat (List.length (squad d team_id)).

Definition squad_max_age (d : db) (team_id : Z) : option Z :=
  fold_right (fun p acc => match acc with
                           | Some a => Some (Z.max (p_age p) a)
                           | None => Some (p_age p)
                           end)
             None (squad d team_id).

(** [null > n] compares 0 with [n]. *)
Definition null_as_zero (x : option Z) : Z :=
  match x with Some v => v | None => 0 end.

Definition same_registration (team_id competition_id : Z) (r : registration)
  : bool :=
  (r_team_id r =? team_id) && (r_competition_id r =? competition_id).

Definition registerTeam (comps : list competition_row)
    (competition_id team_id : Z) (d : db) : db * register_answer :=
  match find (fun c => cr_id c =? competition_id) comps with
  | None => (d, CompetitionNotFound)
  | Some comp =>
      if squad_count d team_id <? cr_min_squad comp then
        (d, MinimumSquadNotMet (cr_min_squad comp))
      else if cr_max_squad comp <? squad_count d team_id then
        (d, MaximumSquadExceeded (cr_max_squad comp))
      else if truthy (cr_age_limit comp)
              && (null_as_zero (cr_age_limit comp)
                  <? null_as_zero (squad_max_age d team_id)) then
        (d, AgeLimitExceeded (null_as_zero (cr_age_limit comp)))
      else if existsb (same_registration team_id competition_id)
                      (registrations d) then
        (d, InsertFailed SQLITE_CONSTRAINT_UNIQUE)
      else if negb (is_some (get_team d team_id)
                    && is_some (get_competition d competition_id)) then
        (d, InsertFailed SQLITE_CONSTRAINT_FOREIGNKEY)
      else
        (mkDb (teams d) (players d) (competitions d)
              (registrations d ++ [mkRegistration team_id competition_id])
              (matches d) (match_events d) (seq_matches d)
              (seq_match_events d),
         Registered)
  end.

Definition route_register (comps : list competition_row)
    (x_role : option string) (competition_id team_id : Z) (d : db)
  : db * http register_answer :=
  guard ["admin"; "coach"] x_role (registerTeam comps competition_id team_id) d.

(** The competitions of the seed with all their columns. *)
Definition seed_competitions : list competition_row :=
  [mkCompetitionRow 1 "National League" "LEAGUE" 16 35 None;
   mkCompetitionRow 2 "U23 Cup" "TOURNAMENT" 11 25 (Some 23)].

(** ** GET /api/matches/:id/events *)

(** [ORDER BY minute ASC, id ASC] as a comparator. *)
Definition by_minute_then_id (a b : match_event) : Z :=
  if e_minute a =? e_minute b then e_id a - e_id b
  else e_minute a - e_minute b.

Definition listEvents (d : db) (id : Z) : list match_event :=
  sort by_minute_then_id
       (filter (fun e => e_match_id e =? id) (match_events d)).

(** ** Well-formed stores

    What the schema's keys promise of a store: every reference names a row
    that exists, and rowids are positive, distinct and not above the
    AUTOINCREMENT counter. *)
Definition ref_ok (ids : list Z) (ref : option Z) : Prop :=
  match ref with
  | Some v => In v ids
  | None => True
  end.

Definition team_ids (d : db) : list Z := map t_id (teams d).
Definition player_ids (d : db) : list Z := map p_id (players d).
Definition competition_ids (d : db) : list Z := map c_id (competitions d).
Definition match_ids (d : db) : list Z := map m_id (matches d).
Definition event_ids (d : db) : list Z := map e_id (match_events d).

Definition references_resolve (d : db) : Prop :=
  Forall (fun p => In (p_team_id p) (team_ids d)) (players d) /\
  Forall (fun r => In (r_team_id r) (team_ids d) /\
                   In (r_competition_id r) (competition_ids d))
         (registrations d) /\
  Forall (fun m => In (m_home_team_id m) (team_ids d) /\
                   In (m_away_team_id m) (team_ids d) /\
                   ref_ok (competition_ids d) (m_competition_id m))
         (matches d) /\
  Forall (fun e => In (e_match_id e) (match_ids d) /\
                   ref_ok (player_ids d) (e_player_id e) /\
                   ref_ok (team_ids d) (e_team_id e))
         (match_events d).

Definition rowids_fresh (d : db) : Prop :=
  NoDup (match_ids d) /\ Forall (fun id => id <= seq_matches d) (match_ids d) /\
  NoDup (event_ids d) /\
  Forall (fun id => id <= seq_match_events d) (event_ids d).

Definition scores_nonnegative (d : db) : Prop :=
  Forall (fun m => 0 <= m_home_score m /\ 0 <= m_away_score m) (matches d).

(** Sums over the rows of a standings table. *)
Definition total (f : standing -> Z) (rows : list standing) : Z :=
  fold_right (fun r acc => f r + acc) 0 rows.

(** ** Auxiliary notions for the further properties *)

(** The test that opens the goal branch of the event handler. *)
Definition is_goal_type (req : event_req) : bool :=
  String.eqb (type req) "GOAL" || String.eqb (type req) "OWN_GOAL".

(** Every row sits under the key of its own team id. *)
Definition keyed (t : Map) : Prop :=
  Forall (fun e => s_team_id (snd e) = fst e) t.

(** A row as the table is initialised. *)
Definition zero_counters (r : standing) : Prop :=
  r = mkStanding (s_team_id r) (s_team r) 0 0 0 0 0 0 0 0.

(** The test of the loop's [continue] guard, on the registration query. *)
Definition registered (d : db) (cid k : Z) : bool :=
  existsb (fun t => t_id t =? k) (registered_teams d cid).

Definition counted (d : db) (cid : Z) (m : match_row) : bool :=
  registered d cid (m_home_team_id m) && registered d cid (m_away_team_id m).

(** How many entries of a table carry key [k]. *)
Definition key_count (k : Z) (t : Map) : Z :=
  fold_right (fun e acc => Z.b2z (fst e =? k) + acc) 0 t.

(** +1 for a home win, -1 for an away win, 0 for a draw. *)
Definition result_sign (m : match_row) : Z :=
  if m_away_score m <? m_home_score m then 1
  else if m_home_score m <? m_away_score m then -1 else 0.

(** What the standings handler works with on an engine that prepares the
    matches query: the rows the query yields, the table when the loop has
    ended, and the rows that are answered. *)
Definition finished_rows (d : db) (cid : Z) : list match_row :=
  select_matches "FINISHED" d cid.

Definition loop_table (d : db) (cid : Z) : Map :=
  standings_table (registered_teams d cid) (finished_rows d cid).

Definition ranked_rows (lc : string -> string -> Z) (d : db) (cid : Z)
  : list standing :=
  sort (compareRows lc) (Map_values (loop_table d cid)).

(** Team 1 of the seed with a squad of sixteen, enough for the National
    League. *)
Definition full_squad_db : db :=
  mkDb [mkTeam 1 "Falcon FC"]
       (map (fun n => seed_player (Z.of_nat n) 1 "Player" "MF" 20 "HU")
            (seq 1 16))
       [mkCompetition 1 "National League"; mkCompetition 2 "U23 Cup"]
       [] [] [] 0 0.

(** * Proofs *)

(** ** Lookups after an UPDATE that keeps the ids *)

Lemma find_map_keeps_key {A} (key : A -> Z) (f : A -> A) (k : Z) (l : list A) :
  (forall x, key (f x) = key x) ->
  find (fun x => key x =? k) (map f l)
  = option_map f (find (fun x => key x =? k) l).
Proof.
  intros Hkey. induction l as [|x l IH]; simpl; [reflexivity|].
  rewrite Hkey. destruct (key x =? k); [reflexivity | exact IH].
Qed.

Lemma add_scores_id hi ai id m : m_id (add_scores hi ai id m) = m_id m.
Proof. unfold add_scores. destruct (m_id m =? id); reflexivity. Qed.

Lemma set_status_id s id m : m_id (set_status s id m) = m_id m.
Proof. unfold set_status. destruct (m_id m =? id); reflexivity. Qed.

Lemma inc_goals_id id p : p_id (inc_goals id p) = p_id p.
Proof. unfold inc_goals. destruct (p_id p =? id); reflexivity. Qed.

Lemma inc_yellow_cards_id id p : p_id (inc_yellow_cards id p) = p_id p.
Proof. unfold inc_yellow_cards. destruct (p_id p =? id); reflexivity. Qed.

Lemma inc_red_cards_id id p : p_id (inc_red_cards id p) = p_id p.
Proof. unfold inc_red_cards. destruct (p_id p =? id); reflexivity. Qed.

Lemma add_scores_zero id m : add_scores 0 0 id m = m.
Proof.
  unfold add_scores. destruct (m_id m =? id); [|reflexivity].
  destruct m; simpl. now rewrite !Z.add_0_r.
Qed.

Lemma find_some_key {A} (key : A -> Z) (k : Z) (l : list A) (x : A) :
  find (fun y => key y =? k) l = Some x -> In x l /\ key x = k.
Proof.
  intros H. apply find_some in H. destruct H as [Hin Hk].
  split; [exact Hin | now apply Z.eqb_eq].
Qed.

(** ** The INSERT of the event handler *)

Lemma insert_match_event_inr d id req d1 rowid :
  insert_match_event d id req = inr (d1, rowid) ->
  (0 <= minute req <= 130) /\
  includes event_types (type req) = true /\
  is_some (get_match d id) = true /\
  fk_ok (get_player d) (player_id req) = true /\
  fk_ok (get_team d) (team_id req) = true /\
  rowid = seq_match_events d + 1 /\
  d1 = mkDb (teams d) (players d) (competitions d) (registrations d)
            (matches d) (match_events d ++ [event_row d id req])
            (seq_matches d) (seq_match_events d + 1).
Proof.
  unfold insert_match_event, event_row.
  destruct ((0 <=? minute req) && (minute req <=? 130)) eqn:Hmin;
    cbn [negb]; [|discriminate].
  destruct (includes event_types (type req)) eqn:Hty;
    cbn [negb]; [|discriminate].
  destruct (is_some (get_match d id)) eqn:Hm;
    cbn [negb andb]; [|discriminate].
  destruct (fk_ok (get_player d) (player_id req)) eqn:Hp;
    cbn [negb andb]; [|discriminate].
  destruct (fk_ok (get_team d) (team_id req)) eqn:Ht;
    cbn [negb andb]; [|discriminate].
  intros H. injection H as <- <-.
  apply andb_true_iff in Hmin. destruct Hmin as [H0 H130].
  repeat split; try reflexivity; lia.
Qed.

(** The row read back after a successful insert is the row that was there
    before it: the [TypeError] branch of the goal update is never taken. *)
Lemma get_match_after_insert d id req d1 rowid :
  insert_match_event d id req = inr (d1, rowid) ->
  exists m, get_match d id = Some m /\ get_match d1 id = Some m.
Proof.
  intros H. apply insert_match_event_inr in H.
  destruct H as (_ & _ & Hm & _ & _ & _ & ->).
  unfold get_match in *; simpl.
  destruct (find _ (matches d)) as [m|]; [|discriminate].
  now exists m.
Qed.

Lemma insert_match_event_inl d id req e :
  insert_match_event d id req = inl e ->
  e = SQLITE_CONSTRAINT_CHECK \/ e = SQLITE_CONSTRAINT_FOREIGNKEY.
Proof.
  unfold insert_match_event.
  repeat match goal with |- context [if ?c then _ else _] => destruct c end;
    intros H; try discriminate; injection H as <-; auto.
Qed.

(** With foreign keys enforced the handler never dereferences an absent
    match. *)
Lemma applyEvent_never_TypeError d id req :
  snd (applyEvent d id req) <> Thrown TypeError.
Proof.
  unfold applyEvent.
  destruct (negb (includes event_types (type req))); [discriminate|].
  destruct (insert_match_event d id req) as [e | [d1 rowid]] eqn:Hins.
  - apply insert_match_event_inl in Hins. cbn [snd].
    destruct Hins as [-> | ->]; discriminate.
  - destruct (get_match_after_insert _ _ _ _ _ Hins) as (m & _ & Hm).
    rewrite Hm. unfold score_goal.
    destruct (String.eqb (type req) "GOAL" || String.eqb (type req) "OWN_GOAL");
      discriminate.
Qed.

Lemma card_updates_other d req :
  String.eqb (type req) "YELLOW" = false ->
  String.eqb (type req) "RED" = false ->
  card_updates d req = d.
Proof.
  intros Hy Hr. unfold card_updates, update_player_if. rewrite Hy, Hr.
  destruct (player_id req); reflexivity.
Qed.

(** The store after an applied GOAL or OWN_GOAL event. *)
Lemma applyEvent_goal_state d id req d' eid :
  type req = "GOAL" \/ type req = "OWN_GOAL" ->
  applyEvent d id req = (d', Ok eid) ->
  exists m,
    get_match d id = Some m /\
    fk_ok (get_player d) (player_id req) = true /\
    eid = seq_match_events d + 1 /\
    match_events d' = (match_events d ++ [event_row d id req])%list /\
    matches d'
    = map (add_scores
             (scoreInc (team_id req) (m_home_team_id m)
                       (String.eqb (type req) "OWN_GOAL"))
             (scoreInc (team_id req) (m_away_team_id m)
                       (String.eqb (type req) "OWN_GOAL")) id)
          (matches d) /\
    players d'
    = match player_id req with
      | Some pid =>
          if String.eqb (type req) "GOAL" && truthy (player_id req)
          then map (inc_goals pid) (players d) else players d
      | None => players d
      end.
Proof.
  intros Hty. unfold applyEvent.
  assert (Hinc : includes event_types (type req) = true)
    by (destruct Hty as [-> | ->]; reflexivity).
  assert (Hgo : String.eqb (type req) "GOAL" || String.eqb (type req) "OWN_GOAL"
                = true) by (destruct Hty as [-> | ->]; reflexivity).
  assert (Hy : String.eqb (type req) "YELLOW" = false)
    by (destruct Hty as [-> | ->]; reflexivity).
  assert (Hr : String.eqb (type req) "RED" = false)
    by (destruct Hty as [-> | ->]; reflexivity).
  rewrite Hinc; simpl.
  destruct (insert_match_event d id req) as [e | [d1 rowid]] eqn:Hins;
    [discriminate|].
  rewrite Hgo.
  destruct (get_match_after_insert _ _ _ _ _ Hins) as (m & Hm & Hm1).
  rewrite Hm1; simpl.
  rewrite card_updates_other by assumption.
  intros H. injection H as <- <-.
  apply insert_match_event_inr in Hins.
  destruct Hins as (_ & _ & _ & Hp & _ & -> & ->).
  exists m. unfold update_player_if.
  destruct (player_id req) as [pid|]; simpl;
    [destruct (String.eqb (type req) "GOAL" && negb (pid =? 0)); simpl|];
    repeat split; auto.
Qed.

Lemma includes_In l s : includes l s = true <-> In s l.
Proof.
  unfold includes. rewrite existsb_exists. split.
  - intros (x & Hin & Heq). apply String.eqb_eq in Heq. now subst.
  - intros Hin. exists s. split; [exact Hin | apply String.eqb_refl].
Qed.

Lemma scoreInc_xor team_id side isOwn :
  scoreInc team_id side isOwn
  = if xorb (strict_eq team_id side) isOwn then 1 else 0.
Proof.
  unfold scoreInc. destruct (strict_eq team_id side), isOwn; reflexivity.
Qed.

Lemma strict_eq_false x n : x <> Some n -> strict_eq x n = false.
Proof.
  destruct x as [v|]; simpl; [|reflexivity].
  intros H. apply Z.eqb_neq. intros ->. now apply H.
Qed.

Lemma fk_ok_player d pid :
  fk_ok (get_player d) (Some pid) = true ->
  exists p, get_player d pid = Some p /\ In p (players d) /\ p_id p = pid.
Proof.
  simpl. destruct (get_player d pid) as [p|] eqn:Hp; [|discriminate].
  intros _. exists p. split; [reflexivity|].
  now apply find_some_key in Hp.
Qed.

Lemma get_player_inc_goals d pid p :
  get_player d pid = Some p ->
  find (fun q => p_id q =? pid) (map (inc_goals pid) (players d))
  = Some (inc_goals pid p)
  /\ p_goals (inc_goals pid p) = p_goals p + 1.
Proof.
  intros Hp. split.
  - rewrite (find_map_keeps_key p_id) by apply inc_goals_id.
    unfold get_player in Hp. now rewrite Hp.
  - apply find_some_key in Hp. destruct Hp as [_ Hid].
    unfold inc_goals. rewrite Hid, Z.eqb_refl. reflexivity.
Qed.

Lemma get_player_inc_goals_other d pid q :
  q <> pid ->
  find (fun p => p_id p =? q) (map (inc_goals pid) (players d))
  = get_player d q.
Proof.
  intros Hq. unfold get_player.
  induction (players d) as [|p ps IH]; simpl; [reflexivity|].
  rewrite inc_goals_id.
  destruct (p_id p =? q) eqn:Hpq; [|exact IH].
  unfold inc_goals. apply Z.eqb_eq in Hpq.
  destruct (p_id p =? pid) eqn:Hpp; [|reflexivity].
  apply Z.eqb_eq in Hpp. congruence.
Qed.

(** ** Scores *)

(** C1.  An applied GOAL or OWN_GOAL event whose team_id is the match's home
    or away team changes the scores by the XOR rule: the home increment is 1
    exactly when (team_id is the home team) XOR (type is OWN_GOAL), the away
    increment is 1 exactly when (team_id is the away team) XOR (type is
    OWN_GOAL).  With the two sides distinct, a GOAL of the home team raises
    home_score by exactly 1 and leaves away_score alone, and an OWN_GOAL of
    the home team raises away_score by exactly 1. *)
Theorem goal_event_scores_follow_xor_rule :
  forall d id req d' eid m t,
    applyEvent d id req = (d', Ok eid) ->
    type req = "GOAL" \/ type req = "OWN_GOAL" ->
    get_match d id = Some m ->
    team_id req = Some t ->
    t = m_home_team_id m \/ t = m_away_team_id m ->
    sides_differ d ->
    exists m',
      get_match d' id = Some m' /\
      m_home_score m'
      = m_home_score m
        + (if xorb (t =? m_home_team_id m) (String.eqb (type req) "OWN_GOAL")
           then 1 else 0) /\
      m_away_score m'
      = m_away_score m
        + (if xorb (t =? m_away_team_id m) (String.eqb (type req) "OWN_GOAL")
           then 1 else 0) /\
      (type req = "GOAL" -> t = m_home_team_id m ->
       m_home_score m' = m_home_score m + 1 /\
       m_away_score m' = m_away_score m) /\
      (type req = "OWN_GOAL" -> t = m_home_team_id m ->
       m_home_score m' = m_home_score m /\
       m_away_score m' = m_away_score m + 1).
Proof.
  intros d id req d' eid m t Happ Hty Hm Ht Hside Hdiff.
  destruct (applyEvent_goal_state _ _ _ _ _ Hty Happ)
    as (m0 & Hm0 & _ & _ & _ & Hms & _).
  rewrite Hm in Hm0. injection Hm0 as <-.
  pose proof (find_some_key m_id id _ _ Hm) as [Hin Hid].
  assert (Hne : m_home_team_id m <> m_away_team_id m).
  { unfold sides_differ in Hdiff. rewrite Forall_forall in Hdiff.
    now apply Hdiff. }
  unfold get_match. rewrite Hms.
  rewrite (find_map_keeps_key m_id) by apply add_scores_id.
  unfold get_match in Hm. rewrite Hm. simpl.
  eexists. split; [reflexivity|].
  unfold add_scores. rewrite Hid, Z.eqb_refl. simpl.
  rewrite !scoreInc_xor, Ht. simpl.
  repeat split; try reflexivity.
  all: match goal with
       | Hg : type _ = _, He : _ = m_home_team_id _ |- _ => rewrite Hg, He
       end; simpl; rewrite ?Z.eqb_refl; simpl; try lia.
  all: destruct (m_home_team_id m =? m_away_team_id m) eqn:E;
    [apply Z.eqb_eq in E; contradiction | simpl; lia].
Qed.

(** A GOAL event whose team_id is neither side of
    the match (or is null) leaves every match row as it was, and the event is
    appended to the log. *)
Lemma goal_of_other_team_keeps_scores :
  forall d id req d' eid m,
    applyEvent d id req = (d', Ok eid) ->
    type req = "GOAL" ->
    get_match d id = Some m ->
    team_id req <> Some (m_home_team_id m) ->
    team_id req <> Some (m_away_team_id m) ->
    matches d' = matches d /\
    match_events d' = (match_events d ++ [event_row d id req])%list.
Proof.
  intros d id req d' eid m Happ Hty Hm Hh Ha.
  destruct (applyEvent_goal_state _ _ _ _ _ (or_introl Hty) Happ)
    as (m0 & Hm0 & _ & _ & Hev & Hms & _).
  rewrite Hm in Hm0. injection Hm0 as <-.
  split; [|exact Hev].
  rewrite Hms, !scoreInc_xor, !strict_eq_false, Hty by assumption. simpl.
  rewrite <- (map_id (matches d)) at 2.
  apply map_ext. apply add_scores_zero.
Qed.

(** An OWN_GOAL event whose team_id is
    neither side of the match (or is null) raises both scores by 1. *)
Lemma own_goal_of_other_team_raises_both_scores :
  forall d id req d' eid m,
    applyEvent d id req = (d', Ok eid) ->
    type req = "OWN_GOAL" ->
    get_match d id = Some m ->
    team_id req <> Some (m_home_team_id m) ->
    team_id req <> Some (m_away_team_id m) ->
    exists m',
      get_match d' id = Some m' /\
      m_home_score m' = m_home_score m + 1 /\
      m_away_score m' = m_away_score m + 1.
Proof.
  intros d id req d' eid m Happ Hty Hm Hh Ha.
  destruct (applyEvent_goal_state _ _ _ _ _ (or_intror Hty) Happ)
    as (m0 & Hm0 & _ & _ & _ & Hms & _).
  rewrite Hm in Hm0. injection Hm0 as <-.
  pose proof (find_some_key m_id id _ _ Hm) as [_ Hid].
  unfold get_match. rewrite Hms.
  rewrite (find_map_keeps_key m_id) by apply add_scores_id.
  unfold get_match in Hm. rewrite Hm. simpl.
  eexists. split; [reflexivity|].
  unfold add_scores. rewrite Hid, Z.eqb_refl. simpl.
  rewrite !scoreInc_xor, !strict_eq_false, Hty by assumption.
  split; reflexivity.
Qed.

(** C2.  On the seeded store, the event {minute: 10, type: 'OWN_GOAL'} posted
    to match 1 without a team_id is recorded as event 1 and moves the score of
    the match from 0-0 to 1-1. *)
Theorem own_goal_without_team_scores_for_both_sides :
  option_map (fun m => (m_home_score m, m_away_score m)) (get_match seed_db 1)
  = Some (0, 0) /\
  snd (applyEvent seed_db 1 own_goal_without_team) = Ok 1 /\
  option_map (fun m => (m_home_score m, m_away_score m))
             (get_match (fst (applyEvent seed_db 1 own_goal_without_team)) 1)
  = Some (1, 1) /\
  List.length (match_events (fst (applyEvent seed_db 1 own_goal_without_team)))
  = 1%nat.
Proof. vm_compute. repeat split; reflexivity. Qed.

(** ** Player goals *)

Lemma positive_id_truthy d pid :
  player_ids_positive d ->
  fk_ok (get_player d) (Some pid) = true ->
  truthy (Some pid) = true.
Proof.
  intros Hpos Hfk. destruct (fk_ok_player _ _ Hfk) as (p & _ & Hin & Hid).
  unfold player_ids_positive in Hpos. rewrite Forall_forall in Hpos.
  specialize (Hpos p Hin). simpl.
  apply negb_true_iff, Z.eqb_neq. lia.
Qed.

(** The players table after an applied GOAL event that names a player. *)
Lemma applyEvent_goal_players d id req d' eid pid :
  applyEvent d id req = (d', Ok eid) ->
  type req = "GOAL" ->
  player_id req = Some pid ->
  player_ids_positive d ->
  players d' = map (inc_goals pid) (players d) /\
  exists p, get_player d pid = Some p.
Proof.
  intros Happ Hty Hpid Hpos.
  destruct (applyEvent_goal_state _ _ _ _ _ (or_introl Hty) Happ)
    as (m & _ & Hfk & _ & _ & _ & Hps).
  rewrite Hpid in Hfk, Hps.
  rewrite (positive_id_truthy _ _ Hpos Hfk), Hty in Hps. simpl in Hps.
  split; [exact Hps|].
  destruct (fk_ok_player _ _ Hfk) as (p & Hp & _). now exists p.
Qed.

(** C5.  Of an applied event: a GOAL event that carries a player id raises
    that player's goals by exactly 1 (and no other player's row changes at
    that id), and an OWN_GOAL event leaves the players table as it was,
    whatever its player and team references. *)
Theorem goal_counts_for_player_own_goal_does_not :
  forall d id req d' eid,
    applyEvent d id req = (d', Ok eid) ->
    player_ids_positive d ->
    (type req = "GOAL" ->
     forall pid, player_id req = Some pid ->
       (exists p p',
          get_player d pid = Some p /\ get_player d' pid = Some p' /\
          p_goals p' = p_goals p + 1) /\
       (forall q, q <> pid -> get_player d' q = get_player d q)) /\
    (type req = "OWN_GOAL" -> players d' = players d).
Proof.
  intros d id req d' eid Happ Hpos. split.
  - intros Hty pid Hpid.
    destruct (applyEvent_goal_players _ _ _ _ _ _ Happ Hty Hpid Hpos)
      as (Hps & p & Hp).
    destruct (get_player_inc_goals _ _ _ Hp) as (Hget & Hgoals).
    split.
    + exists p, (inc_goals pid p). unfold get_player at 2. now rewrite Hps.
    + intros q Hq. unfold get_player at 1. rewrite Hps.
      now apply get_player_inc_goals_other.
  - intros Hty.
    destruct (applyEvent_goal_state _ _ _ _ _ (or_intror Hty) Happ)
      as (m & _ & _ & _ & _ & _ & Hps).
    rewrite Hty in Hps. simpl in Hps. now destruct (player_id req).
Qed.

(** C9.  An applied GOAL event that carries a player id raises that player's
    goals by 1 even when its team_id is neither side of the match or is null;
    the match rows, and so both scores, stay as they were. *)
Theorem goal_of_other_team_still_counts_for_player :
  forall d id req d' eid m pid,
    applyEvent d id req = (d', Ok eid) ->
    type req = "GOAL" ->
    player_id req = Some pid ->
    player_ids_positive d ->
    get_match d id = Some m ->
    team_id req <> Some (m_home_team_id m) ->
    team_id req <> Some (m_away_team_id m) ->
    (exists p p',
       get_player d pid = Some p /\ get_player d' pid = Some p' /\
       p_goals p' = p_goals p + 1) /\
    get_match d' id = Some m /\
    matches d' = matches d.
Proof.
  intros d id req d' eid m pid Happ Hty Hpid Hpos Hm Hh Ha.
  destruct (applyEvent_goal_players _ _ _ _ _ _ Happ Hty Hpid Hpos)
    as (Hps & p & Hp).
  destruct (get_player_inc_goals _ _ _ Hp) as (Hget & Hgoals).
  destruct (goal_of_other_team_keeps_scores _ _ _ _ _ _ Happ Hty Hm Hh Ha)
    as (Hms & _).
  split; [|split; [|exact Hms]].
  - exists p, (inc_goals pid p). unfold get_player at 2. now rewrite Hps.
  - unfold get_match in *. now rewrite Hms.
Qed.

(** ** Rejected events *)

(** C8, what the handler does with an invalid event.  An event whose type is
    not one of the six recognised values is answered 400 'Bad event type'.
    An event of a recognised type whose minute is outside 0..130 is not
    answered by the handler at all: nothing checks the minute before the
    INSERT, the INSERT fails the CHECK constraint of [match_events], and the
    handler has no [try] around it (the other INSERT routes have one and
    answer 400), so the exception leaves the handler and express answers 500.
    Either way the store is left exactly as it was: no event row, no change to
    a match or a player. *)
Theorem invalid_event_is_rejected_without_effect :
  forall d id req,
    ~ In (type req) event_types \/ minute req < 0 \/ 130 < minute req ->
    fst (applyEvent d id req) = d /\
    (~ In (type req) event_types ->
     snd (applyEvent d id req) = BadRequest "Bad event type") /\
    (In (type req) event_types ->
     snd (applyEvent d id req) = Thrown SQLITE_CONSTRAINT_CHECK).
Proof.
  intros d id req Hbad. unfold applyEvent.
  destruct (includes event_types (type req)) eqn:Hinc; cbn [negb].
  - apply includes_In in Hinc.
    destruct Hbad as [Hty | Hmin]; [contradiction|].
    unfold insert_match_event.
    assert (Hrange : (0 <=? minute req) && (minute req <=? 130) = false).
    { apply andb_false_iff.
      destruct Hmin; [left | right]; apply Z.leb_gt; lia. }
    rewrite Hrange. cbn [negb fst snd].
    split; [reflexivity|].
    split; [intros Hn; contradiction | intros _; reflexivity].
  - cbn [fst snd]. split; [reflexivity|].
    split; [intros _; reflexivity|].
    intros Hin. apply includes_In in Hin. congruence.
Qed.

(** ** What an event can do to the players and the matches *)

Lemma player_step_refl p : player_step p p.
Proof. unfold player_step, counters_le. repeat split; lia. Qed.

Lemma match_step_refl m : match_step m m.
Proof. unfold match_step. repeat split. Qed.

Lemma evolves_same d d' :
  matches d' = matches d -> players d' = players d -> evolves d d'.
Proof.
  intros Hm Hp. split.
  - exists (fun m => m). rewrite map_id.
    split; [exact Hm | apply match_step_refl].
  - exists (fun p => p). rewrite map_id.
    split; [exact Hp | apply player_step_refl].
Qed.

Lemma evolves_trans d1 d2 d3 : evolves d1 d2 -> evolves d2 d3 -> evolves d1 d3.
Proof.
  intros [(fm & Hm & Hfm) (fp & Hp & Hfp)] [(gm & Hm' & Hgm) (gp & Hp' & Hgp)].
  split.
  - exists (fun m => gm (fm m)). split.
    + now rewrite Hm', Hm, map_map.
    + intros m. specialize (Hfm m). specialize (Hgm (fm m)).
      unfold match_step in *. intuition congruence.
  - exists (fun p => gp (fp p)). split.
    + now rewrite Hp', Hp, map_map.
    + intros p. specialize (Hfp p). specialize (Hgp (fp p)).
      unfold player_step, counters_le in *.
      repeat split; try lia; intuition congruence.
Qed.

Lemma inc_goals_step id p : player_step p (inc_goals id p).
Proof.
  unfold inc_goals. destruct (p_id p =? id); [|apply player_step_refl].
  unfold player_step, counters_le; simpl. repeat split; lia.
Qed.

Lemma inc_yellow_cards_step id p : player_step p (inc_yellow_cards id p).
Proof.
  unfold inc_yellow_cards. destruct (p_id p =? id); [|apply player_step_refl].
  unfold player_step, counters_le; simpl. repeat split; lia.
Qed.

Lemma inc_red_cards_step id p : player_step p (inc_red_cards id p).
Proof.
  unfold inc_red_cards. destruct (p_id p =? id); [|apply player_step_refl].
  unfold player_step, counters_le; simpl. repeat split; lia.
Qed.

Lemma add_scores_step hi ai id m : match_step m (add_scores hi ai id m).
Proof.
  unfold add_scores. destruct (m_id m =? id); [|apply match_step_refl].
  unfold match_step; simpl. repeat split.
Qed.

Lemma update_player_if_evolves cond pid f d :
  (forall id p, player_step p (f id p)) ->
  evolves d (update_player_if cond pid f d).
Proof.
  intros Hf. unfold update_player_if.
  destruct pid as [id|]; [|now apply evolves_same].
  destruct (cond && truthy (Some id)); [|now apply evolves_same].
  split.
  - exists (fun m => m). rewrite map_id.
    split; [reflexivity | apply match_step_refl].
  - exists (f id). split; [reflexivity | apply Hf].
Qed.

Lemma card_updates_evolves d req : evolves d (card_updates d req).
Proof.
  unfold card_updates.
  eapply evolves_trans; apply update_player_if_evolves;
    [apply inc_yellow_cards_step | apply inc_red_cards_step].
Qed.

Lemma score_goal_evolves d id req mt d' :
  score_goal d id req mt = inr d' -> evolves d d'.
Proof.
  unfold score_goal. destruct mt as [m|]; [|discriminate].
  intros H. injection H as <-.
  eapply evolves_trans; [|apply update_player_if_evolves, inc_goals_step].
  split.
  - eexists. split; [reflexivity | apply add_scores_step].
  - exists (fun p => p). rewrite map_id.
    split; [reflexivity | apply player_step_refl].
Qed.

Lemma insert_match_event_evolves d id req d1 rowid :
  insert_match_event d id req = inr (d1, rowid) -> evolves d d1.
Proof.
  intros H. apply insert_match_event_inr in H.
  destruct H as (_ & _ & _ & _ & _ & _ & ->). now apply evolves_same.
Qed.

(** Whatever the request and whatever the answer, the handler only updates
    rows in place. *)
Lemma applyEvent_evolves d id req : evolves d (fst (applyEvent d id req)).
Proof.
  unfold applyEvent.
  destruct (negb (includes event_types (type req)));
    [now apply evolves_same|].
  destruct (insert_match_event d id req) as [e | [d1 rowid]] eqn:Hins;
    [now apply evolves_same|].
  apply insert_match_event_evolves in Hins.
  destruct (String.eqb (type req) "GOAL" || String.eqb (type req) "OWN_GOAL").
  - destruct (score_goal d1 id req (get_match d1 id)) as [e | d2] eqn:Hgoal;
      cbn [fst]; [exact Hins|].
    apply score_goal_evolves in Hgoal.
    eapply evolves_trans; [exact Hins|].
    eapply evolves_trans; [exact Hgoal | apply card_updates_evolves].
  - cbn [fst]. eapply evolves_trans; [exact Hins | apply card_updates_evolves].
Qed.

Lemma evolves_get_player d d' pid p :
  evolves d d' -> get_player d pid = Some p ->
  exists p', get_player d' pid = Some p' /\ player_step p p'.
Proof.
  intros [_ (fp & Hp & Hfp)] Hget. exists (fp p). split; [|apply Hfp].
  unfold get_player in *. rewrite Hp.
  rewrite (find_map_keeps_key p_id) by (intros x; apply Hfp).
  now rewrite Hget.
Qed.

Lemma evolves_invariants d d' :
  evolves d d' ->
  player_ids_positive d /\ sides_differ d ->
  player_ids_positive d' /\ sides_differ d'.
Proof.
  intros [(fm & Hm & Hfm) (fp & Hp & Hfp)] [Hpos Hdiff].
  unfold player_ids_positive, sides_differ in *.
  rewrite Hm, Hp, !Forall_map. split.
  - eapply Forall_impl; [|exact Hpos]. intros p Hpid.
    destruct (Hfp p) as (-> & _). exact Hpid.
  - eapply Forall_impl; [|exact Hdiff]. intros m Hne.
    destruct (Hfm m) as (_ & -> & -> & _). exact Hne.
Qed.

(** ** Match status *)

Lemma setMatchStatus_evolves_sides d id status :
  sides_differ d -> sides_differ (fst (setMatchStatus d id status)).
Proof.
  unfold setMatchStatus, sides_differ.
  destruct (negb (includes match_statuses status)); cbn [fst]; [easy|].
  simpl. rewrite Forall_map. apply Forall_impl. intros m Hne.
  unfold set_status. destruct (m_id m =? id); exact Hne.
Qed.

(** C6, as the code has it.  The status update checks the requested value
    only.  For a match that exists, any of SCHEDULED, IN_PLAY and FINISHED is
    stored whatever the current status is, and every other column of the row
    (id, competition, the two teams, date, venue, referee and the two scores)
    is kept.  Any other value is answered 400 'Bad status' with the store
    untouched, whether the match exists or not. *)
Theorem status_update_stores_any_listed_status :
  forall d id status,
    (In status match_statuses ->
     forall m,
       get_match d id = Some m ->
       get_match (fst (setMatchStatus d id status)) id
       = Some (mkMatch (m_id m) (m_competition_id m)
                       (m_home_team_id m) (m_away_team_id m)
                       (m_date_time m) (m_venue m) (m_referee m) status
                       (m_home_score m) (m_away_score m))) /\
    (~ In status match_statuses ->
     setMatchStatus d id status = (d, BadRequest "Bad status")).
Proof.
  intros d id status. unfold setMatchStatus. split.
  - intros Hin m Hm. apply includes_In in Hin. rewrite Hin. cbn [negb fst].
    unfold get_match in *. simpl.
    rewrite (find_map_keeps_key m_id) by apply set_status_id.
    rewrite Hm. simpl.
    apply find_some_key in Hm. destruct Hm as [_ Hid].
    unfold set_status. now rewrite Hid, Z.eqb_refl.
  - intros Hn. destruct (includes match_statuses status) eqn:Hinc;
      [apply includes_In in Hinc; contradiction | reflexivity].
Qed.

(** ** Player updates *)

Lemma apply_patch_id body p : p_id (apply_patch body p) = p_id p.
Proof. reflexivity. Qed.

Lemma updatePlayer_matches d id body :
  matches (fst (updatePlayer d id body)) = matches d.
Proof.
  unfold updatePlayer.
  repeat match goal with |- context [if ?c then _ else _] => destruct c end;
    reflexivity.
Qed.

Lemma updatePlayer_ids_positive d id body :
  player_ids_positive d -> player_ids_positive (fst (updatePlayer d id body)).
Proof.
  unfold updatePlayer, player_ids_positive.
  repeat match goal with |- context [if ?c then _ else _] => destruct c end;
    cbn [fst]; try easy.
  simpl. rewrite Forall_map. apply Forall_impl. intros p Hp.
  destruct (p_id p =? id); [rewrite apply_patch_id|]; exact Hp.
Qed.

Lemma absent_field_keeps {A} (field : option A) (old : A) (n : nat) :
  (present field + n = 0)%nat -> or_keep field old = old.
Proof. destruct field; simpl; [lia | reflexivity]. Qed.

(** A body without an allowed key leaves every counter as it is. *)
Lemma apply_patch_no_fields body p :
  fields_length body = 0%nat ->
  p_appearances (apply_patch body p) = p_appearances p /\
  p_goals (apply_patch body p) = p_goals p /\
  p_assists (apply_patch body p) = p_assists p /\
  p_yellow_cards (apply_patch body p) = p_yellow_cards p /\
  p_red_cards (apply_patch body p) = p_red_cards p.
Proof.
  unfold fields_length. intros H. simpl.
  repeat split; eapply absent_field_keeps with (n := 0%nat); lia.
Qed.

(** ** Reachable stores keep the schema invariants *)

Lemma seed_db_invariants : player_ids_positive seed_db /\ sides_differ seed_db.
Proof.
  split.
  - unfold player_ids_positive. simpl. repeat constructor.
  - unfold sides_differ. simpl. repeat constructor. discriminate.
Qed.

Lemma createMatch_invariants d q :
  player_ids_positive d /\ sides_differ d ->
  player_ids_positive (fst (createMatch d q)) /\
  sides_differ (fst (createMatch d q)).
Proof.
  intros [Hpos Hdiff]. unfold createMatch.
  destruct (MatchSchema q) eqn:Hschema; cbn [negb fst]; [|easy].
  repeat match goal with |- context [if ?c then _ else _] => destruct c end;
    cbn [fst]; try easy.
  split; [exact Hpos|].
  unfold sides_differ in *. simpl. apply Forall_app. split; [exact Hdiff|].
  constructor; [|constructor]. simpl.
  unfold MatchSchema in Hschema.
  apply andb_true_iff in Hschema. destruct Hschema as [_ Hne].
  apply negb_true_iff, Z.eqb_neq in Hne. exact Hne.
Qed.

Lemma reachable_invariants d :
  reachable d -> player_ids_positive d /\ sides_differ d.
Proof.
  induction 1
    as [| d q _ IH | d id status _ IH | d id req _ IH | d id body _ IH].
  - apply seed_db_invariants.
  - now apply createMatch_invariants.
  - destruct IH as [Hpos Hdiff]. split.
    + unfold setMatchStatus, player_ids_positive.
      destruct (negb (includes match_statuses status)); exact Hpos.
    + now apply setMatchStatus_evolves_sides.
  - eapply evolves_invariants; [apply applyEvent_evolves | exact IH].
  - destruct IH as [Hpos Hdiff]. split.
    + now apply updatePlayer_ids_positive.
    + unfold sides_differ. now rewrite updatePlayer_matches.
Qed.

(** ** Counters *)

(** C7, as the code has it.  Applying an event never lowers a counter of any
    player (appearances and assists stay, goals and cards only grow); but the
    counters are not the event handler's alone: an accepted player update
    stores, for each counter named in its body, the value the caller sent. *)
Theorem events_never_lower_counters_player_update_overwrites :
  forall d pid p,
    get_player d pid = Some p ->
    (forall id req,
       exists p',
         get_player (fst (applyEvent d id req)) pid = Some p' /\
         counters_le p p' /\
         p_appearances p' = p_appearances p /\ p_assists p' = p_assists p) /\
    (forall body n,
       snd (updatePlayer d pid body) = Ok n ->
       exists p',
         get_player (fst (updatePlayer d pid body)) pid = Some p' /\
         p_appearances p' = or_keep (u_appearances body) (p_appearances p) /\
         p_goals p' = or_keep (u_goals body) (p_goals p) /\
         p_assists p' = or_keep (u_assists body) (p_assists p) /\
         p_yellow_cards p' = or_keep (u_yellow_cards body) (p_yellow_cards p) /\
         p_red_cards p' = or_keep (u_red_cards body) (p_red_cards p)).
Proof.
  intros d pid p Hp. split.
  - intros id req.
    destruct (evolves_get_player _ _ _ _ (applyEvent_evolves d id req) Hp)
      as (p' & Hp' & _ & Hle & Happ & Hass).
    now exists p'.
  - intros body n. unfold updatePlayer.
    destruct (Nat.eqb (fields_length body) 0) eqn:Hlen.
    + intros _. cbn [fst]. exists p. split; [exact Hp|].
      apply Nat.eqb_eq in Hlen.
      pose proof (apply_patch_no_fields body p Hlen) as H.
      simpl in H. intuition congruence.
    + repeat match goal with |- context [if ?c then _ else _] => destruct c end;
        cbn [fst snd]; try discriminate.
      intros _. unfold get_player in *. simpl.
      rewrite (find_map_keeps_key p_id)
        by (intros x; destruct (p_id x =? pid); reflexivity).
      rewrite Hp. simpl. eexists. split; [reflexivity|].
      apply find_some_key in Hp. destruct Hp as [_ Hid].
      rewrite Hid, Z.eqb_refl. simpl. repeat split.
Qed.

Lemma events_never_lower_counters_player_update_overwrites_witness :
  get_player seed_db 3 = Some (seed_player 3 1 "Milan Popov" "FW" 26 "RS") /\
  (exists p',
     get_player (fst (applyEvent seed_db 1 (goal_by 3 1))) 3 = Some p' /\
     counters_le (seed_player 3 1 "Milan Popov" "FW" 26 "RS") p') /\
  (exists p',
     get_player (fst (updatePlayer seed_db 3 reset_goals)) 3 = Some p' /\
     p_goals p' = 0).
Proof.
  pose proof (events_never_lower_counters_player_update_overwrites
                seed_db 3 (seed_player 3 1 "Milan Popov" "FW" 26 "RS")
                eq_refl) as [Hev Hup].
  split; [reflexivity|]. split.
  - destruct (Hev 1 (goal_by 3 1)) as (p' & Hget & Hle & _).
    exists p'. split; assumption.
  - destruct (Hup reset_goals 1 eq_refl) as (p' & Hget & _ & Hgoals & _).
    exists p'. split; assumption.
Defined.

(** C7, as stated, fails: on the store reached from the seed by a goal of
    player 3, the update {goals: 0} of player 3 takes the goals from 1 back
    to 0. *)
Lemma player_update_lowers_goals : ~ counters_never_decrease.
Proof.
  intros H.
  specialize (H (fst (applyEvent seed_db 1 (goal_by 3 1))) 3 reset_goals 3).
  specialize (H _ _ (reach_applyEvent _ 1 (goal_by 3 1) reach_seed)
                eq_refl eq_refl).
  destruct H as (_ & Hgoals & _). vm_compute in Hgoals. now apply Hgoals.
Qed.

(** C6, as stated, fails: match 1 of the seeded store, once set to FINISHED,
    is set back to SCHEDULED by the next status update. *)
Lemma finished_match_returns_to_scheduled : ~ status_forward_only.
Proof.
  intros H.
  specialize (H (fst (setMatchStatus seed_db 1 "FINISHED")) 1 "SCHEDULED").
  specialize (H _ _ (reach_setMatchStatus _ 1 "FINISHED" reach_seed)
                eq_refl eq_refl).
  vm_compute in H. now apply H.
Qed.

Lemma status_update_stores_any_listed_status_witness :
  get_match (fst (setMatchStatus (fst (setMatchStatus seed_db 1 "FINISHED"))
                                 1 "SCHEDULED")) 1
  = Some (mkMatch 1 (Some 1) 1 2 "2025-01-02 12:00:00"
                  (Some "Falcon Arena") (Some "Ref A") "SCHEDULED" 0 0) /\
  setMatchStatus seed_db 1 "ABANDONED" = (seed_db, BadRequest "Bad status").
Proof.
  split.
  - apply (proj1 (status_update_stores_any_listed_status
                    (fst (setMatchStatus seed_db 1 "FINISHED")) 1 "SCHEDULED")
                 (or_introl eq_refl)
                 (mkMatch 1 (Some 1) 1 2 "2025-01-02 12:00:00"
                          (Some "Falcon Arena") (Some "Ref A") "FINISHED" 0 0)).
    vm_compute. reflexivity.
  - apply (proj2 (status_update_stores_any_listed_status
                    seed_db 1 "ABANDONED")).
    cbn. intuition discriminate.
Defined.

(** ** Witnesses on the seeded store *)

Lemma goal_event_scores_follow_xor_rule_witness :
  exists m',
    get_match (fst (applyEvent seed_db 1 (goal_by 3 1))) 1 = Some m' /\
    m_home_score m' = 1 /\ m_away_score m' = 0.
Proof.
  destruct (goal_event_scores_follow_xor_rule
              seed_db 1 (goal_by 3 1) (fst (applyEvent seed_db 1 (goal_by 3 1)))
              1 _ 1 eq_refl (or_introl eq_refl) eq_refl eq_refl
              (or_introl eq_refl) (proj2 seed_db_invariants))
    as (m' & Hget & Hhome & Haway & _).
  exists m'. split; [exact Hget|]. split; [exact Hhome | exact Haway].
Defined.

Lemma goal_counts_for_player_own_goal_does_not_witness :
  exists p',
    get_player (fst (applyEvent seed_db 1 (goal_by 3 1))) 3 = Some p' /\
    p_goals p' = 1.
Proof.
  destruct (goal_counts_for_player_own_goal_does_not
              seed_db 1 (goal_by 3 1) (fst (applyEvent seed_db 1 (goal_by 3 1)))
              1 eq_refl (proj1 seed_db_invariants)) as [Hgoal _].
  destruct (Hgoal eq_refl 3 eq_refl) as [(p & p' & Hp & Hp' & Hgoals) _].
  exists p'. split; [exact Hp'|].
  injection Hp as <-. exact Hgoals.
Defined.

(** Player 3 scores in match 1 and the request names no team. *)
Lemma goal_of_other_team_still_counts_for_player_witness :
  exists p',
    get_player
      (fst (applyEvent seed_db 1 (mkEventReq 10 "GOAL" (Some 3) None None))) 3
    = Some p' /\
    p_goals p' = 1 /\
    matches
      (fst (applyEvent seed_db 1 (mkEventReq 10 "GOAL" (Some 3) None None)))
    = matches seed_db.
Proof.
  destruct (goal_of_other_team_still_counts_for_player
              seed_db 1 (mkEventReq 10 "GOAL" (Some 3) None None)
              (fst (applyEvent seed_db 1
                      (mkEventReq 10 "GOAL" (Some 3) None None)))
              1 _ 3 eq_refl eq_refl eq_refl (proj1 seed_db_invariants) eq_refl)
    as ((p & p' & Hp & Hp' & Hgoals) & _ & Hms); try discriminate.
  exists p'. split; [exact Hp'|]. split; [|exact Hms].
  injection Hp as <-. exact Hgoals.
Defined.

Lemma invalid_event_is_rejected_without_effect_witness :
  applyEvent seed_db 1 (mkEventReq 131 "GOAL" (Some 3) (Some 1) None)
  = (seed_db, Thrown SQLITE_CONSTRAINT_CHECK) /\
  applyEvent seed_db 1 (mkEventReq 10 "PENALTY" (Some 3) (Some 1) None)
  = (seed_db, BadRequest "Bad event type").
Proof.
  split.
  - destruct (invalid_event_is_rejected_without_effect
                seed_db 1 (mkEventReq 131 "GOAL" (Some 3) (Some 1) None))
      as (Hfst & _ & Hsnd); [right; right; simpl; lia|].
    rewrite (surjective_pairing (applyEvent _ _ _)), Hfst, Hsnd;
      [reflexivity | simpl; auto].
  - destruct (invalid_event_is_rejected_without_effect
                seed_db 1 (mkEventReq 10 "PENALTY" (Some 3) (Some 1) None))
      as (Hfst & Hsnd & _).
    + left. simpl. intuition discriminate.
    + rewrite (surjective_pairing (applyEvent _ _ _)), Hfst, Hsnd;
        [reflexivity | simpl; intuition discriminate].
Defined.

(** ** The standings table *)

Lemma fst_entry_modify k f e : fst (entry_modify k f e) = fst e.
Proof. unfold entry_modify. destruct (fst e =? k); reflexivity. Qed.

Lemma snd_entry_modify k f e :
  snd (entry_modify k f e) = if fst e =? k then f (snd e) else snd e.
Proof. unfold entry_modify. destruct (fst e =? k); reflexivity. Qed.

Lemma Map_modify_map k f t : Map_modify k f t = map (entry_modify k f) t.
Proof. reflexivity. Qed.

Lemma Map_modify_keys k f t : map fst (Map_modify k f t) = map fst t.
Proof.
  rewrite Map_modify_map, map_map. apply map_ext. apply fst_entry_modify.
Qed.

Lemma Map_get_modify k k' f t :
  Map_get k (Map_modify k' f t)
  = if k =? k' then option_map f (Map_get k t) else Map_get k t.
Proof.
  unfold Map_get. rewrite Map_modify_map.
  rewrite (find_map_keeps_key fst) by apply fst_entry_modify.
  destruct (find (fun e => fst e =? k) t) as [e|] eqn:He; simpl.
  - apply find_some_key in He. destruct He as [_ He].
    rewrite snd_entry_modify, He. destruct (k =? k'); reflexivity.
  - destruct (k =? k'); reflexivity.
Qed.

Lemma Map_get_keys k t :
  In k (map fst t) <-> exists v, Map_get k t = Some v.
Proof.
  unfold Map_get. split.
  - intros Hin. apply in_map_iff in Hin. destruct Hin as (e & He & Hin).
    destruct (find (fun e => fst e =? k) t) as [e'|] eqn:Hfind.
    + now exists (snd e').
    + exfalso. apply (find_none _ _ Hfind) in Hin.
      rewrite He, Z.eqb_refl in Hin. discriminate.
  - intros (v & Hget).
    destruct (find (fun e => fst e =? k) t) as [e|] eqn:Hfind; [|discriminate].
    apply find_some_key in Hfind. destruct Hfind as [Hin <-].
    now apply in_map.
Qed.

Lemma Map_set_keys k v t :
  forall k', In k' (map fst (Map_set k v t)) <-> k' = k \/ In k' (map fst t).
Proof.
  intros k'. induction t as [|[k0 v0] t IH]; simpl.
  - intuition.
  - destruct (k0 =? k) eqn:E; simpl.
    + apply Z.eqb_eq in E. subst. intuition.
    + rewrite IH. intuition.
Qed.

Lemma new_Map_keys entries :
  forall k, In k (map fst (new_Map entries)) <-> In k (map fst entries).
Proof.
  unfold new_Map.
  assert (H : forall t k,
             In k (map fst (fold_left (fun t e => Map_set (fst e) (snd e) t)
                                      entries t))
             <-> In k (map fst t) \/ In k (map fst entries)).
  { induction entries as [|e es IH]; intros t k; simpl.
    - intuition.
    - rewrite IH, Map_set_keys. intuition. }
  intros k. rewrite H. simpl. intuition.
Qed.

Lemma tally_both_keys t m : map fst (tally_both t m) = map fst t.
Proof.
  unfold tally_both.
  repeat match goal with |- context [if ?c then _ else _] => destruct c end;
    now rewrite !Map_modify_keys.
Qed.

Lemma tally_keys t m : map fst (tally t m) = map fst t.
Proof.
  unfold tally.
  destruct (Map_get (m_home_team_id m) t); [|reflexivity].
  destruct (Map_get (m_away_team_id m) t); [|reflexivity].
  apply tally_both_keys.
Qed.

Lemma fold_tally_keys ms t : map fst (fold_left tally ms t) = map fst t.
Proof.
  revert t. induction ms as [|m ms IH]; intros t; simpl; [reflexivity|].
  now rewrite IH, tally_keys.
Qed.

(** The keys of the table are the registered teams' ids, before and during
    the loop. *)
Lemma registered_team_has_row d cid ms k :
  In k (map t_id (registered_teams d cid)) ->
  exists row,
    Map_get k (fold_left tally ms
                 (new_Map (map zero_row (registered_teams d cid)))) = Some row.
Proof.
  intros Hin. apply Map_get_keys. rewrite fold_tally_keys.
  apply new_Map_keys. rewrite map_map. exact Hin.
Qed.

(** One iteration of the loop, for rows [ms1 ++ m :: ms2] of the matches
    query.  When the home and away teams of [m] are both registered (and are
    two teams), the iteration finds both rows and: raises both teams' played
    count by 1; adds the home score to the home team's GF and the away team's
    GA, and the away score to the away team's GF and the home team's GA;
    leaves GD equal to GF - GA in both rows; and gives the home team a win and
    3 points and the away team a loss when the home score is greater, the
    reverse when it is smaller, and a draw and 1 point to each when the scores
    are equal.  Rows of other teams are not touched. *)
Lemma loop_iteration_tallies_both_teams :
  forall d cid ms1 m ms2,
    finished_rows d cid = (ms1 ++ m :: ms2)%list ->
    In (m_home_team_id m) (map t_id (registered_teams d cid)) ->
    In (m_away_team_id m) (map t_id (registered_teams d cid)) ->
    m_home_team_id m <> m_away_team_id m ->
    let before :=
      fold_left tally ms1 (new_Map (map zero_row (registered_teams d cid))) in
    let after := tally before m in
    loop_table d cid = fold_left tally ms2 after /\
    (forall k, k <> m_home_team_id m -> k <> m_away_team_id m ->
               Map_get k after = Map_get k before) /\
    exists home away home' away',
      Map_get (m_home_team_id m) before = Some home /\
      Map_get (m_away_team_id m) before = Some away /\
      Map_get (m_home_team_id m) after = Some home' /\
      Map_get (m_away_team_id m) after = Some away' /\
      P home' = P home + 1 /\ P away' = P away + 1 /\
      GF home' = GF home + m_home_score m /\
      GA home' = GA home + m_away_score m /\
      GF away' = GF away + m_away_score m /\
      GA away' = GA away + m_home_score m /\
      GD home' = GF home' - GA home' /\ GD away' = GF away' - GA away' /\
      (m_home_score m > m_away_score m ->
       W home' = W home + 1 /\ D home' = D home /\ L home' = L home /\
       PTS home' = PTS home + 3 /\
       W away' = W away /\ D away' = D away /\ L away' = L away + 1 /\
       PTS away' = PTS away) /\
      (m_home_score m < m_away_score m ->
       W home' = W home /\ D home' = D home /\ L home' = L home + 1 /\
       PTS home' = PTS home /\
       W away' = W away + 1 /\ D away' = D away /\ L away' = L away /\
       PTS away' = PTS away + 3) /\
      (m_home_score m = m_away_score m ->
       W home' = W home /\ D home' = D home + 1 /\ L home' = L home /\
       PTS home' = PTS home + 1 /\
       W away' = W away /\ D away' = D away + 1 /\ L away' = L away /\
       PTS away' = PTS away + 1).
Proof.
  intros d cid ms1 m ms2 Hfin Hhome Haway Hne before after.
  destruct (registered_team_has_row d cid ms1 _ Hhome) as (home & Hh).
  destruct (registered_team_has_row d cid ms1 _ Haway) as (away & Ha).
  fold before in Hh, Ha.
  assert (Hha : (m_home_team_id m =? m_away_team_id m) = false)
    by now apply Z.eqb_neq.
  assert (Hah : (m_away_team_id m =? m_home_team_id m) = false)
    by (apply Z.eqb_neq; congruence).
  assert (Hafter : after = tally_both before m)
    by (unfold after, tally; now rewrite Hh, Ha).
  split; [|split].
  - unfold loop_table, standings_table. rewrite Hfin, fold_left_app.
    reflexivity.
  - intros k Hk1 Hk2. rewrite Hafter. unfold tally_both.
    apply Z.eqb_neq in Hk1, Hk2.
    repeat match goal with |- context [if ?c then _ else _] => destruct c end;
      rewrite !Map_get_modify, ?Hk1, ?Hk2; reflexivity.
  - exists home, away. rewrite Hafter. unfold tally_both.
    destruct (m_away_score m <? m_home_score m) eqn:Hgt;
      [|destruct (m_home_score m <? m_away_score m) eqn:Hlt];
      rewrite !Map_get_modify, ?Z.eqb_refl, ?Hha, ?Hah, Hh, Ha; simpl;
      do 2 eexists; (split; [reflexivity|]); (split; [reflexivity|]);
      (split; [reflexivity|]); (split; [reflexivity|]); simpl;
      repeat split; try reflexivity; intros; lia.
Qed.

(** ** Row invariants *)

Lemma entry_modify_pair k' f k r :
  entry_modify k' f (k, r) = (k, if k =? k' then f r else r).
Proof. unfold entry_modify. simpl. destruct (k =? k'); reflexivity. Qed.

(** The whole loop body keeps the invariants of every row, also when the
    home and the away reference are one object. *)
Lemma tally_both_consistent t m :
  Forall (fun e => row_consistent (snd e)) t ->
  Forall (fun e => row_consistent (snd e)) (tally_both t m).
Proof.
  intros H. unfold tally_both.
  destruct (m_away_score m <? m_home_score m);
    [|destruct (m_home_score m <? m_away_score m)];
    rewrite !Map_modify_map, !Forall_map;
    (eapply Forall_impl; [|exact H]); clear H;
    intros [k r] Hr; rewrite !entry_modify_pair; destruct r;
    destruct (k =? m_home_team_id m), (k =? m_away_team_id m);
    cbv [row_consistent inc_P inc_W inc_D inc_L add_GF add_GA set_GD add_PTS
         snd P W D L GF GA GD PTS] in *;
    lia.
Qed.

Lemma tally_consistent t m :
  Forall (fun e => row_consistent (snd e)) t ->
  Forall (fun e => row_consistent (snd e)) (tally t m).
Proof.
  intros H. unfold tally.
  destruct (Map_get (m_home_team_id m) t); [|exact H].
  destruct (Map_get (m_away_team_id m) t); [|exact H].
  now apply tally_both_consistent.
Qed.

Lemma Map_set_Forall (Q : Z * standing -> Prop) k v t :
  Q (k, v) -> (forall k' v', Q (k', v') -> k' = k -> Q (k', v)) ->
  Forall Q t -> Forall Q (Map_set k v t).
Proof.
  intros Hq Hkey. induction 1 as [|[k0 v0] t Hx Ht IH]; simpl.
  - now constructor.
  - destruct (k0 =? k) eqn:E.
    + constructor; [|exact Ht]. apply Z.eqb_eq in E. now apply (Hkey k0 v0).
    + now constructor.
Qed.

Lemma new_Map_consistent ts :
  Forall (fun e => row_consistent (snd e)) (new_Map (map zero_row ts)).
Proof.
  unfold new_Map.
  assert (H : forall t,
             Forall (fun e => row_consistent (snd e)) t ->
             Forall (fun e => row_consistent (snd e))
                    (fold_left (fun t e => Map_set (fst e) (snd e) t)
                               (map zero_row ts) t)).
  { induction ts as [|x ts IH]; intros t Ht; simpl; [exact Ht|].
    apply IH. apply Map_set_Forall; simpl; try exact Ht.
    - unfold row_consistent; cbn [snd P W D L GF GA GD PTS]. lia.
    - intros _ _ _ _. unfold row_consistent.
      cbn [snd P W D L GF GA GD PTS]. lia. }
  apply H. constructor.
Qed.

Lemma loop_table_consistent d cid :
  Forall (fun e => row_consistent (snd e)) (loop_table d cid).
Proof.
  unfold loop_table, standings_table.
  generalize (new_Map_consistent (registered_teams d cid)).
  generalize (new_Map (map zero_row (registered_teams d cid))).
  induction (finished_rows d cid) as [|m ms IH]; intros t Ht; simpl.
  - exact Ht.
  - apply IH. now apply tally_consistent.
Qed.

(** ** Sorting *)

Section SortFacts.
Context {A : Type} (cmp : A -> A -> Z).

Lemma insert_sorted_Permutation x l :
  Permutation (insert_sorted cmp x l) (x :: l).
Proof.
  induction l as [|y l IH]; simpl; [reflexivity|].
  destruct (cmp x y <=? 0); [reflexivity|].
  rewrite IH. apply perm_swap.
Qed.

Lemma sort_Permutation l : Permutation (sort cmp l) l.
Proof.
  induction l as [|x l IH]; simpl; [reflexivity|].
  rewrite insert_sorted_Permutation. now constructor.
Qed.

Hypothesis cmp_total : forall x y, cmp x y <= 0 \/ cmp y x <= 0.
Hypothesis cmp_trans :
  forall x y z, cmp x y <= 0 -> cmp y z <= 0 -> cmp x z <= 0.

Let le (x y : A) : Prop := cmp x y <= 0.

Lemma insert_sorted_StronglySorted x l :
  StronglySorted le l -> StronglySorted le (insert_sorted cmp x l).
Proof.
  induction 1 as [|y l Hl IH Hy]; simpl.
  - repeat constructor.
  - destruct (cmp x y <=? 0) eqn:E.
    + apply Z.leb_le in E. constructor; [now constructor|].
      constructor; [exact E|].
      eapply Forall_impl; [|exact Hy]. intros z Hz. now apply (cmp_trans x y z).
    + apply Z.leb_gt in E. constructor; [exact IH|].
      apply (Permutation_Forall
               (Permutation_sym (insert_sorted_Permutation x l))).
      constructor; [|exact Hy].
      destruct (cmp_total x y) as [H|H]; [lia | exact H].
Qed.

Lemma sort_StronglySorted l : StronglySorted le (sort cmp l).
Proof.
  induction l as [|x l IH]; simpl; [constructor|].
  now apply insert_sorted_StronglySorted.
Qed.

Lemma StronglySorted_nth_error l :
  StronglySorted le l ->
  forall i j a b,
    nth_error l i = Some a -> nth_error l j = Some b -> (i < j)%nat ->
    cmp a b <= 0.
Proof.
  induction 1 as [|x l Hl IH Hx]; intros i j a b Hi Hj Hlt.
  - destruct i; discriminate.
  - destruct j as [|j]; [lia|]. simpl in Hj.
    destruct i as [|i]; simpl in Hi.
    + injection Hi as <-. rewrite Forall_forall in Hx.
      apply Hx. eapply nth_error_In; eassumption.
    + eapply IH; try eassumption. lia.
Qed.
End SortFacts.

(** ** The comparator and the key order of the specification *)

Lemma compareRows_key_ge lc a b : compareRows lc a b <= 0 <-> key_ge lc a b.
Proof.
  unfold compareRows, js_or, key_ge.
  destruct (Z.eqb_spec (PTS b - PTS a) 0);
    [destruct (Z.eqb_spec (GD b - GD a) 0);
       [destruct (Z.eqb_spec (GF b - GF a) 0)|]|]; lia.
Qed.

Lemma compareRows_total lc :
  consistent_comparator lc ->
  forall a b, compareRows lc a b <= 0 \/ compareRows lc b a <= 0.
Proof.
  intros [Htotal _] a b. rewrite !compareRows_key_ge. unfold key_ge.
  destruct (Htotal (s_team a) (s_team b)); lia.
Qed.

Lemma compareRows_trans lc :
  consistent_comparator lc ->
  forall a b c,
    compareRows lc a b <= 0 -> compareRows lc b c <= 0 ->
    compareRows lc a c <= 0.
Proof.
  intros [_ Htrans] a b c. rewrite !compareRows_key_ge. unfold key_ge.
  pose proof (Htrans (s_team a) (s_team b) (s_team c)). lia.
Qed.

Lemma ranked_rows_Permutation lc d cid :
  Permutation (ranked_rows lc d cid) (Map_values (loop_table d cid)).
Proof. apply sort_Permutation. Qed.

(** The handler answers rows only where the engine prepares the matches
    query, and then the ranked rows of the loop's table; on an engine that
    refuses the double-quoted literal it throws. *)
Lemma computeStandings_accepted lc d cid :
  computeStandings lc true d cid = Ok (ranked_rows lc d cid).
Proof. reflexivity. Qed.

Lemma computeStandings_refused lc d cid :
  computeStandings lc false d cid = Thrown SQLITE_ERROR.
Proof. reflexivity. Qed.

Lemma computeStandings_Ok lc dqs d cid rows :
  computeStandings lc dqs d cid = Ok rows ->
  dqs = true /\ rows = ranked_rows lc d cid.
Proof.
  destruct dqs; [|discriminate].
  rewrite computeStandings_accepted. intros H. injection H as <-.
  split; reflexivity.
Qed.

Lemma ranked_rows_consistent lc d cid :
  Forall row_consistent (ranked_rows lc d cid).
Proof.
  apply (Permutation_Forall
           (Permutation_sym (ranked_rows_Permutation lc d cid))).
  unfold Map_values. rewrite Forall_map. apply loop_table_consistent.
Qed.

(** C10.  Whatever the engine's option, the collation, the competition id and
    the store: every row that the standings request answers satisfies
    P = W + D + L, PTS = 3 W + D and GD = GF - GA.  (Where [prepare] refuses
    the matches query, as the bundled engine does, no row is answered.) *)
Theorem standings_rows_are_consistent :
  forall lc dqs d cid rows,
    computeStandings lc dqs d cid = Ok rows -> Forall row_consistent rows.
Proof.
  intros lc dqs d cid rows Hok.
  apply computeStandings_Ok in Hok. destruct Hok as [_ ->].
  apply ranked_rows_consistent.
Qed.

(** C3, on the engine the server imports.  After Falcon FC v River United has
    been played to 3 - 1 and set to FINISHED, the store holds that match as a
    finished match of competition 1 and both teams are registered for it; the
    request for the standings of competition 1 nevertheless ends in the
    exception that [prepare] throws on the matches query.  The loop is not
    reached and no team's played count, goals or points are answered.  The
    rows that the claim describes are what the same handler answers on an
    engine that takes the double-quoted token for a string. *)
Theorem finished_match_reaches_no_standings :
  forall lc,
    In (mkMatch 1 (Some 1) 1 2 "2025-01-02 12:00:00"
                (Some "Falcon Arena") (Some "Ref A") "FINISHED" 3 1)
       (matches falcon_3_river_1) /\
    map t_id (registered_teams falcon_3_river_1 1) = [1; 2] /\
    computeStandings lc better_sqlite3_dqs falcon_3_river_1 1
    = Thrown SQLITE_ERROR /\
    computeStandings lc true falcon_3_river_1 1
    = Ok [mkStanding 1 "Falcon FC" 1 1 0 0 3 1 2 3;
          mkStanding 2 "River United" 1 0 0 1 1 3 (-2) 0].
Proof.
  intros lc. split; [|split; [|split]].
  - vm_compute. left. reflexivity.
  - vm_compute. reflexivity.
  - apply computeStandings_refused.
  - vm_compute. reflexivity.
Qed.

(** C4, on the engine the server imports.  For every store and every
    competition id the standings request ends in the exception that [prepare]
    throws on the matches query: the sort of the handler's last statement is
    never reached and no sequence of rows, sorted or not, is answered. *)
Theorem standings_request_throws_before_the_sort :
  forall lc d cid,
    computeStandings lc better_sqlite3_dqs d cid = Thrown SQLITE_ERROR.
Proof. intros lc d cid. apply computeStandings_refused. Qed.

(** The output is sorted for the comparator handed to [sort]. *)
Lemma ranked_rows_sorted lc d cid :
  consistent_comparator lc ->
  forall i j a b,
    nth_error (ranked_rows lc d cid) i = Some a ->
    nth_error (ranked_rows lc d cid) j = Some b ->
    (i < j)%nat -> key_ge lc a b.
Proof.
  intros Hlc i j a b Hi Hj Hlt. apply compareRows_key_ge.
  pose proof (sort_StronglySorted (compareRows lc) (compareRows_total lc Hlc)
                (compareRows_trans lc Hlc)
                (Map_values (loop_table d cid))) as Hsorted.
  exact (StronglySorted_nth_error _ _ Hsorted i j a b Hi Hj Hlt).
Qed.

(** X31.  Whenever the standings request answers rows, and for a collation
    that is a consistent comparator, they are sorted by points, then goal
    difference, then goals for, all descending, then by name ascending in the
    collation: a row that comes before another has a key tuple at least as
    large, and a row whose key tuple is strictly larger than another's comes
    before it.  Nothing is said of the relative order of rows whose four keys
    all tie. *)
Theorem standings_are_sorted_by_key :
  forall lc dqs d cid rows i j a b,
    consistent_comparator lc ->
    computeStandings lc dqs d cid = Ok rows ->
    nth_error rows i = Some a ->
    nth_error rows j = Some b ->
    ((i < j)%nat -> key_ge lc a b) /\ (key_gt lc a b -> (i < j)%nat).
Proof.
  intros lc dqs d cid rows i j a b Hlc Hok Hi Hj.
  apply computeStandings_Ok in Hok. destruct Hok as [_ ->]. split.
  - now apply (ranked_rows_sorted lc d cid Hlc i j).
  - intros [Hge Hngt].
    destruct (Nat.lt_trichotomy i j) as [Hlt | [Heq | Hgt]]; [exact Hlt | |].
    + subst j. rewrite Hi in Hj. injection Hj as <-. contradiction.
    + exfalso. apply Hngt.
      now apply (ranked_rows_sorted lc d cid Hlc j i).
Qed.

(** ** The collation is a consistent comparator *)

Lemma codeUnitCompare_consistent : consistent_comparator codeUnitCompare.
Proof.
  unfold codeUnitCompare. split.
  - intros a b.
    destruct (String_as_OT.compare_spec a b) as [Heq | Hlt | Hgt];
      [left; simpl; lia | left; simpl; lia | right].
    unfold String_as_OT.lt in Hgt. rewrite Hgt. simpl. lia.
  - intros a b c.
    destruct (String_as_OT.compare_spec a b) as [Heq | Hab | Hgt];
      [| | simpl; lia].
    + unfold String_as_OT.eq in Heq. subst b. intros _ H. exact H.
    + intros _.
      destruct (String_as_OT.compare_spec b c) as [Heq | Hbc | Hgt];
        [| | simpl; lia]; intros _.
      * unfold String_as_OT.eq in Heq. subst c.
        unfold String_as_OT.lt in Hab. rewrite Hab. simpl. lia.
      * assert (Hac : String_as_OT.lt a c)
          by (eapply String_as_OT.lt_strorder; eassumption).
        unfold String_as_OT.lt in Hac. rewrite Hac. simpl. lia.
Qed.

(** ** The scenarios, run *)

Example standings_as_shipped :
  computeStandings codeUnitCompare better_sqlite3_dqs seed_db 1
  = Thrown SQLITE_ERROR.
Proof. vm_compute. reflexivity. Qed.

(** The three scenarios of the specification, on an engine that takes the
    double-quoted token for a string. *)
Example standings_before_any_result :
  computeStandings codeUnitCompare true seed_db 1
  = Ok [mkStanding 1 "Falcon FC" 0 0 0 0 0 0 0 0;
        mkStanding 2 "River United" 0 0 0 0 0 0 0 0].
Proof. vm_compute. reflexivity. Qed.

Example standings_after_3_1 :
  computeStandings codeUnitCompare true falcon_3_river_1 1
  = Ok [mkStanding 1 "Falcon FC" 1 1 0 0 3 1 2 3;
        mkStanding 2 "River United" 1 0 0 1 1 3 (-2) 0].
Proof. vm_compute. reflexivity. Qed.

Example standings_after_2_2 :
  computeStandings codeUnitCompare true falcon_2_river_2 1
  = Ok [mkStanding 1 "Falcon FC" 1 0 1 0 2 2 0 1;
        mkStanding 2 "River United" 1 0 1 0 2 2 0 1].
Proof. vm_compute. reflexivity. Qed.

Example players_after_3_1 :
  map (fun p => (p_id p, p_goals p)) (players falcon_3_river_1)
  = [(1, 0); (2, 0); (3, 3); (4, 0); (5, 0); (6, 1)].
Proof. vm_compute. reflexivity. Qed.

Lemma standings_rows_are_consistent_witness :
  Forall row_consistent
         [mkStanding 1 "Falcon FC" 1 1 0 0 3 1 2 3;
          mkStanding 2 "River United" 1 0 0 1 1 3 (-2) 0].
Proof.
  apply (standings_rows_are_consistent codeUnitCompare true
                                       falcon_3_river_1 1).
  vm_compute. reflexivity.
Defined.

Lemma standings_are_sorted_by_key_witness :
  key_ge codeUnitCompare (mkStanding 1 "Falcon FC" 1 1 0 0 3 1 2 3)
         (mkStanding 2 "River United" 1 0 0 1 1 3 (-2) 0).
Proof.
  assert (Hok : computeStandings codeUnitCompare true falcon_3_river_1 1
                = Ok [mkStanding 1 "Falcon FC" 1 1 0 0 3 1 2 3;
                      mkStanding 2 "River United" 1 0 0 1 1 3 (-2) 0])
    by (vm_compute; reflexivity).
  apply (proj1 (standings_are_sorted_by_key
                  codeUnitCompare true falcon_3_river_1 1 _ 0 1 _ _
                  codeUnitCompare_consistent Hok eq_refl eq_refl)).
  lia.
Defined.

(** * Further properties of the handlers *)

(** ** The event handler, case by case *)

Lemma db_eta d :
  mkDb (teams d) (players d) (competitions d) (registrations d) (matches d)
       (match_events d) (seq_matches d) (seq_match_events d) = d.
Proof. now destruct d. Qed.

(** The three ways the handler can end. *)
Lemma applyEvent_cases d id req :
  (includes event_types (type req) = false /\
   applyEvent d id req = (d, BadRequest "Bad event type")) \/
  (exists e,
     includes event_types (type req) = true /\
     insert_match_event d id req = inl e /\
     applyEvent d id req = (d, Thrown e)) \/
  (exists d1 eid m,
     includes event_types (type req) = true /\
     insert_match_event d id req = inr (d1, eid) /\
     get_match d id = Some m /\
     applyEvent d id req
     = (card_updates
          (if is_goal_type req
           then update_player_if (String.eqb (type req) "GOAL") (player_id req)
                  inc_goals
                  (set_matches d1
                     (map (add_scores
                             (scoreInc (team_id req) (m_home_team_id m)
                                       (String.eqb (type req) "OWN_GOAL"))
                             (scoreInc (team_id req) (m_away_team_id m)
                                       (String.eqb (type req) "OWN_GOAL"))
                             id)
                          (matches d1)))
           else d1)
          req,
        Ok eid)).
Proof.
  unfold applyEvent, is_goal_type.
  destruct (includes event_types (type req)) eqn:Hinc; cbn [negb];
    [|left; now split].
  right.
  destruct (insert_match_event d id req) as [e | [d1 eid]] eqn:Hins.
  - left. exists e. repeat split.
  - right. destruct (get_match_after_insert _ _ _ _ _ Hins) as (m & Hm & Hm1).
    exists d1, eid, m. rewrite Hm1. unfold score_goal.
    destruct (String.eqb (type req) "GOAL" || String.eqb (type req) "OWN_GOAL");
      repeat split; assumption.
Qed.

Lemma update_player_if_frame cond pid f d :
  teams (update_player_if cond pid f d) = teams d /\
  competitions (update_player_if cond pid f d) = competitions d /\
  registrations (update_player_if cond pid f d) = registrations d /\
  matches (update_player_if cond pid f d) = matches d /\
  match_events (update_player_if cond pid f d) = match_events d /\
  seq_matches (update_player_if cond pid f d) = seq_matches d /\
  seq_match_events (update_player_if cond pid f d) = seq_match_events d.
Proof.
  unfold update_player_if. destruct pid; [|now repeat split].
  destruct (cond && truthy (Some z)); now repeat split.
Qed.

Lemma card_updates_frame d req :
  teams (card_updates d req) = teams d /\
  competitions (card_updates d req) = competitions d /\
  registrations (card_updates d req) = registrations d /\
  matches (card_updates d req) = matches d /\
  match_events (card_updates d req) = match_events d /\
  seq_matches (card_updates d req) = seq_matches d /\
  seq_match_events (card_updates d req) = seq_match_events d.
Proof.
  unfold card_updates.
  pose proof (update_player_if_frame (String.eqb (type req) "RED")
                (player_id req) inc_red_cards
                (update_player_if (String.eqb (type req) "YELLOW")
                   (player_id req) inc_yellow_cards d)) as H1.
  pose proof (update_player_if_frame (String.eqb (type req) "YELLOW")
                (player_id req) inc_yellow_cards d) as H2.
  intuition congruence.
Qed.

(** X1.  The handler either fails and leaves the whole store as it was, or
    answers the next AUTOINCREMENT id and appends exactly one row to the
    event log, carrying that id and the fields of the request; teams,
    competitions and registrations are never touched. *)
Theorem event_is_appended_or_store_unchanged :
  forall d id req,
    match snd (applyEvent d id req) with
    | Ok eid =>
        eid = seq_match_events d + 1 /\
        seq_match_events (fst (applyEvent d id req)) = eid /\
        match_events (fst (applyEvent d id req))
        = (match_events d
           ++ [mkEvent eid id (minute req) (type req) (player_id req)
                       (team_id req) (notes req)])%list /\
        teams (fst (applyEvent d id req)) = teams d /\
        competitions (fst (applyEvent d id req)) = competitions d /\
        registrations (fst (applyEvent d id req)) = registrations d
    | _ => fst (applyEvent d id req) = d
    end.
Proof.
  intros d id req.
  destruct (applyEvent_cases d id req)
    as [[_ ->] | [(e & _ & _ & ->) | (d1 & eid & m & _ & Hins & _ & ->)]];
    [reflexivity | reflexivity |].
  cbn [fst snd].
  apply insert_match_event_inr in Hins.
  destruct Hins as (_ & _ & _ & _ & _ & -> & ->).
  match goal with
  | |- context [card_updates ?x req] =>
      pose proof (card_updates_frame x req) as (Ht & Hc & Hr & _ & He & _ & Hs)
  end.
  rewrite Ht, Hc, Hr, He, Hs.
  destruct (is_goal_type req).
  - match goal with
    | |- context [update_player_if ?c ?p ?f ?x] =>
        pose proof (update_player_if_frame c p f x)
          as (Ht' & Hc' & Hr' & _ & He' & _ & Hs')
    end.
    rewrite Ht', Hc', Hr', He', Hs'. cbn. repeat split.
  - cbn. repeat split.
Qed.

Lemma get_player_map_hit d pid f p :
  (forall q, p_id (f q) = p_id q) ->
  get_player d pid = Some p ->
  find (fun q => p_id q =? pid) (map f (players d)) = Some (f p).
Proof.
  intros Hid Hp. rewrite (find_map_keeps_key p_id) by exact Hid.
  unfold get_player in Hp. now rewrite Hp.
Qed.

(** The players table after an applied YELLOW or RED event that names a
    player. *)
Lemma applyEvent_card_state d id req d' eid :
  type req = "YELLOW" \/ type req = "RED" ->
  applyEvent d id req = (d', Ok eid) ->
  matches d' = matches d /\
  fk_ok (get_player d) (player_id req) = true /\
  players d'
  = match player_id req with
    | Some pid =>
        if truthy (player_id req)
        then map ((if String.eqb (type req) "YELLOW"
                   then inc_yellow_cards else inc_red_cards) pid) (players d)
        else players d
    | None => players d
    end.
Proof.
  intros Hty Happ.
  destruct (applyEvent_cases d id req)
    as [[_ H] | [(e & _ & _ & H) | (d1 & eid' & m & _ & Hins & _ & H)]];
    rewrite H in Happ; try discriminate.
  injection Happ as <- <-.
  apply insert_match_event_inr in Hins.
  destruct Hins as (_ & _ & _ & Hfk & _ & _ & ->).
  assert (Hgoal : is_goal_type req = false)
    by (unfold is_goal_type; destruct Hty as [-> | ->]; reflexivity).
  rewrite Hgoal. unfold card_updates, update_player_if.
  destruct Hty as [Hty | Hty]; rewrite Hty;
    cbn [String.eqb Ascii.eqb Bool.eqb andb];
    destruct (player_id req) as [pid|]; cbn [truthy];
    try destruct (negb (pid =? 0)); cbn; repeat split; auto.
Qed.

(** X2.  An applied YELLOW event that names a player raises that player's
    yellow cards by exactly 1, an applied RED event his red cards by exactly
    1; the player's goals and his other card counter stay, and no match row
    changes. *)
Theorem card_event_counts_one_card :
  forall d id req d' eid pid,
    applyEvent d id req = (d', Ok eid) ->
    player_id req = Some pid ->
    player_ids_positive d ->
    type req = "YELLOW" \/ type req = "RED" ->
    matches d' = matches d /\
    exists p p',
      get_player d pid = Some p /\ get_player d' pid = Some p' /\
      p_goals p' = p_goals p /\
      p_yellow_cards p'
      = p_yellow_cards p + (if String.eqb (type req) "YELLOW" then 1 else 0) /\
      p_red_cards p'
      = p_red_cards p + (if String.eqb (type req) "RED" then 1 else 0).
Proof.
  intros d id req d' eid pid Happ Hpid Hpos Hty.
  destruct (applyEvent_card_state _ _ _ _ _ Hty Happ) as (Hms & Hfk & Hps).
  split; [exact Hms|].
  rewrite Hpid in Hfk, Hps.
  rewrite (positive_id_truthy _ _ Hpos Hfk) in Hps.
  destruct (fk_ok_player _ _ Hfk) as (p & Hp & _ & Hid).
  exists p. unfold get_player at 2. rewrite Hps.
  destruct Hty as [Hty | Hty]; rewrite Hty; cbn [String.eqb Ascii.eqb Bool.eqb].
  - rewrite (get_player_map_hit d pid _ p (inc_yellow_cards_id pid) Hp).
    eexists. split; [exact Hp|]. split; [reflexivity|].
    unfold inc_yellow_cards. rewrite Hid, Z.eqb_refl. cbn. repeat split; lia.
  - rewrite (get_player_map_hit d pid _ p (inc_red_cards_id pid) Hp).
    eexists. split; [exact Hp|]. split; [reflexivity|].
    unfold inc_red_cards. rewrite Hid, Z.eqb_refl. cbn. repeat split; lia.
Qed.

(** X3.  An ASSIST or SUB event is only logged: whatever its references and
    whether or not it is accepted, the players table (the assists counter
    included) and the matches table stay as they were. *)
Theorem assist_and_sub_events_change_no_counter :
  forall d id req,
    type req = "ASSIST" \/ type req = "SUB" ->
    players (fst (applyEvent d id req)) = players d /\
    matches (fst (applyEvent d id req)) = matches d.
Proof.
  intros d id req Hty.
  destruct (applyEvent_cases d id req)
    as [[_ ->] | [(e & _ & _ & ->) | (d1 & eid & m & _ & Hins & _ & ->)]];
    [now split | now split |].
  cbn [fst].
  apply insert_match_event_inr in Hins.
  destruct Hins as (_ & _ & _ & _ & _ & _ & ->).
  assert (Hgoal : is_goal_type req = false)
    by (unfold is_goal_type; destruct Hty as [-> | ->]; reflexivity).
  rewrite Hgoal, card_updates_other;
    [now split | destruct Hty as [-> | ->]; reflexivity ..].
Qed.

(** X4.  An event of a recognised type with a minute in 0..130 that names a
    match that does not exist, or a player or a team that does not exist,
    makes the INSERT fail its foreign key: the exception propagates and the
    store is left as it was. *)
Theorem event_with_dangling_reference_is_rejected :
  forall d id req,
    In (type req) event_types ->
    0 <= minute req <= 130 ->
    get_match d id = None \/
    (exists pid, player_id req = Some pid /\ get_player d pid = None) \/
    (exists tid, team_id req = Some tid /\ get_team d tid = None) ->
    applyEvent d id req = (d, Thrown SQLITE_CONSTRAINT_FOREIGNKEY).
Proof.
  intros d id req Hty Hmin Hdangling.
  apply includes_In in Hty.
  unfold applyEvent, insert_match_event. rewrite Hty. cbn [negb].
  assert (Hrange : (0 <=? minute req) && (minute req <=? 130) = true)
    by (apply andb_true_iff; split; apply Z.leb_le; lia).
  rewrite Hrange. cbn [negb].
  assert (Hfk : is_some (get_match d id)
                && fk_ok (get_player d) (player_id req)
                && fk_ok (get_team d) (team_id req) = false).
  { destruct Hdangling as [Hm | [(pid & Hp & Hnone) | (tid & Ht & Hnone)]].
    - now rewrite Hm.
    - rewrite Hp. cbn [fk_ok]. rewrite Hnone. cbn.
      now rewrite andb_false_r.
    - rewrite Ht. cbn [fk_ok]. rewrite Hnone. cbn.
      now rewrite andb_false_r. }
  now rewrite Hfk.
Qed.

Lemma event_with_dangling_reference_is_rejected_witness :
  applyEvent seed_db 7 (goal_by 3 1)
  = (seed_db, Thrown SQLITE_CONSTRAINT_FOREIGNKEY) /\
  applyEvent seed_db 1 (goal_by 9 1)
  = (seed_db, Thrown SQLITE_CONSTRAINT_FOREIGNKEY).
Proof.
  split.
  - apply event_with_dangling_reference_is_rejected;
      [cbn; auto | cbn; lia | now left].
  - apply event_with_dangling_reference_is_rejected;
      [cbn; auto | cbn; lia | right; left; exists 9; now split].
Defined.

Lemma card_event_counts_one_card_witness :
  exists p',
    get_player
      (fst (applyEvent seed_db 1
              (mkEventReq 30 "YELLOW" (Some 5) (Some 2) None)))
      5 = Some p' /\
    p_yellow_cards p' = 1 /\ p_red_cards p' = 0.
Proof.
  destruct (card_event_counts_one_card
              seed_db 1 (mkEventReq 30 "YELLOW" (Some 5) (Some 2) None)
              (fst (applyEvent seed_db 1
                      (mkEventReq 30 "YELLOW" (Some 5) (Some 2) None)))
              1 5 eq_refl eq_refl (proj1 seed_db_invariants)
              (or_introl eq_refl))
    as (_ & p & p' & Hp & Hp' & _ & Hy & Hr).
  exists p'. split; [exact Hp'|].
  injection Hp as <-. split; [exact Hy | exact Hr].
Defined.

Lemma assist_and_sub_events_change_no_counter_witness :
  players (fst (applyEvent seed_db 1
                  (mkEventReq 12 "ASSIST" (Some 2) (Some 1) None)))
  = players seed_db.
Proof.
  apply (assist_and_sub_events_change_no_counter
           seed_db 1 (mkEventReq 12 "ASSIST" (Some 2) (Some 1) None)).
  now left.
Defined.

(** The matches table after any event request. *)
Lemma applyEvent_matches :
  forall d id req,
    exists homeInc awayInc,
      (homeInc = 0 \/ homeInc = 1) /\ (awayInc = 0 \/ awayInc = 1) /\
      matches (fst (applyEvent d id req))
      = map (add_scores homeInc awayInc id) (matches d).
Proof.
  intros d id req.
  assert (Hsame : exists homeInc awayInc,
             (homeInc = 0 \/ homeInc = 1) /\ (awayInc = 0 \/ awayInc = 1) /\
             matches d = map (add_scores homeInc awayInc id) (matches d)).
  { exists 0, 0. repeat split; auto.
    rewrite <- (map_id (matches d)) at 1.
    apply map_ext. intros m. now rewrite add_scores_zero. }
  destruct (applyEvent_cases d id req)
    as [[_ ->] | [(e & _ & _ & ->) | (d1 & eid & m & _ & Hins & _ & ->)]];
    [exact Hsame | exact Hsame |].
  cbn [fst].
  apply insert_match_event_inr in Hins.
  destruct Hins as (_ & _ & _ & _ & _ & _ & ->).
  match goal with
  | |- context [card_updates ?x req] =>
      pose proof (card_updates_frame x req) as (_ & _ & _ & Hm & _)
  end.
  rewrite Hm. destruct (is_goal_type req); [|exact Hsame].
  match goal with
  | |- context [update_player_if ?c ?p ?f ?x] =>
      pose proof (update_player_if_frame c p f x) as (_ & _ & _ & Hm' & _)
  end.
  rewrite Hm'. cbn [matches set_matches].
  eexists _, _. split; [|split; [|reflexivity]];
    rewrite scoreInc_xor;
    match goal with |- context [if ?c then _ else _] => destruct c end; auto.
Qed.



Lemma applyEvent_Ok_seq d id req d' eid :
  applyEvent d id req = (d', Ok eid) ->
  eid = seq_match_events d + 1 /\ seq_match_events d' = eid.
Proof.
  intros Happ.
  destruct (applyEvent_cases d id req)
    as [[_ H] | [(e & _ & _ & H) | (d1 & eid' & m & _ & Hins & _ & H)]];
    rewrite H in Happ; try discriminate.
  injection Happ as <- <-.
  apply insert_match_event_inr in Hins.
  destruct Hins as (_ & _ & _ & _ & _ & -> & ->).
  split; [reflexivity|].
  match goal with
  | |- context [card_updates ?x req] =>
      pose proof (card_updates_frame x req) as (_ & _ & _ & _ & _ & _ & Hs)
  end.
  rewrite Hs. destruct (is_goal_type req); [|reflexivity].
  match goal with
  | |- context [update_player_if ?c ?p ?f ?x] =>
      pose proof (update_player_if_frame c p f x)
        as (_ & _ & _ & _ & _ & _ & Hs')
  end.
  now rewrite Hs'.
Qed.

(** X6.  Event ids are handed out consecutively: of two events accepted one
    after the other, on any matches, the second gets the id of the first
    plus 1. *)
Theorem accepted_events_get_consecutive_ids :
  forall d id req d1 e1 id' req' d2 e2,
    applyEvent d id req = (d1, Ok e1) ->
    applyEvent d1 id' req' = (d2, Ok e2) ->
    e2 = e1 + 1.
Proof.
  intros d id req d1 e1 id' req' d2 e2 H1 H2.
  apply applyEvent_Ok_seq in H1, H2. lia.
Qed.

Lemma accepted_events_get_consecutive_ids_witness :
  snd (applyEvent seed_db 1 (goal_by 3 1)) = Ok 1 /\
  snd (applyEvent (fst (applyEvent seed_db 1 (goal_by 3 1))) 1 (goal_by 6 2))
  = Ok 2.
Proof.
  assert (H1 : applyEvent seed_db 1 (goal_by 3 1)
               = (fst (applyEvent seed_db 1 (goal_by 3 1)), Ok 1))
    by (vm_compute; reflexivity).
  destruct (applyEvent (fst (applyEvent seed_db 1 (goal_by 3 1))) 1
                       (goal_by 6 2)) as [d2 [e2 | msg | e]] eqn:H2;
    try (vm_compute in H2; discriminate).
  rewrite H1. split; [reflexivity|]. cbn [snd]. f_equal.
  exact (accepted_events_get_consecutive_ids _ _ _ _ _ _ _ _ _ H1 H2).
Defined.

(** ** Status updates *)

Lemma map_untouched {A} (key : A -> Z) (f : A -> A) (k : Z) (l : list A) :
  (forall x, (key x =? k) = false -> f x = x) ->
  find (fun x => key x =? k) l = None ->
  map f l = l /\ filter (fun x => key x =? k) l = [].
Proof.
  intros Hf. induction l as [|x l IH]; simpl; [now split|].
  destruct (key x =? k) eqn:E; [discriminate|].
  intros Hnone. destruct (IH Hnone) as [-> ->]. now rewrite (Hf x E).
Qed.

(** X7.  A status update that names a match id that does not exist is
    answered {updated: 0} and leaves the store exactly as it was. *)
Theorem status_update_of_unknown_match_changes_nothing :
  forall d id status,
    get_match d id = None ->
    In status match_statuses ->
    setMatchStatus d id status = (d, Ok 0).
Proof.
  intros d id status Hnone Hin. apply includes_In in Hin.
  unfold setMatchStatus, changes. rewrite Hin. cbn [negb].
  destruct (map_untouched m_id (set_status status id) id (matches d))
    as [-> ->]; [|exact Hnone|].
  - intros m E. unfold set_status. now rewrite E.
  - unfold set_matches. now rewrite db_eta.
Qed.

Lemma status_update_of_unknown_match_changes_nothing_witness :
  setMatchStatus seed_db 2 "FINISHED" = (seed_db, Ok 0).
Proof.
  apply status_update_of_unknown_match_changes_nothing;
    [reflexivity | cbn; auto].
Defined.

(** X8.  Status updates overwrite each other: two accepted updates of one
    match leave the store that the second alone would leave. *)
Theorem last_status_update_wins :
  forall d id s1 s2,
    In s1 match_statuses -> In s2 match_statuses ->
    fst (setMatchStatus (fst (setMatchStatus d id s1)) id s2)
    = fst (setMatchStatus d id s2).
Proof.
  intros d id s1 s2 H1 H2. apply includes_In in H1, H2.
  unfold setMatchStatus. rewrite H1, H2. cbn [negb fst].
  unfold set_matches. cbn. f_equal.
  rewrite map_map. apply map_ext. intros m.
  unfold set_status. destruct (m_id m =? id) eqn:E; cbn; rewrite E; reflexivity.
Qed.

Lemma last_status_update_wins_witness :
  fst (setMatchStatus (fst (setMatchStatus seed_db 1 "FINISHED")) 1 "IN_PLAY")
  = fst (setMatchStatus seed_db 1 "IN_PLAY").
Proof.
  apply last_status_update_wins; cbn; auto.
Defined.

(** ** Scheduling a match *)

(** X9.  Scheduling either answers 400 and leaves the store as it was, or
    answers the next AUTOINCREMENT id and appends exactly one match: status
    SCHEDULED, score 0 - 0, the fields of the request, two different teams
    that both exist, a competition that exists when one is given, and no
    earlier match with the same home team, away team and date. *)
Theorem match_is_scheduled_or_store_unchanged :
  forall d q,
    match snd (createMatch d q) with
    | Ok id =>
        id = seq_matches d + 1 /\
        fst (createMatch d q)
        = mkDb (teams d) (players d) (competitions d) (registrations d)
               (matches d
                ++ [mkMatch id (q_competition_id q) (q_home_team_id q)
                            (q_away_team_id q) (q_date_time q) (q_venue q)
                            (q_referee q) "SCHEDULED" 0 0])
               (match_events d) id (seq_match_events d) /\
        q_home_team_id q <> q_away_team_id q /\
        (exists home, get_team d (q_home_team_id q) = Some home) /\
        (exists away, get_team d (q_away_team_id q) = Some away) /\
        (forall c, q_competition_id q = Some c ->
                   exists comp, get_competition d c = Some comp) /\
        (forall m, In m (matches d) ->
                   ~ (m_home_team_id m = q_home_team_id q /\
                      m_away_team_id m = q_away_team_id q /\
                      m_date_time m = q_date_time q))
    | BadRequest _ => fst (createMatch d q) = d
    | Thrown _ => False
    end.
Proof.
  intros d q. unfold createMatch.
  destruct (MatchSchema q) eqn:Hschema; cbn [negb]; [|reflexivity].
  destruct (existsb (same_fixture q) (matches d)) eqn:Hdup; [reflexivity|].
  destruct (fk_ok (get_competition d) (q_competition_id q)) eqn:Hc;
    cbn [negb andb]; [|reflexivity].
  destruct (get_team d (q_home_team_id q)) as [home|] eqn:Hh;
    cbn [is_some negb andb]; [|reflexivity].
  destruct (get_team d (q_away_team_id q)) as [away|] eqn:Ha;
    cbn [is_some negb andb]; [|reflexivity].
  cbn [fst snd]. split; [reflexivity|]. split; [reflexivity|].
  split; [|split; [now exists home | split; [now exists away | split]]].
  - unfold MatchSchema in Hschema.
    apply andb_true_iff in Hschema. destruct Hschema as [_ Hne].
    now apply negb_true_iff, Z.eqb_neq in Hne.
  - intros c Hq. rewrite Hq in Hc. cbn in Hc.
    destruct (get_competition d c) as [comp|]; [now exists comp | discriminate].
  - intros m Hin (Hhome & Haway & Hdate).
    assert (Hsame : same_fixture q m = true).
    { unfold same_fixture. rewrite Hhome, Haway, Hdate, !Z.eqb_refl.
      cbn. apply String.eqb_refl. }
    assert (Hex : existsb (same_fixture q) (matches d) = true)
      by (apply existsb_exists; now exists m).
    congruence.
Qed.

Lemma find_snoc {A} (f : A -> bool) (l : list A) (x : A) :
  find f (l ++ [x])
  = match find f l with
    | Some y => Some y
    | None => if f x then Some x else None
    end.
Proof.
  induction l as [|y l IH]; simpl; [reflexivity|].
  destruct (f y); [reflexivity | exact IH].
Qed.

Lemma find_none_above {A} (key : A -> Z) (bound k : Z) (l : list A) :
  Forall (fun x => key x <= bound) l -> bound < k ->
  find (fun x => key x =? k) l = None.
Proof.
  intros Hall Hlt. induction Hall as [|x l Hx _ IH]; simpl; [reflexivity|].
  destruct (key x =? k) eqn:E; [apply Z.eqb_eq in E; lia | exact IH].
Qed.

Lemma createMatch_Ok d q d' id :
  createMatch d q = (d', Ok id) ->
  id = seq_matches d + 1 /\
  d' = mkDb (teams d) (players d) (competitions d) (registrations d)
            (matches d
             ++ [mkMatch id (q_competition_id q) (q_home_team_id q)
                         (q_away_team_id q) (q_date_time q) (q_venue q)
                         (q_referee q) "SCHEDULED" 0 0])
            (match_events d) id (seq_match_events d).
Proof.
  unfold createMatch.
  repeat match goal with |- context [if ?c then _ else _] => destruct c end;
    intros H; try discriminate.
  injection H as <- <-. now split.
Qed.

(** X10.  On a store whose match ids do not exceed the AUTOINCREMENT counter,
    a scheduled match is found again under the id that was answered, as it
    was written, and every match that was there before is still found
    unchanged under its own id. *)
Theorem scheduled_match_is_found_by_its_id :
  forall d q d' id,
    createMatch d q = (d', Ok id) ->
    Forall (fun m => m_id m <= seq_matches d) (matches d) ->
    get_match d' id
    = Some (mkMatch id (q_competition_id q) (q_home_team_id q)
                    (q_away_team_id q) (q_date_time q) (q_venue q)
                    (q_referee q) "SCHEDULED" 0 0) /\
    get_match d id = None /\
    (forall id', id' <> id -> get_match d' id' = get_match d id').
Proof.
  intros d q d' id Hcreate Hbound.
  destruct (createMatch_Ok _ _ _ _ Hcreate) as (Hid & ->).
  assert (Hfresh : get_match d id = None)
    by (apply (find_none_above m_id (seq_matches d)); [exact Hbound | lia]).
  unfold get_match in *. cbn [matches].
  split; [|split; [exact Hfresh|]].
  - rewrite find_snoc, Hfresh. cbn [m_id]. now rewrite Z.eqb_refl.
  - intros id' Hne. rewrite find_snoc. cbn [m_id].
    destruct (find (fun m => m_id m =? id') (matches d)); [reflexivity|].
    destruct (id =? id') eqn:E; [apply Z.eqb_eq in E; congruence | reflexivity].
Qed.

Lemma scheduled_match_is_found_by_its_id_witness :
  get_match
    (fst (createMatch seed_db
            (mkMatchReq (Some 1) 2 1 "2025-02-01T18:00" None None))) 2
  = Some (mkMatch 2 (Some 1) 2 1 "2025-02-01T18:00" None None "SCHEDULED" 0 0).
Proof.
  apply (scheduled_match_is_found_by_its_id
           seed_db (mkMatchReq (Some 1) 2 1 "2025-02-01T18:00" None None)
           _ 2 eq_refl).
  constructor; [cbn; lia | constructor].
Defined.

(** ** Player updates *)

(** X11.  A player update whose body has none of the allowed keys, or that
    names a player id that does not exist, is answered {updated: 0} and
    leaves the store exactly as it was. *)
Theorem player_update_without_effect :
  forall d id body,
    fields_length body = 0%nat \/ get_player d id = None ->
    updatePlayer d id body = (d, Ok 0).
Proof.
  intros d id body Hcase. unfold updatePlayer.
  destruct (Nat.eqb (fields_length body) 0) eqn:Hlen; [reflexivity|].
  destruct Hcase as [Hzero | Hnone];
    [apply Nat.eqb_neq in Hlen; contradiction|].
  destruct (map_untouched p_id
              (fun p => if p_id p =? id then apply_patch body p else p)
              id (players d)) as [Hmap Hhit]; [|exact Hnone|].
  - intros p E. now rewrite E.
  - unfold changes. rewrite Hhit, Hmap. cbn.
    unfold set_players. now rewrite db_eta.
Qed.

Lemma player_update_without_effect_witness :
  updatePlayer seed_db 99 reset_goals = (seed_db, Ok 0).
Proof.
  apply player_update_without_effect. now right.
Defined.

Lemma hit_contains_found d id p :
  get_player d id = Some p ->
  In p (filter (fun q => p_id q =? id) (players d)).
Proof.
  intros Hp. apply find_some in Hp. now apply filter_In.
Qed.

(** X12.  An update of an existing player that sets an age outside 10..55, a
    position other than GK, DF, MF and FW, or a team that does not exist,
    throws the constraint failure of the UPDATE and leaves the store exactly
    as it was. *)
Theorem player_update_breaking_a_constraint_is_rejected :
  forall d id body p,
    get_player d id = Some p ->
    (exists age, u_age body = Some age /\ (age < 10 \/ 55 < age)) \/
    (exists pos, u_position body = Some pos /\ ~ In pos positions) \/
    (exists tid, u_team_id body = Some tid /\ get_team d tid = None) ->
    exists e,
      (e = SQLITE_CONSTRAINT_CHECK \/ e = SQLITE_CONSTRAINT_FOREIGNKEY) /\
      updatePlayer d id body = (d, Thrown e).
Proof.
  intros d id body p Hp Hbad. unfold updatePlayer.
  assert (Hlen : Nat.eqb (fields_length body) 0 = false).
  { apply Nat.eqb_neq. unfold fields_length.
    destruct Hbad as [(a & -> & _) | [(s & -> & _) | (t & -> & _)]];
      cbn [present]; lia. }
  rewrite Hlen.
  pose proof (hit_contains_found d id p Hp) as Hin.
  destruct (existsb _ (filter _ (players d))) eqn:Hchecks;
    [exists SQLITE_CONSTRAINT_CHECK; split; [now left | reflexivity]|].
  destruct Hbad as [(a & Ha & Hrange) | [(s & Hs & Hpos) | (t & Ht & Hnone)]].
  - exfalso.
    assert (Hex : existsb (fun q => negb (player_checks (apply_patch body q)))
                          (filter (fun q => p_id q =? id) (players d)) = true).
    { apply existsb_exists. exists p. split; [exact Hin|].
      unfold player_checks, apply_patch. cbn [p_age p_position]. rewrite Ha.
      cbn [or_keep]. apply negb_true_iff.
      destruct Hrange;
        [rewrite (proj2 (Z.leb_gt 10 a)) by lia; now rewrite andb_false_r
        |rewrite (proj2 (Z.leb_gt a 55)) by lia; now rewrite andb_false_r]. }
    congruence.
  - exfalso.
    assert (Hex : existsb (fun q => negb (player_checks (apply_patch body q)))
                          (filter (fun q => p_id q =? id) (players d)) = true).
    { apply existsb_exists. exists p. split; [exact Hin|].
      unfold player_checks, apply_patch. cbn [p_age p_position]. rewrite Hs.
      cbn [or_keep]. apply negb_true_iff.
      destruct (includes positions s) eqn:E;
        [apply includes_In in E; contradiction | reflexivity]. }
    congruence.
  - exists SQLITE_CONSTRAINT_FOREIGNKEY. split; [now right|].
    rewrite Ht. cbn [fk_ok]. rewrite Hnone. cbn [is_some negb].
    destruct (filter (fun q => p_id q =? id) (players d)) as [|x l];
      [destruct Hin | reflexivity].
Qed.

Lemma player_update_breaking_a_constraint_is_rejected_witness :
  updatePlayer seed_db 3
    (mkPatch None None None (Some 56) None None None None None None)
  = (seed_db, Thrown SQLITE_CONSTRAINT_CHECK).
Proof.
  destruct (player_update_breaking_a_constraint_is_rejected
              seed_db 3
              (mkPatch None None None (Some 56) None None None None None None)
              _ eq_refl) as (e & _ & Hupd).
  - left. exists 56. split; [reflexivity | lia].
  - rewrite Hupd. f_equal. f_equal.
    vm_compute in Hupd. now injection Hupd as <-.
Defined.


Lemma match_is_scheduled_or_store_unchanged_witness :
  fst (createMatch seed_db
         (mkMatchReq (Some 1) 1 1 "2025-02-01T18:00" None None))
  = seed_db.
Proof.
  pose proof (match_is_scheduled_or_store_unchanged
                seed_db (mkMatchReq (Some 1) 1 1 "2025-02-01T18:00" None None))
    as H.
  exact H.
Defined.

(** ** The standings table: keys and rows *)

Lemma Map_set_NoDup k v t :
  NoDup (map fst t) -> NoDup (map fst (Map_set k v t)).
Proof.
  induction t as [|[k0 v0] t IH]; simpl; intros Hnd.
  - repeat constructor. intros [].
  - inversion Hnd as [|? ? Hnotin Hnd']; subst.
    destruct (k0 =? k) eqn:E; simpl.
    + now constructor.
    + constructor; [|now apply IH].
      rewrite Map_set_keys. intros [-> | Hin]; [|contradiction].
      now rewrite Z.eqb_refl in E.
Qed.

Lemma new_Map_NoDup entries : NoDup (map fst (new_Map entries)).
Proof.
  unfold new_Map.
  assert (H : forall t, NoDup (map fst t) ->
             NoDup (map fst (fold_left (fun t e => Map_set (fst e) (snd e) t)
                                       entries t))).
  { induction entries as [|e es IH]; intros t Ht; simpl; [exact Ht|].
    apply IH. now apply Map_set_NoDup. }
  apply H. constructor.
Qed.

Lemma loop_table_keys d cid :
  NoDup (map fst (loop_table d cid)) /\
  forall k, In k (map fst (loop_table d cid))
            <-> In k (map t_id (registered_teams d cid)).
Proof.
  unfold loop_table, standings_table. rewrite fold_tally_keys. split.
  - apply new_Map_NoDup.
  - intros k. rewrite new_Map_keys, map_map. reflexivity.
Qed.

Lemma tally_both_keyed t m : keyed t -> keyed (tally_both t m).
Proof.
  unfold keyed. intros H. unfold tally_both.
  destruct (m_away_score m <? m_home_score m);
    [|destruct (m_home_score m <? m_away_score m)];
    rewrite !Map_modify_map, !Forall_map;
    (eapply Forall_impl; [|exact H]); clear H;
    intros [k r] Hr; rewrite !entry_modify_pair; destruct r;
    destruct (k =? m_home_team_id m), (k =? m_away_team_id m);
    exact Hr.
Qed.

Lemma tally_keyed t m : keyed t -> keyed (tally t m).
Proof.
  intros H. unfold tally.
  destruct (Map_get (m_home_team_id m) t); [|exact H].
  destruct (Map_get (m_away_team_id m) t); [|exact H].
  now apply tally_both_keyed.
Qed.

Lemma loop_table_keyed d cid : keyed (loop_table d cid).
Proof.
  unfold loop_table, standings_table.
  assert (H0 : keyed (new_Map (map zero_row (registered_teams d cid)))).
  { unfold new_Map, keyed.
    assert (H : forall t,
               Forall (fun e => s_team_id (snd e) = fst e) t ->
               Forall (fun e => s_team_id (snd e) = fst e)
                      (fold_left (fun t e => Map_set (fst e) (snd e) t)
                                 (map zero_row (registered_teams d cid)) t)).
    { induction (registered_teams d cid) as [|x ts IH]; intros t Ht; simpl;
        [exact Ht|].
      apply IH. apply Map_set_Forall; simpl; try exact Ht; [reflexivity|].
      intros k' _ _ Hk. now subst. }
    apply H. constructor. }
  revert H0. generalize (new_Map (map zero_row (registered_teams d cid))).
  induction (finished_rows d cid) as [|m ms IH]; intros t Ht; simpl;
    [exact Ht|].
  apply IH. now apply tally_keyed.
Qed.

Lemma keyed_ids t : keyed t -> map s_team_id (Map_values t) = map fst t.
Proof.
  unfold keyed, Map_values. intros H. rewrite map_map.
  induction H as [|e t He _ IH]; simpl; [reflexivity|].
  now rewrite He, IH.
Qed.

Lemma ranked_rows_ids lc d cid :
  NoDup (map s_team_id (ranked_rows lc d cid)) /\
  forall k, In k (map s_team_id (ranked_rows lc d cid))
            <-> In k (map t_id (registered_teams d cid)).
Proof.
  assert (Hperm : Permutation (map s_team_id (ranked_rows lc d cid))
                              (map fst (loop_table d cid))).
  { rewrite <- (keyed_ids _ (loop_table_keyed d cid)).
    apply Permutation_map, ranked_rows_Permutation. }
  destruct (loop_table_keys d cid) as [Hnd Hkeys]. split.
  - apply (Permutation_NoDup (Permutation_sym Hperm) Hnd).
  - intros k. rewrite <- Hkeys. split; apply Permutation_in;
      [exact Hperm | exact (Permutation_sym Hperm)].
Qed.

(** X13.  Whenever the standings request answers rows, there is exactly one
    row for each team that the registration query returns for the
    competition: the team ids of the rows are pairwise different and are the
    ids of the registered teams. *)
Theorem standings_have_one_row_per_registered_team :
  forall lc dqs d cid rows,
    computeStandings lc dqs d cid = Ok rows ->
    NoDup (map s_team_id rows) /\
    forall k, In k (map s_team_id rows)
              <-> In k (map t_id (registered_teams d cid)).
Proof.
  intros lc dqs d cid rows Hok.
  apply computeStandings_Ok in Hok. destruct Hok as [_ ->].
  apply ranked_rows_ids.
Qed.

Lemma standings_have_one_row_per_registered_team_witness :
  NoDup [1; 2] /\ forall k, In k [1; 2] <-> In k [1; 2].
Proof.
  assert (Hok : computeStandings codeUnitCompare true seed_db 1
                = Ok [mkStanding 1 "Falcon FC" 0 0 0 0 0 0 0 0;
                      mkStanding 2 "River United" 0 0 0 0 0 0 0 0])
    by (vm_compute; reflexivity).
  exact (standings_have_one_row_per_registered_team
           codeUnitCompare true seed_db 1 _ Hok).
Defined.

Lemma tally_get_other t m k :
  k <> m_home_team_id m -> k <> m_away_team_id m ->
  Map_get k (tally t m) = Map_get k t.
Proof.
  intros Hh Ha. unfold tally.
  destruct (Map_get (m_home_team_id m) t); [|reflexivity].
  destruct (Map_get (m_away_team_id m) t); [|reflexivity].
  apply Z.eqb_neq in Hh, Ha. unfold tally_both.
  repeat match goal with |- context [if ?c then _ else _] => destruct c end;
    rewrite !Map_get_modify, ?Hh, ?Ha; reflexivity.
Qed.

Lemma Map_get_None_keys k t : ~ In k (map fst t) -> Map_get k t = None.
Proof.
  intros Hnotin. destruct (Map_get k t) as [v|] eqn:E; [|reflexivity].
  exfalso. apply Hnotin, Map_get_keys. now exists v.
Qed.

Lemma Map_get_In k t r : Map_get k t = Some r -> In r (Map_values t).
Proof.
  unfold Map_get, Map_values. intros H.
  destruct (find (fun e => fst e =? k) t) as [e|] eqn:E; [|discriminate].
  injection H as <-. apply find_some in E. now apply in_map.
Qed.

Lemma new_Map_zero ts :
  Forall (fun e => zero_counters (snd e)) (new_Map (map zero_row ts)).
Proof.
  unfold new_Map.
  assert (H : forall t,
             Forall (fun e => zero_counters (snd e)) t ->
             Forall (fun e => zero_counters (snd e))
                    (fold_left (fun t e => Map_set (fst e) (snd e) t)
                               (map zero_row ts) t)).
  { induction ts as [|x ts IH]; intros t Ht; simpl; [exact Ht|].
    apply IH. apply Map_set_Forall; simpl; try exact Ht; [reflexivity|].
    intros _ _ _ _. reflexivity. }
  apply H. constructor.
Qed.

Lemma Map_get_Forall (Q : Z * standing -> Prop) k t r :
  Forall Q t -> Map_get k t = Some r -> Q (k, r).
Proof.
  unfold Map_get. intros Hall H.
  destruct (find (fun e => fst e =? k) t) as [[k' r']|] eqn:E; [|discriminate].
  injection H as <-. apply find_some_key in E. destruct E as [Hin Hk].
  simpl in Hk. subst k'. rewrite Forall_forall in Hall. now apply Hall.
Qed.

Lemma new_Map_keyed ts : keyed (new_Map (map zero_row ts)).
Proof.
  unfold new_Map, keyed.
  assert (H : forall t,
             Forall (fun e => s_team_id (snd e) = fst e) t ->
             Forall (fun e => s_team_id (snd e) = fst e)
                    (fold_left (fun t e => Map_set (fst e) (snd e) t)
                               (map zero_row ts) t)).
  { induction ts as [|x ts IH]; intros t Ht; simpl; [exact Ht|].
    apply IH. apply Map_set_Forall; simpl; try exact Ht; [reflexivity|].
    intros k' _ _ Hk. now subst. }
  apply H. constructor.
Qed.

(** A registered team whose rows of the matches query (if it has any) all
    have a side that is not registered keeps a row with every counter at zero:
    such matches are skipped by the loop. *)
Lemma team_without_counted_match_has_zero_row :
  forall lc d cid k,
    In k (map t_id (registered_teams d cid)) ->
    (forall m, In m (finished_rows d cid) ->
               m_home_team_id m = k \/ m_away_team_id m = k ->
               ~ In (m_home_team_id m) (map t_id (registered_teams d cid)) \/
               ~ In (m_away_team_id m) (map t_id (registered_teams d cid))) ->
    exists name,
      Map_get k (loop_table d cid)
      = Some (mkStanding k name 0 0 0 0 0 0 0 0) /\
      In (mkStanding k name 0 0 0 0 0 0 0 0) (ranked_rows lc d cid).
Proof.
  intros lc d cid k Hreg Hskip.
  set (t0 := new_Map (map zero_row (registered_teams d cid))).
  assert (Hkeys0 : forall x, In x (map fst t0)
                             <-> In x (map t_id (registered_teams d cid))).
  { intros x. unfold t0. rewrite new_Map_keys, map_map. reflexivity. }
  assert (Hget0 : exists r, Map_get k t0 = Some r)
    by (apply Map_get_keys, Hkeys0, Hreg).
  destruct Hget0 as (r & Hget0).
  assert (Hzero : zero_counters r).
  { exact (Map_get_Forall _ k t0 r (new_Map_zero _) Hget0). }
  assert (Hid : s_team_id r = k)
    by exact (Map_get_Forall _ k t0 r (new_Map_keyed _) Hget0).
  assert (Hfinal : Map_get k (loop_table d cid) = Some r).
  { unfold loop_table, standings_table. fold t0.
    assert (G : forall ms t,
               (forall m, In m ms -> In m (finished_rows d cid)) ->
               map fst t = map fst t0 -> Map_get k t = Some r ->
               Map_get k (fold_left tally ms t) = Some r).
    { induction ms as [|m ms IH]; intros t Hsub Hk Hget; simpl; [exact Hget|].
      apply IH.
      - intros m' Hin. apply Hsub. now right.
      - now rewrite tally_keys.
      - destruct (Z.eq_dec (m_home_team_id m) k) as [Hh | Hh];
          [|destruct (Z.eq_dec (m_away_team_id m) k) as [Ha | Ha]].
        + assert (Hs := Hskip m (Hsub m (or_introl eq_refl)) (or_introl Hh)).
          unfold tally.
          destruct Hs as [Hs | Hs]; rewrite <- Hkeys0, <- Hk in Hs;
            apply Map_get_None_keys in Hs; rewrite Hs;
            [exact Hget|].
          destruct (Map_get (m_home_team_id m) t); exact Hget.
        + assert (Hs := Hskip m (Hsub m (or_introl eq_refl)) (or_intror Ha)).
          unfold tally.
          destruct Hs as [Hs | Hs]; rewrite <- Hkeys0, <- Hk in Hs;
            apply Map_get_None_keys in Hs; rewrite Hs;
            [exact Hget|].
          destruct (Map_get (m_home_team_id m) t); exact Hget.
        + rewrite tally_get_other by congruence. exact Hget. }
    apply G; auto. }
  exists (s_team r). rewrite Hzero, Hid in Hfinal.
  split; [exact Hfinal|].
  apply (Permutation_in _
           (Permutation_sym (ranked_rows_Permutation lc d cid))).
  now apply (Map_get_In k).
Qed.

(** ** Totals over the standings *)

Lemma total_app f l1 l2 : total f (l1 ++ l2) = total f l1 + total f l2.
Proof. induction l1 as [|x l IH]; simpl; [reflexivity | rewrite IH; lia]. Qed.

Lemma total_Permutation f l1 l2 :
  Permutation l1 l2 -> total f l1 = total f l2.
Proof. induction 1; simpl; lia. Qed.

Lemma tally_both_cons e t m :
  tally_both (e :: t) m = (tally_both [e] m ++ tally_both t m)%list.
Proof.
  unfold tally_both.
  repeat match goal with |- context [if ?c then _ else _] => destruct c end;
    reflexivity.
Qed.

Lemma tally_both_single k r m :
  let out := Map_values (tally_both [(k, r)] m) in
  let h := Z.b2z (k =? m_home_team_id m) in
  let a := Z.b2z (k =? m_away_team_id m) in
  total GF out - total GA out
  = GF r - GA r + (h - a) * (m_home_score m - m_away_score m) /\
  total W out - total L out = W r - L r + (h - a) * result_sign m /\
  total P out = P r + h + a.
Proof.
  unfold tally_both, result_sign.
  destruct (m_away_score m <? m_home_score m);
    [|destruct (m_home_score m <? m_away_score m)];
    rewrite !Map_modify_map; cbn [map]; rewrite !entry_modify_pair;
    destruct r;
    destruct (k =? m_home_team_id m), (k =? m_away_team_id m);
    cbv [Map_values map snd total fold_right Z.b2z
         inc_P inc_W inc_D inc_L add_GF add_GA set_GD add_PTS
         P W D L GF GA GD PTS];
    repeat split; lia.
Qed.

Lemma tally_both_totals t m :
  let out := Map_values (tally_both t m) in
  let rows := Map_values t in
  let h := key_count (m_home_team_id m) t in
  let a := key_count (m_away_team_id m) t in
  total GF out - total GA out
  = total GF rows - total GA rows
    + (h - a) * (m_home_score m - m_away_score m) /\
  total W out - total L out
  = total W rows - total L rows + (h - a) * result_sign m /\
  total P out = total P rows + h + a.
Proof.
  induction t as [|[k r] t IH].
  - cbn. unfold tally_both.
    repeat match goal with |- context [if ?c then _ else _] => destruct c end;
      cbn; repeat split; lia.
  - rewrite tally_both_cons. cbv zeta in *.
    unfold Map_values in *. rewrite map_app, !total_app.
    destruct (tally_both_single k r m) as (H1 & H2 & H3).
    unfold Map_values in H1, H2, H3.
    destruct IH as (I1 & I2 & I3).
    cbn [map total fold_right key_count fst snd].
    fold (key_count (m_home_team_id m) t) (key_count (m_away_team_id m) t).
    fold (total GF (map snd t)) (total GA (map snd t)) (total W (map snd t))
         (total L (map snd t)) (total P (map snd t)).
    repeat split; nia.
Qed.

Lemma key_count_absent k t : ~ In k (map fst t) -> key_count k t = 0.
Proof.
  induction t as [|e t IH]; simpl; [reflexivity|].
  intros Hnotin. rewrite IH by tauto.
  destruct (fst e =? k) eqn:E; [|reflexivity].
  apply Z.eqb_eq in E. tauto.
Qed.

Lemma key_count_one k t :
  NoDup (map fst t) -> In k (map fst t) -> key_count k t = 1.
Proof.
  induction t as [|e t IH]; simpl; [intros _ []|].
  intros Hnd Hin. inversion Hnd as [|? ? Hnotin Hnd']; subst.
  destruct (fst e =? k) eqn:E.
  - apply Z.eqb_eq in E. subst k. now rewrite key_count_absent.
  - destruct Hin as [Heq | Hin]; [apply Z.eqb_neq in E; contradiction|].
    rewrite IH by assumption. reflexivity.
Qed.

Lemma is_some_Map_get k t : is_some (Map_get k t) = true <-> In k (map fst t).
Proof.
  rewrite Map_get_keys. destruct (Map_get k t) as [v|]; simpl; split.
  - intros _. now exists v.
  - reflexivity.
  - discriminate.
  - intros (v & Hv). discriminate.
Qed.

(** One iteration of the loop, in totals. *)
Lemma tally_totals t m :
  NoDup (map fst t) ->
  let out := Map_values (tally t m) in
  let rows := Map_values t in
  total GF out - total GA out = total GF rows - total GA rows /\
  total W out - total L out = total W rows - total L rows /\
  total P out
  = total P rows
    + (if is_some (Map_get (m_home_team_id m) t)
          && is_some (Map_get (m_away_team_id m) t) then 2 else 0).
Proof.
  intros Hnd. cbv zeta. unfold tally.
  destruct (Map_get (m_home_team_id m) t) as [home|] eqn:Hh;
    [|cbn; repeat split; lia].
  destruct (Map_get (m_away_team_id m) t) as [away|] eqn:Ha;
    [|cbn; repeat split; lia].
  destruct (tally_both_totals t m) as (H1 & H2 & H3).
  rewrite !key_count_one in H1, H2, H3
    by (try exact Hnd; apply Map_get_keys; eauto).
  cbn [is_some andb]. repeat split; lia.
Qed.

Lemma fold_tally_totals ms :
  forall t,
    NoDup (map fst t) ->
    let out := Map_values (fold_left tally ms t) in
    let rows := Map_values t in
    total GF out - total GA out = total GF rows - total GA rows /\
    total W out - total L out = total W rows - total L rows /\
    total P out
    = total P rows
      + 2 * Z.of_nat
              (List.length
                 (filter (fun m => is_some (Map_get (m_home_team_id m) t)
                                   && is_some (Map_get (m_away_team_id m) t))
                         ms)).
Proof.
  induction ms as [|m ms IH]; intros t Hnd; cbv zeta.
  - cbn [fold_left filter List.length Z.of_nat]. repeat split; lia.
  - cbn [fold_left filter].
    assert (Hnd' : NoDup (map fst (tally t m))) by now rewrite tally_keys.
    destruct (IH (tally t m) Hnd') as (I1 & I2 & I3).
    destruct (tally_totals t m Hnd) as (T1 & T2 & T3).
    assert (Hsame : forall k, is_some (Map_get k (tally t m))
                              = is_some (Map_get k t)).
    { intros k. apply eq_true_iff_eq. rewrite !is_some_Map_get.
      now rewrite tally_keys. }
    rewrite (filter_ext _
               (fun m0 => is_some (Map_get (m_home_team_id m0) t)
                          && is_some (Map_get (m_away_team_id m0) t)))
      in I3 by (intros m0; now rewrite !Hsame).
    destruct (is_some (Map_get (m_home_team_id m) t)
              && is_some (Map_get (m_away_team_id m) t));
      cbn [List.length]; repeat split; lia.
Qed.

Lemma total_zero f t :
  Forall (fun e => zero_counters (snd e)) t ->
  (forall k name, f (mkStanding k name 0 0 0 0 0 0 0 0) = 0) ->
  total f (Map_values t) = 0.
Proof.
  intros Hall Hf. induction Hall as [|e t He _ IH]; simpl; [reflexivity|].
  rewrite IH, He, Hf. reflexivity.
Qed.

Lemma registered_iff d cid k :
  registered d cid k = true <-> In k (map t_id (registered_teams d cid)).
Proof.
  unfold registered. rewrite existsb_exists, in_map_iff. split.
  - intros (t & Hin & Hk). apply Z.eqb_eq in Hk. now exists t.
  - intros (t & Hk & Hin). exists t. split; [exact Hin | now apply Z.eqb_eq].
Qed.

Lemma standings_totals lc d cid :
  let rows := ranked_rows lc d cid in
  total GF rows = total GA rows /\
  total W rows = total L rows /\
  total P rows
  = 2 * Z.of_nat (List.length (filter (counted d cid)
                                      (finished_rows d cid))).
Proof.
  cbv zeta.
  rewrite !(total_Permutation _ _ _ (ranked_rows_Permutation lc d cid)).
  unfold loop_table, standings_table.
  set (t0 := new_Map (map zero_row (registered_teams d cid))).
  destruct (fold_tally_totals (finished_rows d cid) t0 (new_Map_NoDup _))
    as (H1 & H2 & H3).
  rewrite (total_zero GF t0 (new_Map_zero _)),
    (total_zero GA t0 (new_Map_zero _)) in H1 by reflexivity.
  rewrite (total_zero W t0 (new_Map_zero _)),
    (total_zero L t0 (new_Map_zero _)) in H2 by reflexivity.
  rewrite (total_zero P t0 (new_Map_zero _)) in H3 by reflexivity.
  rewrite (filter_ext _ (counted d cid)) in H3.
  - repeat split; lia.
  - intros m. unfold counted. f_equal; apply eq_true_iff_eq;
      rewrite is_some_Map_get, registered_iff; unfold t0;
      rewrite new_Map_keys, map_map; reflexivity.
Qed.

Lemma total_GD rows :
  Forall row_consistent rows -> total GD rows = total GF rows - total GA rows.
Proof.
  induction 1 as [|r rows (_ & _ & Hr) _ IH]; simpl; lia.
Qed.

(** X15.  Whenever the standings request answers rows, over those rows the
    goals scored equal the goals conceded, the wins equal the losses, and the
    goal differences add up to zero. *)
Theorem standings_totals_balance :
  forall lc dqs d cid rows,
    computeStandings lc dqs d cid = Ok rows ->
    total GF rows = total GA rows /\
    total W rows = total L rows /\
    total GD rows = 0.
Proof.
  intros lc dqs d cid rows Hok.
  apply computeStandings_Ok in Hok. destruct Hok as [_ ->].
  destruct (standings_totals lc d cid) as (HGF & HWL & _).
  split; [exact HGF | split; [exact HWL|]].
  rewrite total_GD; [lia|]. apply ranked_rows_consistent.
Qed.

Lemma standings_totals_balance_witness :
  3 + (1 + 0) = 1 + (3 + 0) /\ 1 + (0 + 0) = 0 + (1 + 0) /\ 2 + (-2 + 0) = 0.
Proof.
  assert (Hok : computeStandings codeUnitCompare true falcon_3_river_1 1
                = Ok [mkStanding 1 "Falcon FC" 1 1 0 0 3 1 2 3;
                      mkStanding 2 "River United" 1 0 0 1 1 3 (-2) 0])
    by (vm_compute; reflexivity).
  exact (standings_totals_balance codeUnitCompare true
                                  falcon_3_river_1 1 _ Hok).
Defined.

(** X16.  Whenever the standings request answers rows, their played counts
    add up to twice the number of FINISHED matches of the competition whose
    two sides are both registered: every such match is counted once for each
    side and no other match is counted at all. *)
Theorem played_total_is_twice_the_counted_matches :
  forall lc dqs d cid rows,
    computeStandings lc dqs d cid = Ok rows ->
    total P rows
    = 2 * Z.of_nat (List.length (filter (counted d cid)
                                        (select_matches "FINISHED" d cid))).
Proof.
  intros lc dqs d cid rows Hok.
  apply computeStandings_Ok in Hok. destruct Hok as [_ ->].
  now destruct (standings_totals lc d cid) as (_ & _ & HP).
Qed.

Lemma played_total_is_twice_the_counted_matches_witness :
  1 + (1 + 0) = 2 * Z.of_nat 1.
Proof.
  assert (Hok : computeStandings codeUnitCompare true falcon_3_river_1 1
                = Ok [mkStanding 1 "Falcon FC" 1 1 0 0 3 1 2 3;
                      mkStanding 2 "River United" 1 0 0 1 1 3 (-2) 0])
    by (vm_compute; reflexivity).
  exact (played_total_is_twice_the_counted_matches
           codeUnitCompare true falcon_3_river_1 1 _ Hok).
Defined.

(** ** Events and the standings *)

Lemma applyEvent_teams_registrations d id req :
  teams (fst (applyEvent d id req)) = teams d /\
  registrations (fst (applyEvent d id req)) = registrations d.
Proof.
  destruct (applyEvent_cases d id req)
    as [[_ ->] | [(e & _ & _ & ->) | (d1 & eid & m & _ & Hins & _ & ->)]];
    [now split | now split |].
  cbn [fst].
  apply insert_match_event_inr in Hins.
  destruct Hins as (_ & _ & _ & _ & _ & _ & ->).
  match goal with
  | |- context [card_updates ?x req] =>
      pose proof (card_updates_frame x req) as (Ht & _ & Hr & _)
  end.
  rewrite Ht, Hr. destruct (is_goal_type req); [|now split].
  match goal with
  | |- context [update_player_if ?c ?p ?f ?x] =>
      pose proof (update_player_if_frame c p f x) as (Ht' & _ & Hr' & _)
  end.
  rewrite Ht', Hr'. now split.
Qed.

Lemma filter_map_same {A} (keep : A -> bool) (f : A -> A) (l : list A) :
  (forall x, In x l -> keep x = true -> f x = x) ->
  (forall x, In x l -> keep (f x) = keep x) ->
  filter keep (map f l) = filter keep l.
Proof.
  induction l as [|x l IH]; intros Hfix Hkeep; simpl; [reflexivity|].
  rewrite Hkeep by now left.
  rewrite IH;
    [| intros y Hy Hk; apply Hfix; [now right | exact Hk]
     | intros y Hy; apply Hkeep; now right].
  destruct (keep x) eqn:E; [|reflexivity].
  now rewrite (Hfix x (or_introl eq_refl) E).
Qed.

Lemma ranked_rows_after_open_event lc d id req cid :
  (forall m, In m (matches d) -> m_id m = id -> m_status m <> "FINISHED") ->
  ranked_rows lc (fst (applyEvent d id req)) cid = ranked_rows lc d cid.
Proof.
  intros Hopen.
  destruct (applyEvent_teams_registrations d id req) as (Ht & Hr).
  destruct (applyEvent_matches d id req) as (hi & ai & _ & _ & Hms).
  unfold ranked_rows, loop_table, standings_table, registered_teams,
    finished_rows, select_matches.
  rewrite Ht, Hr, Hms. rewrite filter_map_same; [reflexivity | |].
  - intros m Hin Hkeep. unfold add_scores.
    destruct (m_id m =? id) eqn:E; [|reflexivity].
    apply Z.eqb_eq in E. apply andb_true_iff in Hkeep.
    destruct Hkeep as [_ Hst]. apply String.eqb_eq in Hst.
    now destruct (Hopen m Hin E).
  - intros m _. unfold add_scores. destruct (m_id m =? id); reflexivity.
Qed.

(** The answer of the standings request is a function of the engine's option
    and of the ranked rows. *)
Lemma computeStandings_ext lc dqs d d' cid cid' :
  ranked_rows lc d' cid' = ranked_rows lc d cid ->
  computeStandings lc dqs d' cid' = computeStandings lc dqs d cid.
Proof.
  intros H. destruct dqs.
  - rewrite !computeStandings_accepted. now rewrite H.
  - now rewrite !computeStandings_refused.
Qed.

(** X17.  An event on a match that is not FINISHED (or on no match at all)
    leaves the answer of the standings request as it was, for every
    competition and on every engine: scores enter the table only once the
    match is finished. *)
Theorem event_on_unfinished_match_keeps_standings :
  forall lc dqs d id req cid,
    (forall m, In m (matches d) -> m_id m = id -> m_status m <> "FINISHED") ->
    computeStandings lc dqs (fst (applyEvent d id req)) cid
    = computeStandings lc dqs d cid.
Proof.
  intros lc dqs d id req cid Hopen.
  apply computeStandings_ext. now apply ranked_rows_after_open_event.
Qed.

Lemma event_on_unfinished_match_keeps_standings_witness :
  computeStandings codeUnitCompare true
                   (fst (applyEvent seed_db 1 (goal_by 3 1))) 1
  = computeStandings codeUnitCompare true seed_db 1.
Proof.
  apply event_on_unfinished_match_keeps_standings.
  intros m [<- | []] _. discriminate.
Defined.

(** ** Roles *)

Lemma requireRole_false roles x_role :
  (forall role, In role roles -> header_role x_role <> role) ->
  requireRole roles x_role = false.
Proof.
  intros Hno. unfold requireRole.
  destruct (includes roles (header_role x_role)) eqn:E; [|reflexivity].
  apply includes_In in E. now destruct (Hno _ E).
Qed.

Lemma guard_refuses {A} roles x_role (h : db -> db * A) d :
  requireRole roles x_role = false -> guard roles x_role h d = (d, Forbidden).
Proof. unfold guard. now intros ->. Qed.

(** X18.  A request whose X-Role header is absent, empty or anything other
    than admin, coach and referee is answered 403 by every guarded route, and
    the store is left as it was. *)
Theorem unknown_role_is_refused_everywhere :
  forall x_role,
    header_role x_role <> "admin" ->
    header_role x_role <> "coach" ->
    header_role x_role <> "referee" ->
    (forall r d, serve x_role r d = (d, Forbidden)) /\
    (forall comps cid tid d,
       route_register comps x_role cid tid d = (d, Forbidden)).
Proof.
  intros x_role Ha Hc Hr. split.
  - intros r d. apply guard_refuses, requireRole_false.
    intros role Hin. destruct r; cbn in Hin; intuition congruence.
  - intros comps cid tid d. apply guard_refuses, requireRole_false.
    intros role Hin. cbn in Hin. intuition congruence.
Qed.

Lemma unknown_role_is_refused_everywhere_witness :
  serve None (POST_match_event 1 (goal_by 3 1)) seed_db
  = (seed_db, Forbidden) /\
  serve (Some "") (DELETE_team 1) seed_db = (seed_db, Forbidden).
Proof.
  split.
  - now apply (proj1 (unknown_role_is_refused_everywhere None
                        ltac:(discriminate) ltac:(discriminate)
                        ltac:(discriminate))).
  - now apply (proj1 (unknown_role_is_refused_everywhere (Some "")
                        ltac:(discriminate) ltac:(discriminate)
                        ltac:(discriminate))).
Defined.

Lemma deletePlayer_matches d id : matches (fst (deletePlayer d id)) = matches d.
Proof.
  unfold deletePlayer.
  destruct (negb (existsb (fun p => p_id p =? id) (players d))); reflexivity.
Qed.

Lemma deletePlayer_teams d id : teams (fst (deletePlayer d id)) = teams d.
Proof.
  unfold deletePlayer.
  destruct (negb (existsb (fun p => p_id p =? id) (players d))); reflexivity.
Qed.

Lemma updatePlayer_teams d id body :
  teams (fst (updatePlayer d id body)) = teams d.
Proof.
  unfold updatePlayer.
  repeat match goal with |- context [if ?c then _ else _] => destruct c end;
    reflexivity.
Qed.

Lemma setMatchStatus_frame d id status :
  teams (fst (setMatchStatus d id status)) = teams d /\
  map m_id (matches (fst (setMatchStatus d id status))) = map m_id (matches d).
Proof.
  unfold setMatchStatus.
  destruct (negb (includes match_statuses status)); cbn [fst];
    [now split|].
  split; [reflexivity|]. cbn. rewrite map_map. apply map_ext.
  apply set_status_id.
Qed.

(** X19.  What a role can reach.  Only an admin or a referee request can
    change a row of the matches table; only an admin request can remove a
    team, or add or remove a match; and an admin request passes the guard of
    every route. *)
Theorem roles_bound_what_a_request_changes :
  forall x_role r d,
    (header_role x_role <> "admin" -> header_role x_role <> "referee" ->
     matches (fst (serve x_role r d)) = matches d) /\
    (header_role x_role <> "admin" ->
     teams (fst (serve x_role r d)) = teams d /\
     map m_id (matches (fst (serve x_role r d))) = map m_id (matches d)) /\
    (header_role x_role = "admin" ->
     serve x_role r d = (fst (handler r d), Answered (snd (handler r d)))).
Proof.
  intros x_role r d. unfold serve, guard, requireRole.
  split; [|split].
  - intros Ha Hr.
    destruct (includes (allowed_roles r) (header_role x_role)) eqn:E;
      [|reflexivity].
    apply includes_In in E. cbn [fst].
    destruct r; cbn in E; try (exfalso; intuition congruence); cbn [handler].
    + apply updatePlayer_matches.
    + apply deletePlayer_matches.
  - intros Ha.
    destruct (includes (allowed_roles r) (header_role x_role)) eqn:E;
      [|now split].
    apply includes_In in E. cbn [fst].
    destruct r; cbn in E; try (exfalso; intuition congruence); cbn [handler].
    + now rewrite updatePlayer_teams, updatePlayer_matches.
    + now rewrite deletePlayer_teams, deletePlayer_matches.
    + apply setMatchStatus_frame.
    + destruct (applyEvent_teams_registrations d id req) as (Ht & _).
      destruct (applyEvent_matches d id req) as (hi & ai & _ & _ & Hms).
      split; [exact Ht|]. rewrite Hms, map_map. apply map_ext.
      apply add_scores_id.
  - intros Ha. rewrite Ha. now destruct r.
Qed.

Lemma roles_bound_what_a_request_changes_witness :
  matches (fst (serve (Some "coach") (POST_match_status 1 "FINISHED") seed_db))
  = matches seed_db /\
  serve (Some "admin") (POST_match_status 1 "FINISHED") seed_db
  = (fst (setMatchStatus seed_db 1 "FINISHED"),
     Answered (snd (setMatchStatus seed_db 1 "FINISHED"))).
Proof.
  split.
  - apply (proj1 (roles_bound_what_a_request_changes
                    (Some "coach") (POST_match_status 1 "FINISHED") seed_db));
      discriminate.
  - now apply (proj2 (proj2 (roles_bound_what_a_request_changes
                    (Some "admin") (POST_match_status 1 "FINISHED") seed_db))).
Defined.

(** ** Deleting a team or a player *)

Lemma existsb_key_In {A} (key : A -> Z) (k : Z) (l : list A) :
  existsb (fun x => key x =? k) l = true <-> In k (map key l).
Proof.
  rewrite existsb_exists, in_map_iff. split.
  - intros (x & Hin & Hk). apply Z.eqb_eq in Hk. now exists x.
  - intros (x & Hk & Hin). exists x. split; [exact Hin | now apply Z.eqb_eq].
Qed.

Lemma find_filter_out {A} (key : A -> Z) (k : Z) (l : list A) :
  find (fun x => key x =? k) (filter (fun x => negb (key x =? k)) l) = None.
Proof.
  induction l as [|x l IH]; simpl; [reflexivity|].
  destruct (key x =? k) eqn:E; simpl; [exact IH | now rewrite E].
Qed.

Lemma find_filter_other {A} (key : A -> Z) (k k' : Z) (l : list A) :
  k' <> k ->
  find (fun x => key x =? k') (filter (fun x => negb (key x =? k)) l)
  = find (fun x => key x =? k') l.
Proof.
  intros Hne. induction l as [|x l IH]; simpl; [reflexivity|].
  destruct (key x =? k) eqn:E; simpl.
  - rewrite IH. apply Z.eqb_eq in E.
    destruct (key x =? k') eqn:E'; [apply Z.eqb_eq in E'; congruence|].
    reflexivity.
  - destruct (key x =? k'); [reflexivity | exact IH].
Qed.

(** X20.  Deleting a team that exists takes with it its players, its
    registrations and every match it plays in, and clears its id from the
    events that stay; every player of another team and every match between
    other teams is kept as it was.  The answer counts the deleted team
    rows. *)
Theorem deleting_a_team_cascades :
  forall d id,
    In id (team_ids d) ->
    let d' := fst (deleteTeam d id) in
    get_team d' id = None /\
    (forall id', id' <> id -> get_team d' id' = get_team d id') /\
    (forall p, In p (players d') <-> In p (players d) /\ p_team_id p <> id) /\
    (forall r, In r (registrations d')
               <-> In r (registrations d) /\ r_team_id r <> id) /\
    (forall m, In m (matches d')
               <-> In m (matches d) /\
                   m_home_team_id m <> id /\ m_away_team_id m <> id) /\
    (forall e, In e (match_events d') ->
               e_team_id e <> Some id /\
               forall m, In m (matches d) -> m_id m = e_match_id e ->
                         m_home_team_id m <> id /\ m_away_team_id m <> id) /\
    snd (deleteTeam d id) = Ok (changes (fun t => t_id t =? id) (teams d)) /\
    1 <= changes (fun t => t_id t =? id) (teams d).
Proof.
  intros d id Hin. cbv zeta. unfold deleteTeam.
  assert (Hex : existsb (fun t => t_id t =? id) (teams d) = true)
    by now apply existsb_key_In.
  rewrite Hex. cbn [negb fst snd].
  unfold get_team. cbn [teams players registrations matches match_events].
  split; [apply find_filter_out|].
  split; [intros id' Hne; now apply find_filter_other|].
  split; [|split; [|split; [|split; [|split; [reflexivity|]]]]].
  - intros p. rewrite filter_In, negb_true_iff, Z.eqb_neq. reflexivity.
  - intros r. rewrite filter_In, negb_true_iff, Z.eqb_neq. reflexivity.
  - intros m. rewrite filter_In. unfold team_plays.
    rewrite negb_true_iff, orb_false_iff, !Z.eqb_neq. reflexivity.
  - intros e He. apply in_map_iff in He. destruct He as (e0 & <- & He0).
    cbn [set_event_refs e_team_id e_match_id]. split.
    + destruct (e_team_id e0) as [t|]; cbn; [|discriminate].
      destruct (id =? t) eqn:E; [discriminate|].
      apply Z.eqb_neq in E. congruence.
    + intros m Hm Hid. apply filter_In in He0. destruct He0 as [_ Hkept].
      apply negb_true_iff in Hkept.
      destruct (team_plays id m) eqn:Hplays.
      * assert (Hlost : existsb (fun m => (m_id m =? e_match_id e0)
                                          && team_plays id m) (matches d)
                        = true).
        { apply existsb_exists. exists m. split; [exact Hm|].
          now rewrite Hid, Z.eqb_refl, Hplays. }
        congruence.
      * unfold team_plays in Hplays. apply orb_false_iff in Hplays.
        now rewrite !Z.eqb_neq in Hplays.
  - unfold changes. apply existsb_exists in Hex.
    destruct Hex as (t & Ht & Hk).
    assert (Hf : In t (filter (fun t => t_id t =? id) (teams d)))
      by now apply filter_In.
    destruct (filter (fun t => t_id t =? id) (teams d)); [destruct Hf|].
    cbn [List.length]. lia.
Qed.

Lemma deleting_a_team_cascades_witness :
  get_team (fst (deleteTeam falcon_3_river_1 2)) 2 = None /\
  matches (fst (deleteTeam falcon_3_river_1 2)) = [] /\
  match_events (fst (deleteTeam falcon_3_river_1 2)) = [] /\
  List.length (players (fst (deleteTeam falcon_3_river_1 2))) = 3%nat.
Proof.
  assert (Hin : In 2 (team_ids falcon_3_river_1)) by (vm_compute; auto).
  pose proof (deleting_a_team_cascades falcon_3_river_1 2 Hin) as H.
  cbv zeta in H. destruct H as (Hteam & _).
  split; [exact Hteam|]. vm_compute. repeat split.
Defined.

Lemma standings_ids_registered lc d cid k :
  In k (map s_team_id (ranked_rows lc d cid))
  <-> In k (map t_id (registered_teams d cid)).
Proof.
  destruct (loop_table_keys d cid) as [_ Hkeys]. rewrite <- Hkeys.
  rewrite <- (keyed_ids _ (loop_table_keyed d cid)).
  split; apply Permutation_in; apply Permutation_map;
    [|apply Permutation_sym]; apply ranked_rows_Permutation.
Qed.

Lemma registered_teams_are_teams d cid t :
  In t (registered_teams d cid) -> In t (teams d).
Proof.
  unfold registered_teams. rewrite in_flat_map.
  intros (t' & Hin & Hmap). apply in_map_iff in Hmap.
  destruct Hmap as (_ & <- & _). exact Hin.
Qed.

(** X21.  After a team has been deleted, whenever the standings request
    answers rows none of them is a row of that team, for any competition and
    whether or not the team existed. *)
Theorem deleted_team_leaves_every_standings :
  forall lc dqs d id cid rows,
    computeStandings lc dqs (fst (deleteTeam d id)) cid = Ok rows ->
    ~ In id (map s_team_id rows).
Proof.
  intros lc dqs d id cid rows Hok Hin.
  apply computeStandings_Ok in Hok. destruct Hok as [_ ->].
  apply standings_ids_registered in Hin.
  apply in_map_iff in Hin. destruct Hin as (t & Hid & Hreg).
  apply registered_teams_are_teams in Hreg.
  unfold deleteTeam in Hreg.
  destruct (existsb (fun t => t_id t =? id) (teams d)) eqn:Hex;
    cbn [negb fst teams] in Hreg.
  - apply filter_In in Hreg. destruct Hreg as [_ Hne].
    apply negb_true_iff, Z.eqb_neq in Hne. contradiction.
  - assert (Hex' : existsb (fun t => t_id t =? id) (teams d) = true)
      by (apply existsb_exists; exists t; split;
          [exact Hreg | now apply Z.eqb_eq]).
    congruence.
Qed.

Lemma deleted_team_leaves_every_standings_witness :
  ~ In 2 (map s_team_id [mkStanding 1 "Falcon FC" 0 0 0 0 0 0 0 0]).
Proof.
  assert (Hok : computeStandings codeUnitCompare true
                                 (fst (deleteTeam falcon_3_river_1 2)) 1
                = Ok [mkStanding 1 "Falcon FC" 0 0 0 0 0 0 0 0])
    by (vm_compute; reflexivity).
  exact (deleted_team_leaves_every_standings
           codeUnitCompare true falcon_3_river_1 2 1 _ Hok).
Defined.



(** ** Registration *)

Lemma squad_max_age_bounds d tid p :
  In p (squad d tid) ->
  exists a, squad_max_age d tid = Some a /\ p_age p <= a.
Proof.
  unfold squad_max_age. induction (squad d tid) as [|q l IH]; [intros []|].
  intros [<- | Hin]; simpl.
  - destruct (fold_right _ None l) as [a|]; eexists; split;
      try reflexivity; lia.
  - destruct (IH Hin) as (a & -> & Hle). eexists. split; [reflexivity | lia].
Qed.

(** The checks that a registration has passed. *)
Lemma registerTeam_Registered comps cid tid d d' :
  registerTeam comps cid tid d = (d', Registered) ->
  exists comp,
    find (fun c => cr_id c =? cid) comps = Some comp /\
    (squad_count d tid <? cr_min_squad comp) = false /\
    (cr_max_squad comp <? squad_count d tid) = false /\
    truthy (cr_age_limit comp)
    && (null_as_zero (cr_age_limit comp)
        <? null_as_zero (squad_max_age d tid)) = false /\
    existsb (same_registration tid cid) (registrations d) = false /\
    is_some (get_team d tid) = true /\
    d' = mkDb (teams d) (players d) (competitions d)
              (registrations d ++ [mkRegistration tid cid])
              (matches d) (match_events d) (seq_matches d)
              (seq_match_events d).
Proof.
  unfold registerTeam.
  destruct (find (fun c => cr_id c =? cid) comps) as [comp|];
    [|discriminate].
  destruct (squad_count d tid <? cr_min_squad comp) eqn:Hmin; [discriminate|].
  destruct (cr_max_squad comp <? squad_count d tid) eqn:Hmax; [discriminate|].
  destruct (truthy (cr_age_limit comp)
            && (null_as_zero (cr_age_limit comp)
                <? null_as_zero (squad_max_age d tid))) eqn:Hage;
    [discriminate|].
  destruct (existsb (same_registration tid cid) (registrations d)) eqn:Hdup;
    [discriminate|].
  destruct (is_some (get_team d tid)) eqn:Ht; cbn [negb andb];
    [|discriminate].
  destruct (is_some (get_competition d cid)); cbn [negb]; [|discriminate].
  intros H. injection H as <-. exists comp. repeat split; auto.
Qed.

(** X23.  A registration is only made for a competition that exists and a
    team that exists, whose squad size lies within the competition's bounds
    and, when the competition has a (non-zero) age limit, has no player older
    than the limit; it adds exactly the one registration row, which was not
    there before. *)
Theorem registration_passes_the_eligibility_checks :
  forall comps cid tid d d',
    registerTeam comps cid tid d = (d', Registered) ->
    exists comp,
      find (fun c => cr_id c =? cid) comps = Some comp /\
      cr_min_squad comp <= squad_count d tid <= cr_max_squad comp /\
      (forall limit, cr_age_limit comp = Some limit -> limit <> 0 ->
         forall p, In p (players d) -> p_team_id p = tid -> p_age p <= limit) /\
      (exists t, get_team d tid = Some t) /\
      ~ In (mkRegistration tid cid) (registrations d) /\
      d' = mkDb (teams d) (players d) (competitions d)
                (registrations d ++ [mkRegistration tid cid])
                (matches d) (match_events d) (seq_matches d)
                (seq_match_events d).
Proof.
  intros comps cid tid d d' Hreg.
  destruct (registerTeam_Registered _ _ _ _ _ Hreg)
    as (comp & Hfind & Hmin & Hmax & Hage & Hdup & Ht & Hd').
  exists comp. split; [exact Hfind|].
  apply Z.ltb_ge in Hmin, Hmax.
  split; [lia|]. split; [|split; [|split; [|exact Hd']]].
  - intros limit Hlimit Hnz p Hp Hteam.
    rewrite Hlimit in Hage. cbn [truthy null_as_zero] in Hage.
    apply Z.eqb_neq in Hnz. rewrite Hnz in Hage. cbn [negb andb] in Hage.
    apply Z.ltb_ge in Hage.
    assert (Hin : In p (squad d tid)).
    { unfold squad. apply filter_In. split; [exact Hp | now apply Z.eqb_eq]. }
    destruct (squad_max_age_bounds d tid p Hin) as (a & Ha & Hle).
    rewrite Ha in Hage. cbn [null_as_zero] in Hage. lia.
  - destruct (get_team d tid) as [t|]; [now exists t | discriminate].
  - intros Hin.
    assert (Hex : existsb (same_registration tid cid) (registrations d) = true).
    { apply existsb_exists. eexists. split; [exact Hin|].
      unfold same_registration. cbn. now rewrite !Z.eqb_refl. }
    congruence.
Qed.

(** X24.  A team is registered at most once in a competition: right after a
    registration the same request fails on the primary key of the
    registrations table, and the store stays as the first one left it. *)
Theorem second_registration_is_refused :
  forall comps cid tid d d',
    registerTeam comps cid tid d = (d', Registered) ->
    registerTeam comps cid tid d' = (d', InsertFailed SQLITE_CONSTRAINT_UNIQUE).
Proof.
  intros comps cid tid d d' Hreg.
  destruct (registerTeam_Registered _ _ _ _ _ Hreg)
    as (comp & Hfind & Hmin & Hmax & Hage & _ & _ & ->).
  unfold registerTeam. rewrite Hfind.
  unfold squad_count, squad_max_age, squad in *. cbn [players registrations].
  rewrite Hmin, Hmax, Hage.
  rewrite existsb_app. cbn [existsb]. unfold same_registration at 2.
  cbn [r_team_id r_competition_id].
  now rewrite !Z.eqb_refl, orb_true_r.
Qed.

(** X25.  A registration that fails, for whatever reason, leaves the store as
    it was; one that succeeds makes the team one of those that the
    registration query of the standings handler returns for that competition,
    and whenever the standings request answers rows the team has a row. *)
Theorem registered_team_enters_the_standings :
  forall lc dqs comps cid tid d,
    match snd (registerTeam comps cid tid d) with
    | Registered =>
        let d' := fst (registerTeam comps cid tid d) in
        In tid (map t_id (registered_teams d' cid)) /\
        forall rows, computeStandings lc dqs d' cid = Ok rows ->
                     In tid (map s_team_id rows)
    | _ => fst (registerTeam comps cid tid d) = d
    end.
Proof.
  intros lc dqs comps cid tid d.
  destruct (registerTeam comps cid tid d) as [d' a] eqn:Hreg.
  destruct a; cbn [fst snd];
    try (unfold registerTeam in Hreg;
         repeat match type of Hreg with
                | context [match ?c with _ => _ end] => destruct c
                end;
         now inversion Hreg).
  cbv zeta.
  assert (Hin : In tid (map t_id (registered_teams d' cid))).
  { destruct (registerTeam_Registered _ _ _ _ _ Hreg)
      as (comp & _ & _ & _ & _ & _ & Ht & ->).
    destruct (get_team d tid) as [t|] eqn:Hget; [|discriminate].
    apply find_some_key in Hget. destruct Hget as [Hin Hid].
    apply in_map_iff. exists t. split; [exact Hid|].
    unfold registered_teams. cbn [teams registrations].
    apply in_flat_map. exists t. split; [exact Hin|].
    apply in_map_iff. exists (mkRegistration tid cid). split; [reflexivity|].
    apply filter_In. split; [apply in_or_app; right; now left|].
    cbn. now rewrite Hid, !Z.eqb_refl. }
  split; [exact Hin|].
  intros rows Hok. apply computeStandings_Ok in Hok. destruct Hok as [_ ->].
  now apply standings_ids_registered.
Qed.

Lemma registered_team_enters_the_standings_witness :
  In 1 (map t_id (registered_teams
                    (fst (registerTeam seed_competitions 1 1 full_squad_db))
                    1)).
Proof.
  pose proof (registered_team_enters_the_standings
                codeUnitCompare true seed_competitions 1 1 full_squad_db)
    as H.
  assert (Hreg : snd (registerTeam seed_competitions 1 1 full_squad_db)
                 = Registered) by (vm_compute; reflexivity).
  rewrite Hreg in H. cbv zeta in H. exact (proj1 H).
Defined.

Lemma registration_passes_the_eligibility_checks_witness :
  exists comp,
    find (fun c => cr_id c =? 1) seed_competitions = Some comp /\
    cr_min_squad comp <= squad_count full_squad_db 1 <= cr_max_squad comp.
Proof.
  destruct (registration_passes_the_eligibility_checks
              seed_competitions 1 1 full_squad_db
              (fst (registerTeam seed_competitions 1 1 full_squad_db)))
    as (comp & Hfind & Hsize & _).
  - vm_compute. reflexivity.
  - exists comp. split; assumption.
Defined.

Lemma second_registration_is_refused_witness :
  snd (registerTeam seed_competitions 1 1
         (fst (registerTeam seed_competitions 1 1 full_squad_db)))
  = InsertFailed SQLITE_CONSTRAINT_UNIQUE.
Proof.
  rewrite (second_registration_is_refused
             seed_competitions 1 1 full_squad_db
             (fst (registerTeam seed_competitions 1 1 full_squad_db)));
    [reflexivity | vm_compute; reflexivity].
Defined.

(** ** The event listing *)

Lemma by_minute_then_id_le a b :
  by_minute_then_id a b <= 0
  <-> e_minute a < e_minute b \/ (e_minute a = e_minute b /\ e_id a <= e_id b).
Proof.
  unfold by_minute_then_id.
  destruct (Z.eqb_spec (e_minute a) (e_minute b)); lia.
Qed.

(** X26.  The listing of a match holds exactly the logged events of that
    match, each as often as in the log, ordered by minute and, within a
    minute, by id. *)
Theorem event_listing_is_complete_and_ordered :
  forall d id,
    Permutation (listEvents d id)
                (filter (fun e => e_match_id e =? id) (match_events d)) /\
    (forall e, In e (listEvents d id)
               <-> In e (match_events d) /\ e_match_id e = id) /\
    (forall i j a b,
       nth_error (listEvents d id) i = Some a ->
       nth_error (listEvents d id) j = Some b ->
       (i < j)%nat ->
       e_minute a < e_minute b \/
       (e_minute a = e_minute b /\ e_id a <= e_id b)).
Proof.
  intros d id.
  assert (Hperm : Permutation (listEvents d id)
                    (filter (fun e => e_match_id e =? id) (match_events d)))
    by apply sort_Permutation.
  split; [exact Hperm | split].
  - intros e. split.
    + intros He. apply (Permutation_in _ Hperm), filter_In in He.
      destruct He as [Hin Hid]. now apply Z.eqb_eq in Hid.
    + intros [Hin Hid]. apply (Permutation_in _ (Permutation_sym Hperm)).
      apply filter_In. split; [exact Hin | now apply Z.eqb_eq].
  - intros i j a b Hi Hj Hlt. apply by_minute_then_id_le.
    refine (StronglySorted_nth_error by_minute_then_id _
              (sort_StronglySorted by_minute_then_id _ _ _) i j a b Hi Hj Hlt).
    + intros x y. rewrite !by_minute_then_id_le. lia.
    + intros x y z. rewrite !by_minute_then_id_le. lia.
Qed.

Lemma event_listing_is_complete_and_ordered_witness :
  e_minute (mkEvent 2 1 4 "SUB" None (Some 2) None)
  < e_minute (mkEvent 1 1 10 "GOAL" (Some 3) (Some 1) None) \/
  (e_minute (mkEvent 2 1 4 "SUB" None (Some 2) None)
   = e_minute (mkEvent 1 1 10 "GOAL" (Some 3) (Some 1) None) /\
   e_id (mkEvent 2 1 4 "SUB" None (Some 2) None)
   <= e_id (mkEvent 1 1 10 "GOAL" (Some 3) (Some 1) None)).
Proof.
  apply (proj2 (proj2 (event_listing_is_complete_and_ordered
           (fst (applyEvent (fst (applyEvent seed_db 1 (goal_by 3 1))) 1
                            (mkEventReq 4 "SUB" None (Some 2) None))) 1))
         0%nat 1%nat);
    [vm_compute; reflexivity | vm_compute; reflexivity | lia].
Defined.

(** The log after any event request. *)
Lemma applyEvent_log d id req :
  fst (applyEvent d id req) = d \/
  (snd (applyEvent d id req) = Ok (seq_match_events d + 1) /\
   match_events (fst (applyEvent d id req))
   = (match_events d ++ [event_row d id req])%list /\
   seq_match_events (fst (applyEvent d id req)) = seq_match_events d + 1 /\
   seq_matches (fst (applyEvent d id req)) = seq_matches d /\
   competitions (fst (applyEvent d id req)) = competitions d /\
   is_some (get_match d id) = true /\
   fk_ok (get_player d) (player_id req) = true /\
   fk_ok (get_team d) (team_id req) = true).
Proof.
  destruct (applyEvent_cases d id req)
    as [[_ ->] | [(e & _ & _ & ->) | (d1 & eid & m & _ & Hins & _ & ->)]];
    [now left | now left | right].
  cbn [fst snd].
  apply insert_match_event_inr in Hins.
  destruct Hins as (_ & _ & Hm & Hp & Ht & -> & ->).
  match goal with
  | |- context [card_updates ?x req] =>
      pose proof (card_updates_frame x req)
        as (_ & Hc & _ & _ & He & Hsm & Hs)
  end.
  rewrite Hc, He, Hsm, Hs.
  destruct (is_goal_type req); [|cbn; repeat split; assumption].
  match goal with
  | |- context [update_player_if ?c ?p ?f ?x] =>
      pose proof (update_player_if_frame c p f x)
        as (_ & Hc' & _ & _ & He' & Hsm' & Hs')
  end.
  rewrite Hc', He', Hsm', Hs'. cbn. repeat split; assumption.
Qed.

(** X27.  An accepted event shows up in the listing of its match, which
    grows by that one entry, and the listing of every other match stays as it
    was. *)
Theorem accepted_event_is_listed :
  forall d id req d' eid,
    applyEvent d id req = (d', Ok eid) ->
    In (mkEvent eid id (minute req) (type req) (player_id req) (team_id req)
                (notes req))
       (listEvents d' id) /\
    List.length (listEvents d' id) = S (List.length (listEvents d id)) /\
    (forall id', id' <> id -> listEvents d' id' = listEvents d id').
Proof.
  intros d id req d' eid Happ.
  destruct (applyEvent_Ok_seq _ _ _ _ _ Happ) as (Heid & _).
  destruct (applyEvent_log d id req) as [Hsame | (_ & Hlog & _)];
    rewrite Happ in *; cbn [fst snd] in *.
  - exfalso. subst d'.
    destruct (applyEvent_Ok_seq _ _ _ _ _ Happ) as (_ & Hseq). lia.
  - unfold listEvents. rewrite Hlog, filter_app.
    cbn [filter event_row e_match_id]. split; [|split].
    + apply (Permutation_in _ (Permutation_sym (sort_Permutation _ _))).
      rewrite Z.eqb_refl. apply in_or_app. right. left.
      unfold event_row. now rewrite Heid.
    + rewrite !(Permutation_length (sort_Permutation _ _)).
      rewrite Z.eqb_refl, length_app. cbn. lia.
    + intros id' Hne. rewrite filter_app. cbn [filter event_row e_match_id].
      destruct (id =? id') eqn:E; [apply Z.eqb_eq in E; congruence|].
      now rewrite app_nil_r.
Qed.

Lemma accepted_event_is_listed_witness :
  In (mkEvent 1 1 10 "GOAL" (Some 3) (Some 1) None)
     (listEvents (fst (applyEvent seed_db 1 (goal_by 3 1))) 1).
Proof.
  apply (accepted_event_is_listed seed_db 1 (goal_by 3 1)
           (fst (applyEvent seed_db 1 (goal_by 3 1))) 1 eq_refl).
Defined.

(** ** Invariants of the store under every guarded request *)

Lemma Forall_filter_keep {A} (Q : A -> Prop) (f : A -> bool) (l : list A) :
  Forall Q l -> Forall Q (filter f l).
Proof.
  induction 1 as [|x l Hx _ IH]; simpl; [constructor|].
  destruct (f x); [now constructor | exact IH].
Qed.

Lemma deleteTeam_tables d id :
  fst (deleteTeam d id) = d \/
  (teams (fst (deleteTeam d id))
   = filter (fun t => negb (t_id t =? id)) (teams d) /\
   players (fst (deleteTeam d id))
   = filter (fun p => negb (p_team_id p =? id)) (players d) /\
   competitions (fst (deleteTeam d id)) = competitions d /\
   registrations (fst (deleteTeam d id))
   = filter (fun r => negb (r_team_id r =? id)) (registrations d) /\
   matches (fst (deleteTeam d id))
   = filter (fun m => negb (team_plays id m)) (matches d) /\
   match_events (fst (deleteTeam d id))
   = map (fun e =>
            set_event_refs
              (null_if (fun v => existsb (fun p => (p_id p =? v)
                                                   && (p_team_id p =? id))
                                         (players d))
                       (e_player_id e))
              (null_if (Z.eqb id) (e_team_id e)) e)
         (filter (fun e =>
                    negb (existsb (fun m => (m_id m =? e_match_id e)
                                            && team_plays id m)
                                  (matches d)))
                 (match_events d)) /\
   seq_matches (fst (deleteTeam d id)) = seq_matches d /\
   seq_match_events (fst (deleteTeam d id)) = seq_match_events d).
Proof.
  unfold deleteTeam.
  destruct (negb (existsb (fun t => t_id t =? id) (teams d)));
    [now left | right; cbn; repeat split].
Qed.

Lemma deletePlayer_tables d id :
  fst (deletePlayer d id) = d \/
  (teams (fst (deletePlayer d id)) = teams d /\
   players (fst (deletePlayer d id))
   = filter (fun p => negb (p_id p =? id)) (players d) /\
   competitions (fst (deletePlayer d id)) = competitions d /\
   registrations (fst (deletePlayer d id)) = registrations d /\
   matches (fst (deletePlayer d id)) = matches d /\
   match_events (fst (deletePlayer d id))
   = map (fun e => set_event_refs (null_if (Z.eqb id) (e_player_id e))
                                  (e_team_id e) e)
         (match_events d) /\
   seq_matches (fst (deletePlayer d id)) = seq_matches d /\
   seq_match_events (fst (deletePlayer d id)) = seq_match_events d).
Proof.
  unfold deletePlayer.
  destruct (negb (existsb (fun p => p_id p =? id) (players d)));
    [now left | right; cbn; repeat split].
Qed.

Lemma updatePlayer_tables d id body :
  fst (updatePlayer d id body) = d \/
  (teams (fst (updatePlayer d id body)) = teams d /\
   players (fst (updatePlayer d id body))
   = map (fun p => if p_id p =? id then apply_patch body p else p)
         (players d) /\
   competitions (fst (updatePlayer d id body)) = competitions d /\
   registrations (fst (updatePlayer d id body)) = registrations d /\
   matches (fst (updatePlayer d id body)) = matches d /\
   match_events (fst (updatePlayer d id body)) = match_events d /\
   seq_matches (fst (updatePlayer d id body)) = seq_matches d /\
   seq_match_events (fst (updatePlayer d id body)) = seq_match_events d /\
   (filter (fun p => p_id p =? id) (players d) = [] \/
    fk_ok (get_team d) (u_team_id body) = true)).
Proof.
  unfold updatePlayer.
  destruct (Nat.eqb (fields_length body) 0); [now left|].
  destruct (existsb _ (filter _ (players d))); [now left|].
  destruct (filter (fun p => p_id p =? id) (players d)) as [|x l] eqn:Hhit;
    cbn [List.length Nat.eqb negb andb].
  - right. cbn. repeat split. now left.
  - destruct (fk_ok (get_team d) (u_team_id body)) eqn:Hfk; cbn [negb];
      [right; cbn; repeat split; now right | now left].
Qed.

Lemma setMatchStatus_tables d id status :
  fst (setMatchStatus d id status) = d \/
  fst (setMatchStatus d id status)
  = set_matches d (map (set_status status id) (matches d)).
Proof.
  unfold setMatchStatus.
  destruct (negb (includes match_statuses status)); [now left | now right].
Qed.

Lemma createMatch_tables d q :
  fst (createMatch d q) = d \/
  (fst (createMatch d q)
   = mkDb (teams d) (players d) (competitions d) (registrations d)
          (matches d
           ++ [mkMatch (seq_matches d + 1) (q_competition_id q)
                       (q_home_team_id q) (q_away_team_id q) (q_date_time q)
                       (q_venue q) (q_referee q) "SCHEDULED" 0 0])
          (match_events d) (seq_matches d + 1) (seq_match_events d) /\
   q_home_team_id q <> q_away_team_id q /\
   fk_ok (get_competition d) (q_competition_id q) = true /\
   is_some (get_team d (q_home_team_id q)) = true /\
   is_some (get_team d (q_away_team_id q)) = true).
Proof.
  unfold createMatch.
  destruct (MatchSchema q) eqn:Hschema; cbn [negb]; [|now left].
  destruct (existsb (same_fixture q) (matches d)); [now left|].
  destruct (fk_ok (get_competition d) (q_competition_id q)); cbn [negb andb];
    [|now left].
  destruct (is_some (get_team d (q_home_team_id q))); cbn [negb andb];
    [|now left].
  destruct (is_some (get_team d (q_away_team_id q))); cbn [negb andb];
    [|now left].
  right. cbn [fst]. repeat split.
  unfold MatchSchema in Hschema.
  apply andb_true_iff in Hschema. destruct Hschema as [_ Hne].
  now apply negb_true_iff, Z.eqb_neq in Hne.
Qed.

(** X28.  Every guarded request, whatever its role and its outcome, keeps
    the player ids positive, keeps the two sides of every match different and
    keeps every score at zero or above. *)
Theorem requests_keep_ids_sides_and_scores :
  forall x_role r d,
    player_ids_positive d -> sides_differ d -> scores_nonnegative d ->
    player_ids_positive (fst (serve x_role r d)) /\
    sides_differ (fst (serve x_role r d)) /\
    scores_nonnegative (fst (serve x_role r d)).
Proof.
  intros x_role r d Hpos Hdiff Hscore. unfold serve, guard.
  destruct (requireRole (allowed_roles r) x_role); cbn [fst];
    [|now repeat split].
  unfold player_ids_positive, sides_differ, scores_nonnegative in *.
  destruct r as [id | id body | id | q | id status | id req]; cbn [handler].
  - destruct (deleteTeam_tables d id)
      as [-> | (_ & -> & _ & _ & -> & _)]; [now repeat split|].
    repeat split; now apply Forall_filter_keep.
  - split; [now apply updatePlayer_ids_positive|].
    now rewrite updatePlayer_matches.
  - destruct (deletePlayer_tables d id)
      as [-> | (_ & -> & _ & _ & -> & _)]; [now repeat split|].
    repeat split; try assumption. now apply Forall_filter_keep.
  - destruct (createMatch_tables d q) as [-> | (-> & Hne & _)];
      [now repeat split|].
    cbn [players matches]. repeat split; [exact Hpos | |];
      apply Forall_app; (split; [assumption|]);
      constructor; [|constructor| |constructor]; cbn; [exact Hne | lia].
  - destruct (setMatchStatus_tables d id status) as [-> | ->];
      [now repeat split|].
    cbn [players matches set_matches]. rewrite !Forall_map.
    split; [exact Hpos | split].
    + eapply Forall_impl; [|exact Hdiff]. intros m Hm.
      unfold set_status. destruct (m_id m =? id); exact Hm.
    + eapply Forall_impl; [|exact Hscore]. intros m Hm.
      unfold set_status. destruct (m_id m =? id); exact Hm.
  - destruct (evolves_invariants _ _ (applyEvent_evolves d id req)
                                 (conj Hpos Hdiff)) as [Hpos' Hdiff'].
    split; [exact Hpos' | split; [exact Hdiff'|]].
    destruct (applyEvent_matches d id req) as (hi & ai & Hhi & Hai & ->).
    rewrite Forall_map. eapply Forall_impl; [|exact Hscore].
    intros m [Hh Ha]. unfold add_scores.
    destruct (m_id m =? id); cbn; [|now split].
    destruct Hhi as [-> | ->], Hai as [-> | ->]; lia.
Qed.

Lemma requests_keep_ids_sides_and_scores_witness :
  scores_nonnegative
    (fst (serve (Some "referee") (POST_match_event 1 own_goal_without_team)
                seed_db)).
Proof.
  apply (requests_keep_ids_sides_and_scores
           (Some "referee") (POST_match_event 1 own_goal_without_team) seed_db).
  - apply seed_db_invariants.
  - apply seed_db_invariants.
  - unfold scores_nonnegative. cbn. repeat constructor; discriminate.
Defined.

Lemma NoDup_map_filter {A} (key : A -> Z) (f : A -> bool) (l : list A) :
  NoDup (map key l) -> NoDup (map key (filter f l)).
Proof.
  induction l as [|x l IH]; simpl; [intros; constructor|].
  intros Hnd. inversion Hnd as [|? ? Hnotin Hnd']; subst.
  destruct (f x); simpl; [|now apply IH].
  constructor; [|now apply IH].
  intros Hin. apply Hnotin. apply in_map_iff in Hin.
  destruct Hin as (y & Hy & Hin). apply filter_In in Hin.
  apply in_map_iff. exists y. tauto.
Qed.

Lemma Forall_map_filter {A} (key : A -> Z) (Q : Z -> Prop) (f : A -> bool)
    (l : list A) :
  Forall Q (map key l) -> Forall Q (map key (filter f l)).
Proof.
  rewrite !Forall_map. apply Forall_filter_keep.
Qed.

Lemma NoDup_snoc_above (l : list Z) (bound : Z) :
  NoDup l -> Forall (fun id => id <= bound) l ->
  NoDup (l ++ [bound + 1]) /\
  Forall (fun id => id <= bound + 1) (l ++ [bound + 1]).
Proof.
  intros Hnd Hle. split.
  - induction Hnd as [|x l Hnotin Hnd IH]; simpl.
    + repeat constructor. intros [].
    + apply Forall_cons_iff in Hle. destruct Hle as [Hx Hl].
      constructor; [|now apply IH].
      rewrite in_app_iff. intros [Hin | [Heq | []]]; [contradiction | lia].
  - apply Forall_app. split.
    + eapply Forall_impl; [|exact Hle]. intros a Ha. cbv beta in Ha. lia.
    + repeat constructor. lia.
Qed.

(** X29.  Every guarded request keeps the rowids of the matches and of the
    events pairwise different and at or below their AUTOINCREMENT counters,
    so an id that has been answered is never given to a second row. *)
Theorem requests_keep_rowids_fresh :
  forall x_role r d,
    rowids_fresh d -> rowids_fresh (fst (serve x_role r d)).
Proof.
  intros x_role r d Hfresh. unfold serve, guard.
  destruct (requireRole (allowed_roles r) x_role); cbn [fst]; [|exact Hfresh].
  destruct Hfresh as (Hm & Hmle & He & Hele).
  unfold rowids_fresh, match_ids, event_ids in *.
  destruct r as [id | id body | id | q | id status | id req]; cbn [handler].
  - destruct (deleteTeam_tables d id)
      as [-> | (_ & _ & _ & _ & -> & -> & -> & ->)]; [now repeat split|].
    rewrite map_map. cbn [set_event_refs e_id].
    repeat split;
      [now apply NoDup_map_filter | now apply Forall_map_filter
      | now apply NoDup_map_filter | now apply Forall_map_filter].
  - destruct (updatePlayer_tables d id body)
      as [-> | (_ & _ & _ & _ & -> & -> & -> & -> & _)]; now repeat split.
  - destruct (deletePlayer_tables d id)
      as [-> | (_ & _ & _ & _ & -> & -> & -> & ->)]; [now repeat split|].
    rewrite map_map. cbn [set_event_refs e_id]. now repeat split.
  - destruct (createMatch_tables d q) as [-> | (-> & _)];
      [now repeat split|].
    cbn [matches match_events seq_matches seq_match_events].
    rewrite map_app. cbn [map m_id].
    destruct (NoDup_snoc_above _ _ Hm Hmle) as [Hnd Hle].
    now repeat split.
  - destruct (setMatchStatus_tables d id status) as [-> | ->];
      [now repeat split|].
    cbn [matches match_events seq_matches seq_match_events set_matches].
    rewrite map_map.
    rewrite (map_ext (fun m => m_id (set_status status id m)) m_id)
      by apply set_status_id.
    now repeat split.
  - destruct (applyEvent_matches d id req) as (hi & ai & _ & _ & ->).
    rewrite map_map.
    rewrite (map_ext (fun m => m_id (add_scores hi ai id m)) m_id)
      by apply add_scores_id.
    destruct (applyEvent_log d id req)
      as [-> | (_ & -> & -> & -> & _)]; [now repeat split|].
    rewrite map_app. cbn [map event_row e_id].
    destruct (NoDup_snoc_above _ _ He Hele) as [Hnd Hle].
    now repeat split.
Qed.

Lemma seed_db_rowids_fresh : rowids_fresh seed_db.
Proof.
  unfold rowids_fresh. cbn.
  repeat split; repeat constructor; try lia. intros [].
Qed.

Lemma requests_keep_rowids_fresh_witness :
  rowids_fresh
    (fst (serve (Some "admin")
                (POST_match
                   (mkMatchReq (Some 1) 2 1 "2025-02-01T18:00" None None))
                seed_db)).
Proof.
  apply requests_keep_rowids_fresh. exact seed_db_rowids_fresh.
Defined.

(** ** Referential integrity *)

Lemma is_some_find_In {A} (key : A -> Z) (k : Z) (l : list A) :
  is_some (find (fun x => key x =? k) l) = true -> In k (map key l).
Proof.
  destruct (find (fun x => key x =? k) l) as [x|] eqn:E; [|discriminate].
  intros _. apply find_some_key in E. destruct E as [Hin <-].
  now apply in_map.
Qed.

Lemma fk_ok_find {A} (key : A -> Z) (l : list A) (ref : option Z) :
  fk_ok (fun k => find (fun x => key x =? k) l) ref = true ->
  ref_ok (map key l) ref.
Proof.
  destruct ref as [v|]; cbn; [apply is_some_find_In | trivial].
Qed.

Lemma ref_ok_mono (ids ids' : list Z) (ref : option Z) :
  (forall v, In v ids -> In v ids') -> ref_ok ids ref -> ref_ok ids' ref.
Proof. destruct ref; cbn; auto. Qed.

Lemma In_ids_filter {A} (key : A -> Z) (f : A -> bool) (l : list A) (k : Z) :
  (forall x, In x l -> key x = k -> f x = true) ->
  In k (map key l) -> In k (map key (filter f l)).
Proof.
  intros Hkeep Hin. apply in_map_iff in Hin. destruct Hin as (x & Hk & Hin).
  apply in_map_iff. exists x. split; [exact Hk|].
  apply filter_In. split; [exact Hin | now apply Hkeep].
Qed.

Lemma In_ids_without {A} (key : A -> Z) (id : Z) (l : list A) (k : Z) :
  k <> id -> In k (map key l) ->
  In k (map key (filter (fun x => negb (key x =? id)) l)).
Proof.
  intros Hne. apply In_ids_filter. intros x _ Hk.
  apply negb_true_iff, Z.eqb_neq. congruence.
Qed.

Lemma update_player_if_players cond pid f d :
  (forall id p, p_id (f id p) = p_id p /\ p_team_id (f id p) = p_team_id p) ->
  exists fp,
    players (update_player_if cond pid f d) = map fp (players d) /\
    forall p, p_id (fp p) = p_id p /\ p_team_id (fp p) = p_team_id p.
Proof.
  intros Hf. unfold update_player_if.
  assert (Hsame : exists fp,
             players d = map fp (players d) /\
             forall p, p_id (fp p) = p_id p /\ p_team_id (fp p) = p_team_id p)
    by (exists (fun p => p); rewrite map_id; now split).
  destruct pid as [id|]; [|exact Hsame].
  destruct (cond && truthy (Some id)); [|exact Hsame].
  exists (f id). split; [reflexivity | apply Hf].
Qed.

Lemma inc_keeps_refs :
  (forall id p, p_id (inc_goals id p) = p_id p /\
                p_team_id (inc_goals id p) = p_team_id p) /\
  (forall id p, p_id (inc_yellow_cards id p) = p_id p /\
                p_team_id (inc_yellow_cards id p) = p_team_id p) /\
  (forall id p, p_id (inc_red_cards id p) = p_id p /\
                p_team_id (inc_red_cards id p) = p_team_id p).
Proof.
  repeat split;
    unfold inc_goals, inc_yellow_cards, inc_red_cards;
    destruct (p_id p =? id); reflexivity.
Qed.

(** The players table after any event request: same ids, same teams. *)
Lemma applyEvent_players_refs d id req :
  exists fp,
    players (fst (applyEvent d id req)) = map fp (players d) /\
    forall p, p_id (fp p) = p_id p /\ p_team_id (fp p) = p_team_id p.
Proof.
  destruct inc_keeps_refs as (Hg & Hy & Hr).
  assert (Hsame : exists fp,
             players d = map fp (players d) /\
             forall p, p_id (fp p) = p_id p /\ p_team_id (fp p) = p_team_id p)
    by (exists (fun p => p); rewrite map_id; now split).
  destruct (applyEvent_cases d id req)
    as [[_ ->] | [(e & _ & _ & ->) | (d1 & eid & m & _ & Hins & _ & ->)]];
    [exact Hsame | exact Hsame |].
  cbn [fst].
  apply insert_match_event_inr in Hins.
  destruct Hins as (_ & _ & _ & _ & _ & _ & ->).
  unfold card_updates.
  match goal with
  | |- context [update_player_if ?c1 ?p1 inc_red_cards
                  (update_player_if ?c2 ?p2 inc_yellow_cards ?x)] =>
      destruct (update_player_if_players c1 p1 inc_red_cards
                  (update_player_if c2 p2 inc_yellow_cards x) Hr)
        as (f3 & -> & H3);
      destruct (update_player_if_players c2 p2 inc_yellow_cards x Hy)
        as (f2 & -> & H2)
  end.
  destruct (is_goal_type req).
  - match goal with
    | |- context [update_player_if ?c ?p inc_goals ?x] =>
        destruct (update_player_if_players c p inc_goals x Hg)
          as (f1 & -> & H1)
    end.
    cbn [players set_matches]. rewrite !map_map.
    eexists. split; [reflexivity|].
    intros p. destruct (H1 p), (H2 (f1 p)), (H3 (f2 (f1 p))).
    split; congruence.
  - cbn [players]. rewrite map_map.
    eexists. split; [reflexivity|].
    intros p. destruct (H2 p), (H3 (f2 p)). split; congruence.
Qed.

Lemma applyEvent_competitions d id req :
  competitions (fst (applyEvent d id req)) = competitions d.
Proof.
  destruct (applyEvent_log d id req) as [-> | (_ & _ & _ & _ & Hc & _)];
    [reflexivity | exact Hc].
Qed.

Lemma deleteTeam_references d id :
  references_resolve d -> references_resolve (fst (deleteTeam d id)).
Proof.
  intros (HA & HB & HC & HE).
  destruct (deleteTeam_tables d id)
    as [-> | (Ht & Hp & Hc & Hr & Hm & He & _)]; [now repeat split|].
  unfold references_resolve, team_ids, player_ids, competition_ids, match_ids.
  rewrite Ht, Hp, Hc, Hr, Hm, He.
  rewrite Forall_forall in HA, HB, HC, HE.
  repeat split; apply Forall_forall.
  - intros p Hin. apply filter_In in Hin. destruct Hin as [Hin Hne].
    apply negb_true_iff, Z.eqb_neq in Hne.
    apply In_ids_without; [exact Hne | now apply HA].
  - intros r Hin. apply filter_In in Hin. destruct Hin as [Hin Hne].
    apply negb_true_iff, Z.eqb_neq in Hne.
    destruct (HB r Hin) as [Ht' Hc']. split; [|exact Hc'].
    now apply In_ids_without.
  - intros m Hin. apply filter_In in Hin. destruct Hin as [Hin Hne].
    unfold team_plays in Hne.
    apply negb_true_iff, orb_false_iff in Hne. rewrite !Z.eqb_neq in Hne.
    destruct (HC m Hin) as (Hh & Ha & Hcomp).
    repeat split; [now apply In_ids_without | now apply In_ids_without
                  | exact Hcomp].
  - intros e Hin. apply in_map_iff in Hin. destruct Hin as (e0 & <- & Hin).
    apply filter_In in Hin. destruct Hin as [Hin Hkept].
    apply negb_true_iff in Hkept.
    destruct (HE e0 Hin) as (Hmatch & Hplayer & Hteam).
    cbn [set_event_refs e_match_id e_player_id e_team_id].
    repeat split.
    + apply In_ids_filter; [|exact Hmatch].
      intros m Hmin Hid. apply negb_true_iff.
      destruct (team_plays id m) eqn:Hplays; [|reflexivity].
      assert (Hlost : existsb (fun m => (m_id m =? e_match_id e0)
                                        && team_plays id m) (matches d) = true).
      { apply existsb_exists. exists m. split; [exact Hmin|].
        now rewrite Hid, Z.eqb_refl, Hplays. }
      congruence.
    + destruct (e_player_id e0) as [v|]; cbn [null_if]; [|exact I].
      destruct (existsb (fun p => (p_id p =? v) && (p_team_id p =? id))
                        (players d)) eqn:Hlost; [exact I|].
      cbn [ref_ok] in *. apply In_ids_filter; [|exact Hplayer].
      intros p Hpin Hid. apply negb_true_iff.
      destruct (p_team_id p =? id) eqn:Hteam'; [|reflexivity].
      assert (Hex : existsb (fun p => (p_id p =? v) && (p_team_id p =? id))
                            (players d) = true).
      { apply existsb_exists. exists p. split; [exact Hpin|].
        now rewrite Hid, Z.eqb_refl, Hteam'. }
      congruence.
    + destruct (e_team_id e0) as [v|]; cbn [null_if]; [|exact I].
      destruct (id =? v) eqn:E; [exact I|].
      cbn [ref_ok] in *. apply Z.eqb_neq in E.
      apply In_ids_without; [congruence | exact Hteam].
Qed.

Lemma deletePlayer_references d id :
  references_resolve d -> references_resolve (fst (deletePlayer d id)).
Proof.
  intros (HA & HB & HC & HE).
  destruct (deletePlayer_tables d id)
    as [-> | (Ht & Hp & Hc & Hr & Hm & He & _)]; [now repeat split|].
  unfold references_resolve, team_ids, player_ids, competition_ids, match_ids.
  rewrite Ht, Hp, Hc, Hr, Hm, He.
  repeat split; try assumption.
  - now apply Forall_filter_keep.
  - rewrite Forall_map. eapply Forall_impl; [|exact HE].
    intros e (Hmatch & Hplayer & Hteam).
    cbn [set_event_refs e_match_id e_player_id e_team_id].
    repeat split; [exact Hmatch | | exact Hteam].
    destruct (e_player_id e) as [v|]; cbn [null_if]; [|exact I].
    destruct (id =? v) eqn:E; [exact I|].
    cbn [ref_ok] in *. apply Z.eqb_neq in E.
    apply In_ids_without; [congruence | exact Hplayer].
Qed.

Lemma updatePlayer_references d id body :
  references_resolve d -> references_resolve (fst (updatePlayer d id body)).
Proof.
  intros (HA & HB & HC & HE).
  destruct (updatePlayer_tables d id body)
    as [-> | (Ht & Hp & Hc & Hr & Hm & He & _ & _ & Hfk)]; [now repeat split|].
  unfold references_resolve, team_ids, player_ids, competition_ids, match_ids.
  rewrite Ht, Hp, Hc, Hr, Hm, He.
  assert (Hids : map p_id (map (fun p => if p_id p =? id
                                         then apply_patch body p else p)
                               (players d))
                 = map p_id (players d)).
  { rewrite map_map. apply map_ext. intros p.
    now destruct (p_id p =? id). }
  rewrite Hids. repeat split; try assumption.
  rewrite Forall_map. rewrite Forall_forall in HA |- *.
  intros p Hin. destruct (p_id p =? id) eqn:E; [|now apply HA].
  cbn [apply_patch p_team_id].
  destruct (u_team_id body) as [t|] eqn:Hteam; cbn [or_keep]; [|now apply HA].
  destruct Hfk as [Hempty | Hfk].
  - assert (Hhit : In p (filter (fun p => p_id p =? id) (players d)))
      by now apply filter_In.
    rewrite Hempty in Hhit. destruct Hhit.
  - cbn [fk_ok] in Hfk. now apply is_some_find_In in Hfk.
Qed.

Lemma createMatch_references d q :
  references_resolve d -> references_resolve (fst (createMatch d q)).
Proof.
  intros (HA & HB & HC & HE).
  destruct (createMatch_tables d q)
    as [-> | (-> & _ & Hcomp & Hhome & Haway)]; [now repeat split|].
  unfold references_resolve, team_ids, player_ids, competition_ids, match_ids.
  cbn [teams players competitions registrations matches match_events].
  repeat split; try assumption.
  - apply Forall_app. split; [exact HC|].
    constructor; [|constructor]. cbn.
    repeat split; [now apply is_some_find_In in Hhome
                  | now apply is_some_find_In in Haway
                  | now apply fk_ok_find in Hcomp].
  - eapply Forall_impl; [|exact HE]. intros e (Hmatch & Hplayer & Hteam).
    repeat split; try assumption.
    rewrite map_app. apply in_or_app. now left.
Qed.

Lemma setMatchStatus_references d id status :
  references_resolve d -> references_resolve (fst (setMatchStatus d id status)).
Proof.
  intros (HA & HB & HC & HE).
  destruct (setMatchStatus_tables d id status) as [-> | ->];
    [now repeat split|].
  unfold references_resolve, team_ids, player_ids, competition_ids, match_ids.
  cbn [teams players competitions registrations matches match_events
       set_matches].
  rewrite map_map.
  rewrite (map_ext (fun m => m_id (set_status status id m)) m_id)
    by apply set_status_id.
  repeat split; try assumption.
  rewrite Forall_map. eapply Forall_impl; [|exact HC].
  intros m Hm. unfold set_status. destruct (m_id m =? id); exact Hm.
Qed.

Lemma applyEvent_references d id req :
  references_resolve d -> references_resolve (fst (applyEvent d id req)).
Proof.
  intros (HA & HB & HC & HE).
  destruct (applyEvent_teams_registrations d id req) as (Ht & Hr).
  pose proof (applyEvent_competitions d id req) as Hc.
  destruct (applyEvent_matches d id req) as (hi & ai & _ & _ & Hm).
  destruct (applyEvent_players_refs d id req) as (fp & Hp & Hfp).
  unfold references_resolve, team_ids, player_ids, competition_ids, match_ids.
  rewrite Ht, Hr, Hc, Hm, Hp.
  assert (Hpids : map p_id (map fp (players d)) = map p_id (players d))
    by (rewrite map_map; apply map_ext; intros p; apply Hfp).
  assert (Hmids : map m_id (map (add_scores hi ai id) (matches d))
                  = map m_id (matches d))
    by (rewrite map_map; apply map_ext; apply add_scores_id).
  rewrite Hpids, Hmids. repeat split; try assumption.
  - rewrite Forall_map. eapply Forall_impl; [|exact HA].
    intros p Hin. destruct (Hfp p) as [_ ->]. exact Hin.
  - rewrite Forall_map. eapply Forall_impl; [|exact HC].
    intros m Hin. unfold add_scores. destruct (m_id m =? id); exact Hin.
  - destruct (applyEvent_log d id req)
      as [-> | (_ & -> & _ & _ & _ & Hmatch & Hplayer & Hteam)]; [exact HE|].
    apply Forall_app. split; [exact HE|].
    constructor; [|constructor].
    cbn [event_row e_match_id e_player_id e_team_id].
    repeat split; [now apply is_some_find_In in Hmatch
                  | now apply fk_ok_find in Hplayer
                  | now apply fk_ok_find in Hteam].
Qed.

Lemma registerTeam_references comps cid tid d :
  references_resolve d ->
  references_resolve (fst (registerTeam comps cid tid d)).
Proof.
  intros (HA & HB & HC & HE).
  destruct (registerTeam comps cid tid d) as [d' a] eqn:Hreg.
  destruct a; cbn [fst];
    try (unfold registerTeam in Hreg;
         repeat match type of Hreg with
                | context [match ?c with _ => _ end] => destruct c
                end;
         inversion Hreg; subst; now repeat split).
  unfold registerTeam in Hreg.
  destruct (find (fun c => cr_id c =? cid) comps); [|discriminate].
  repeat match type of Hreg with
         | context [if ?c then _ else _] =>
             lazymatch c with
             | negb _ => fail
             | _ => destruct c; [discriminate|]
             end
         end.
  destruct (is_some (get_team d tid)) eqn:Hteam; cbn [negb andb] in Hreg;
    [|discriminate].
  destruct (is_some (get_competition d cid)) eqn:Hcomp; cbn [negb] in Hreg;
    [|discriminate].
  injection Hreg as <-.
  unfold references_resolve, team_ids, player_ids, competition_ids, match_ids.
  cbn [teams players competitions registrations matches match_events].
  repeat split; try assumption.
  apply Forall_app. split; [exact HB|].
  constructor; [|constructor]. cbn.
  split; [now apply is_some_find_In in Hteam
         | now apply is_some_find_In in Hcomp].
Qed.

(** X30.  Referential integrity is kept: on a store in which every player,
    registration, match and event names only rows that exist, every guarded
    request and every registration, accepted or refused, leaves a store with
    the same property. *)
Theorem requests_keep_references_resolved :
  forall d,
    references_resolve d ->
    (forall x_role r, references_resolve (fst (serve x_role r d))) /\
    (forall comps x_role cid tid,
       references_resolve (fst (route_register comps x_role cid tid d))).
Proof.
  intros d Href. split.
  - intros x_role r. unfold serve, guard.
    destruct (requireRole (allowed_roles r) x_role); cbn [fst];
      [|exact Href].
    destruct r; cbn [handler];
      [ now apply deleteTeam_references
      | now apply updatePlayer_references
      | now apply deletePlayer_references
      | now apply createMatch_references
      | now apply setMatchStatus_references
      | now apply applyEvent_references ].
  - intros comps x_role cid tid. unfold route_register, guard.
    destruct (requireRole ["admin"; "coach"] x_role); cbn [fst];
      [now apply registerTeam_references | exact Href].
Qed.

Lemma seed_db_references : references_resolve seed_db.
Proof.
  unfold references_resolve. cbn.
  repeat first [apply Forall_cons | apply Forall_nil | split];
    cbn; intuition.
Qed.

Lemma requests_keep_references_resolved_witness :
  references_resolve
    (fst (serve (Some "admin") (DELETE_team 2) falcon_3_river_1)).
Proof.
  assert (Href : references_resolve falcon_3_river_1).
  { unfold references_resolve. vm_compute.
    repeat first [apply Forall_cons | apply Forall_nil | split];
      cbn; intuition. }
  exact (proj1 (requests_keep_references_resolved falcon_3_river_1 Href)
               (Some "admin") (DELETE_team 2)).
Defined.
